(** * go-job: the [logger] package (internal/logger/logger.go)

    A shallow embedding of the logging facility: severity filter, console
    and dated-file sinks, retention cleanup, the process-wide singleton and
    the lock discipline of its methods, with the properties the
    specification states about them.

    Modelling conventions
    - A [time.Time] instant is a [Z]: nanoseconds since the Unix epoch.  The
      location is a fixed offset from UTC (no daylight-saving changes), so
      [time.Date(y, m, d, 0, ...)] and [AddDate(0, 0, n)] are arithmetic on
      the local day number.
    - The operating system is an explicit [World]: directories, inodes,
      open-file objects, the two standard streams, the Go heap holding the
      [Logger] structs, the background goroutines and the package variable
      [globalLogger].  A directory holds regular files and subdirectories.
    - A pointer to a [Logger] is an index into [w_heap]; one to an [os.File] is an index
      into [w_files].  Both tables only grow.
    - Failures of system calls that do not follow from the state of the
      model (permissions, full disks) come from the oracle [Env].
    - [sort.Slice] belongs to Go's library; it is taken through its
      documented contract ([SliceSorter]).
    - The sequential functions run one method at a time, so taking and
      releasing [l.mu] has no effect there; the lock discipline itself is
      modelled in [Module Conc] at the end of the definitions. *)

From Stdlib Require Import ZArith String Ascii List Bool Lia.
From Stdlib Require Import Sorting.Permutation Sorting.Sorted.
From stdpp Require Import base option list strings gmap pretty sorting.

Local Open Scope string_scope.
Local Open Scope list_scope.
Local Open Scope Z_scope.

(* ===================================================================== *)
(** ** Time *)
(* ===================================================================== *)

Definition nsPerSecond : Z := 1000000000.
Definition nsPerDay : Z := 86400 * nsPerSecond.

(** Number of the local calendar day that contains instant [t], for a
    location [zone] seconds east of UTC. *)
Definition local_day (zone t : Z) : Z := (t + zone * nsPerSecond) / nsPerDay.

(** [time.Date(y, m, d, 0, 0, 0, 0, loc)] for the day numbered [day]. *)
Definition midnight_of (zone day : Z) : Z := day * nsPerDay - zone * nsPerSecond.

(** Days since 1970-01-01 to (year, month, day) of the proleptic Gregorian
    calendar. *)
Definition civil_from_days (days : Z) : Z * Z * Z :=
  let z := days + 719468 in
  let era := z / 146097 in
  let doe := z - era * 146097 in
  let yoe := (doe - doe / 1460 + doe / 36524 - doe / 146096) / 365 in
  let doy := doe - (365 * yoe + yoe / 4 - yoe / 100) in
  let mp := (5 * doy + 2) / 153 in
  let d := doy - (153 * mp + 2) / 5 + 1 in
  let m := if mp <? 10 then mp + 3 else mp - 9 in
  let y := yoe + era * 400 in
  (if m <=? 2 then y + 1 else y, m, d).

Fixpoint zeros (n : nat) : string :=
  match n with
  | O => ""
  | S k => "0" +:+ zeros k
  end.

Definition zero_pad (width : nat) (s : string) : string :=
  zeros (width - String.length s) +:+ s.

(** Go's [appendInt(b, x, width)]: decimal, zero-padded, sign first. *)
Definition appendInt (x : Z) (width : nat) : string :=
  if x <? 0 then "-" +:+ zero_pad width (pretty (Z.to_N (- x)))
  else zero_pad width (pretty (Z.to_N x)).

(** [t.Format("2006-01-02")] in the location [zone]. *)
Definition format_date (zone t : Z) : string :=
  let '(y, m, d) := civil_from_days (local_day zone t) in
  appendInt y 4 +:+ "-" +:+ appendInt m 2 +:+ "-" +:+ appendInt d 2.

(* ===================================================================== *)
(** ** Strings and paths *)
(* ===================================================================== *)

(** [strings.HasPrefix(s, prefix)]. *)
Definition HasPrefix (s pre : string) : bool := String.prefix pre s.

(** [strings.HasSuffix(s, suffix)]:
    [len(s) >= len(suffix) && s[len(s)-len(suffix):] == suffix]. *)
Definition HasSuffix (s suf : string) : bool :=
  (String.length suf <=? String.length s)%nat
  && String.eqb
       (String.substring (String.length s - String.length suf)
                         (String.length suf) s)
       suf.

(** [filepath.Join(dir, name)] for a directory path and a file name. *)
Definition Join (dir name : string) : string := dir +:+ "/" +:+ name.

(* ===================================================================== *)
(** ** Results *)
(* ===================================================================== *)

(** A Go result [(T, error)]: a value, or a non-nil error with its text. *)
Inductive result (A : Type) : Type :=
| Ok (a : A)
| Err (msg : string).
Arguments Ok {A} a.
Arguments Err {A} msg.

Definition is_err {A} (r : result A) : bool :=
  match r with Ok _ => false | Err _ => true end.

(* ===================================================================== *)
(** ** Data model of the package *)
(* ===================================================================== *)

(** [type LogLevel int] with its four constants. *)
Definition LogLevel := Z.
Definition DebugLevel : LogLevel := 0.
Definition InfoLevel : LogLevel := 1.
Definition WarnLevel : LogLevel := 2.
Definition ErrorLevel : LogLevel := 3.

(** [type LoggerConfig struct]. *)
Record LoggerConfig := {
  Level : LogLevel;
  OutputType : string;
  LogDir : string;
  FilePrefix : string;
  RetentionDays : Z
}.

(** The destination a [log.Logger] was created on: [os.Stdout] or an
    [os.File]. *)
Inductive Writer :=
| Stdout
| FileW (h : nat).

(** [type Logger struct].  [logger] and [currentFile] are pointers that may
    be nil; [ctx_done] tells whether [cancel] has been called on [ctx]. *)
Record Logger := {
  level : LogLevel;
  outputType : string;
  logDir : string;
  filePrefix : string;
  retentionDays : Z;
  logger : option Writer;
  currentFile : option nat;
  ctx_done : bool
}.

Definition set_level (v : LogLevel) (l : Logger) : Logger :=
  {| level := v; outputType := outputType l; logDir := logDir l;
     filePrefix := filePrefix l; retentionDays := retentionDays l;
     logger := logger l; currentFile := currentFile l;
     ctx_done := ctx_done l |}.

Definition set_logger (o : option Writer) (l : Logger) : Logger :=
  {| level := level l; outputType := outputType l; logDir := logDir l;
     filePrefix := filePrefix l; retentionDays := retentionDays l;
     logger := o; currentFile := currentFile l; ctx_done := ctx_done l |}.

Definition set_currentFile (o : option nat) (l : Logger) : Logger :=
  {| level := level l; outputType := outputType l; logDir := logDir l;
     filePrefix := filePrefix l; retentionDays := retentionDays l;
     logger := logger l; currentFile := o; ctx_done := ctx_done l |}.

Definition set_ctx_done (b : bool) (l : Logger) : Logger :=
  {| level := level l; outputType := outputType l; logDir := logDir l;
     filePrefix := filePrefix l; retentionDays := retentionDays l;
     logger := logger l; currentFile := currentFile l; ctx_done := b |}.

(* ===================================================================== *)
(** ** The world the package runs in *)
(* ===================================================================== *)

(** One line produced by [Output] of a [log.Logger]: the instant its header
    shows, and the text after the header. *)
Record Line := { ln_time : Z; ln_text : string }.

Record Inode := {
  i_isDir : bool;
  i_mtime : Z;
  i_data : list Line
}.

(** An [os.File] object: the inode it was opened on and whether it was closed. *)
Record OsFile := { of_ino : nat; of_closed : bool }.

(** The goroutine started by [scheduleDailyTasks]: the logger it serves
    and the instant of the next tick of its ticker. *)
Record Task := { task_logger : nat; task_next : Z }.

(** [sort.Slice] through its contract: given a [less] that is a strict weak
    ordering, the result is a permutation of the argument in which no
    element is [less] than an earlier one.  Nothing is promised about the
    order of elements that compare equal. *)
Definition strict_weak {A} (less : A -> A -> bool) : Prop :=
  (forall x, less x x = false)
  /\ (forall x y z, less x y = true -> less y z = true -> less x z = true)
  /\ (forall x y z, less x y = false -> less y z = false -> less x z = false).

Record SliceSorter := {
  sort_slice : (string -> string -> bool) -> list string -> list string;
  sort_slice_perm : forall less l, Permutation (sort_slice less l) l;
  sort_slice_sorted : forall less,
    strict_weak less ->
    forall l, StronglySorted (fun x y => less y x = false) (sort_slice less l)
}.

(** What the program cannot see or decide: the location of the clock, the
    library's sorting routine, and which system calls fail for reasons
    outside the model.  Paths are as [filepath.Join] builds them. *)
Record Env := {
  env_zone : Z;
  env_sort : SliceSorter;
  mkdir_err : string -> bool;
  open_err : string -> bool;
  close_err : nat -> bool;
  readdir_err : string -> bool;
  info_err : string -> bool;
  remove_err : string -> bool
}.

(** [w_unlinked] is a record of the run, not program state: the paths that
    [os.Remove] has unlinked so far, in order. *)
Record World := {
  w_env : Env;
  w_now : Z;
  w_dirs : gmap string (list (string * nat));
  w_inodes : list Inode;
  w_files : list OsFile;
  w_unlinked : list string;
  w_stdout : list Line;
  w_stderr : list string;
  w_heap : list Logger;
  w_tasks : list Task;
  globalLogger : option nat
}.

Definition set_now (v : Z) (w : World) : World :=
  {| w_env := w_env w; w_now := v; w_dirs := w_dirs w;
     w_inodes := w_inodes w; w_files := w_files w;
     w_unlinked := w_unlinked w; w_stdout := w_stdout w;
     w_stderr := w_stderr w; w_heap := w_heap w; w_tasks := w_tasks w;
     globalLogger := globalLogger w |}.

Definition set_dirs (v : gmap string (list (string * nat))) (w : World) : World :=
  {| w_env := w_env w; w_now := w_now w; w_dirs := v; w_inodes := w_inodes w;
     w_files := w_files w; w_unlinked := w_unlinked w;
     w_stdout := w_stdout w; w_stderr := w_stderr w; w_heap := w_heap w;
     w_tasks := w_tasks w; globalLogger := globalLogger w |}.

Definition set_inodes (v : list Inode) (w : World) : World :=
  {| w_env := w_env w; w_now := w_now w; w_dirs := w_dirs w; w_inodes := v;
     w_files := w_files w; w_unlinked := w_unlinked w;
     w_stdout := w_stdout w; w_stderr := w_stderr w; w_heap := w_heap w;
     w_tasks := w_tasks w; globalLogger := globalLogger w |}.

Definition set_files (v : list OsFile) (w : World) : World :=
  {| w_env := w_env w; w_now := w_now w; w_dirs := w_dirs w;
     w_inodes := w_inodes w; w_files := v; w_unlinked := w_unlinked w;
     w_stdout := w_stdout w; w_stderr := w_stderr w; w_heap := w_heap w;
     w_tasks := w_tasks w; globalLogger := globalLogger w |}.

Definition set_unlinked (v : list string) (w : World) : World :=
  {| w_env := w_env w; w_now := w_now w; w_dirs := w_dirs w;
     w_inodes := w_inodes w; w_files := w_files w; w_unlinked := v;
     w_stdout := w_stdout w; w_stderr := w_stderr w; w_heap := w_heap w;
     w_tasks := w_tasks w; globalLogger := globalLogger w |}.

Definition set_stdout (v : list Line) (w : World) : World :=
  {| w_env := w_env w; w_now := w_now w; w_dirs := w_dirs w;
     w_inodes := w_inodes w; w_files := w_files w;
     w_unlinked := w_unlinked w; w_stdout := v; w_stderr := w_stderr w;
     w_heap := w_heap w; w_tasks := w_tasks w;
     globalLogger := globalLogger w |}.

Definition set_stderr (v : list string) (w : World) : World :=
  {| w_env := w_env w; w_now := w_now w; w_dirs := w_dirs w;
     w_inodes := w_inodes w; w_files := w_files w;
     w_unlinked := w_unlinked w; w_stdout := w_stdout w; w_stderr := v;
     w_heap := w_heap w; w_tasks := w_tasks w;
     globalLogger := globalLogger w |}.

Definition set_heap (v : list Logger) (w : World) : World :=
  {| w_env := w_env w; w_now := w_now w; w_dirs := w_dirs w;
     w_inodes := w_inodes w; w_files := w_files w;
     w_unlinked := w_unlinked w; w_stdout := w_stdout w;
     w_stderr := w_stderr w; w_heap := v; w_tasks := w_tasks w;
     globalLogger := globalLogger w |}.

Definition set_tasks (v : list Task) (w : World) : World :=
  {| w_env := w_env w; w_now := w_now w; w_dirs := w_dirs w;
     w_inodes := w_inodes w; w_files := w_files w;
     w_unlinked := w_unlinked w; w_stdout := w_stdout w;
     w_stderr := w_stderr w; w_heap := w_heap w; w_tasks := v;
     globalLogger := globalLogger w |}.

Definition set_global (v : option nat) (w : World) : World :=
  {| w_env := w_env w; w_now := w_now w; w_dirs := w_dirs w;
     w_inodes := w_inodes w; w_files := w_files w;
     w_unlinked := w_unlinked w; w_stdout := w_stdout w;
     w_stderr := w_stderr w; w_heap := w_heap w; w_tasks := w_tasks w;
     globalLogger := v |}.

(** [log.Printf] of the standard logger: one line on standard error. *)
Definition log_Printf (msg : string) (w : World) : World :=
  set_stderr (w_stderr w ++ [msg]) w.

(** Update of the struct a pointer to a [Logger] refers to. *)
Definition update_logger (p : nat) (f : Logger -> Logger) (w : World) : World :=
  match w_heap w !! p with
  | Some l => set_heap (<[p := f l]> (w_heap w)) w
  | None => w
  end.

(* ===================================================================== *)
(** ** System calls *)
(* ===================================================================== *)

(** Position of a name in a directory listing. *)
Fixpoint find_entry (name : string) (ents : list (string * nat)) : option nat :=
  match ents with
  | [] => None
  | (n, ino) :: rest => if String.eqb n name then Some ino else find_entry name rest
  end.

(** Listings are kept in file-name order, as [os.ReadDir] returns them. *)
Fixpoint insert_entry (e : string * nat) (ents : list (string * nat))
  : list (string * nat) :=
  match ents with
  | [] => [e]
  | e' :: rest =>
      if String.leb (fst e) (fst e') then e :: ents
      else e' :: insert_entry e rest
  end.

Fixpoint remove_entry (name : string) (ents : list (string * nat))
  : list (string * nat) :=
  match ents with
  | [] => []
  | (n, ino) :: rest =>
      if String.eqb n name then rest else (n, ino) :: remove_entry name rest
  end.

(** [os.MkdirAll(dir, 0755)]. *)
Definition MkdirAll (dir : string) (w : World) : result unit * World :=
  if mkdir_err (w_env w) dir then (Err ("mkdir " +:+ dir), w)
  else match w_dirs w !! dir with
       | Some _ => (Ok tt, w)
       | None => (Ok tt, set_dirs (<[dir := []]> (w_dirs w)) w)
       end.

(** [os.OpenFile(filepath.Join(dir, name), O_APPEND|O_CREATE|O_WRONLY, 0644)]:
    an existing file is opened as it is, a missing one is created empty. *)
Definition OpenFile (dir name : string) (w : World) : result nat * World :=
  if open_err (w_env w) (Join dir name) then (Err ("open " +:+ Join dir name), w)
  else match w_dirs w !! dir with
       | None => (Err ("open " +:+ Join dir name +:+ ": no such file or directory"), w)
       | Some ents =>
           match find_entry name ents with
           | Some ino =>
               match w_inodes w !! ino with
               | Some i =>
                   if i_isDir i
                   then (Err ("open " +:+ Join dir name +:+ ": is a directory"), w)
                   else (Ok (length (w_files w)),
                         set_files (w_files w ++ [{| of_ino := ino; of_closed := false |}]) w)
               | None => (Err ("open " +:+ Join dir name +:+ ": no such file or directory"), w)
               end
           | None =>
               let ino := length (w_inodes w) in
               let w1 := set_inodes (w_inodes w ++
                           [{| i_isDir := false; i_mtime := w_now w; i_data := [] |}]) w in
               let w2 := set_dirs (<[dir := insert_entry (name, ino) ents]> (w_dirs w1)) w1 in
               (Ok (length (w_files w2)),
                set_files (w_files w2 ++ [{| of_ino := ino; of_closed := false |}]) w2)
           end
       end.

(** [Close] of an [os.File]: the handle is closed afterwards in every case. *)
Definition File_Close (h : nat) (w : World) : result unit * World :=
  match w_files w !! h with
  | Some f =>
      if of_closed f then (Err "close: file already closed", w)
      else
        let w1 := set_files (<[h := {| of_ino := of_ino f; of_closed := true |}]> (w_files w)) w in
        if close_err (w_env w) h then (Err "close: input/output error", w1)
        else (Ok tt, w1)
  | None => (Err "close: invalid argument", w)
  end.

(** [Write] of one line on a handle opened with [O_APPEND]. *)
Definition File_Write (h : nat) (ln : Line) (w : World) : result unit * World :=
  match w_files w !! h with
  | Some f =>
      if of_closed f then (Err "write: file already closed", w)
      else match w_inodes w !! of_ino f with
           | Some i =>
               (Ok tt,
                set_inodes (<[of_ino f := {| i_isDir := i_isDir i; i_mtime := w_now w;
                                             i_data := i_data i ++ [ln] |}]> (w_inodes w)) w)
           | None => (Err "write: bad file descriptor", w)
           end
  | None => (Err "write: invalid argument", w)
  end.

(** [os.ReadDir(dir)]: the entries of [dir], in file-name order. *)
Definition ReadDir (dir : string) (w : World) : result (list (string * nat)) :=
  if readdir_err (w_env w) dir then Err ("open " +:+ dir)
  else match w_dirs w !! dir with
       | Some ents => Ok ents
       | None => Err ("open " +:+ dir +:+ ": no such file or directory")
       end.

(** [(fs.DirEntry).IsDir]. *)
Definition IsDir (e : string * nat) (w : World) : bool :=
  match w_inodes w !! snd e with
  | Some i => i_isDir i
  | None => false
  end.

(** [(fs.DirEntry).Info] followed by [ModTime]. *)
Definition Info_ModTime (dir : string) (e : string * nat) (w : World) : result Z :=
  if info_err (w_env w) (Join dir (fst e)) then Err ("lstat " +:+ Join dir (fst e))
  else match w_inodes w !! snd e with
       | Some i => Ok (i_mtime i)
       | None => Err ("lstat " +:+ Join dir (fst e) +:+ ": no such file or directory")
       end.

(** [os.Stat(filepath.Join(dir, name))] followed by [ModTime], for a name
    that is in the directory. *)
Definition Stat_ModTime (dir name : string) (w : World) : Z :=
  match w_dirs w !! dir with
  | Some ents =>
      match find_entry name ents with
      | Some ino => match w_inodes w !! ino with
                    | Some i => i_mtime i
                    | None => 0
                    end
      | None => 0
      end
  | None => 0
  end.

(** [os.Remove(filepath.Join(dir, name))]: unlinks the name; the inode
    stays for the handles that are open on it. *)
Definition Remove (dir name : string) (w : World) : result unit * World :=
  if remove_err (w_env w) (Join dir name) then (Err ("remove " +:+ Join dir name), w)
  else match w_dirs w !! dir with
       | Some ents =>
           match find_entry name ents with
           | Some _ =>
               (Ok tt,
                set_unlinked (w_unlinked w ++ [Join dir name])
                  (set_dirs (<[dir := remove_entry name ents]> (w_dirs w)) w))
           | None => (Err ("remove " +:+ Join dir name +:+ ": no such file or directory"), w)
           end
       | None => (Err ("remove " +:+ Join dir name +:+ ": no such file or directory"), w)
       end.

(* ===================================================================== *)
(** ** The methods of [Logger] *)
(* ===================================================================== *)

(** [l.logger.Output(4, msg)]: the header carries the current instant; an
    error of the underlying write is returned by [Output] and dropped by
    its caller [log]. *)
Definition Output (wr : Writer) (text : string) (w : World) : World :=
  let ln := {| ln_time := w_now w; ln_text := text |} in
  match wr with
  | Stdout => set_stdout (w_stdout w ++ [ln]) w
  | FileW h => snd (File_Write h ln w)
  end.

(** [func (l) log(level string, format string, v ...interface{})];
    [msg] is the text [fmt.Sprintf(format, v...)] yields. *)
Definition log (p : nat) (tag msg : string) (w : World) : World :=
  match w_heap w !! p with
  | Some l =>
      match logger l with
      | None => w
      | Some wr => Output wr ("[" +:+ tag +:+ "] " +:+ msg) w
      end
  | None => w
  end.

(** [func (l) Debug(format string, v ...interface{})]. *)
Definition Debug (p : nat) (msg : string) (w : World) : World :=
  match w_heap w !! p with
  | Some l => if level l >? DebugLevel then w else log p "DEBUG" msg w
  | None => w
  end.

(** [func (l) Info(format string, v ...interface{})]. *)
Definition Info (p : nat) (msg : string) (w : World) : World :=
  match w_heap w !! p with
  | Some l => if level l >? InfoLevel then w else log p "INFO" msg w
  | None => w
  end.

(** [func (l) Warn(format string, v ...interface{})]. *)
Definition Warn (p : nat) (msg : string) (w : World) : World :=
  match w_heap w !! p with
  | Some l => if level l >? WarnLevel then w else log p "WARN" msg w
  | None => w
  end.

(** [func (l) Error(format string, v ...interface{})]. *)
Definition Error (p : nat) (msg : string) (w : World) : World :=
  match w_heap w !! p with
  | Some l => if level l >? ErrorLevel then w else log p "ERROR" msg w
  | None => w
  end.

(** [func (l) SetLevel(level LogLevel)]. *)
Definition SetLevel (p : nat) (v : LogLevel) (w : World) : World :=
  update_logger p (set_level v) w.

(** The block shared by [setupFileLogger] and [Close]:
    [if l.currentFile != nil { Close it, warn on error; l.currentFile = nil }]. *)
Definition close_current (p : nat) (w : World) : World :=
  match w_heap w !! p with
  | Some l =>
      match currentFile l with
      | Some h =>
          let '(r, w1) := File_Close h w in
          let w2 := match r with
                    | Err e => log_Printf ("Warning: failed to close log file: " +:+ e) w1
                    | Ok _ => w1
                    end in
          update_logger p (set_currentFile None) w2
      | None => w
      end
  | None => w
  end.

(** The name of the log file of the day that contains the current instant. *)
Definition log_filename (prefix : string) (w : World) : string :=
  let dateStr := format_date (env_zone (w_env w)) (w_now w) in
  prefix +:+ "_" +:+ dateStr +:+ ".log".

(** [func (l) setupFileLogger() error]. *)
Definition setupFileLogger (p : nat) (w : World) : result unit * World :=
  match w_heap w !! p with
  | Some l =>
      let w1 := close_current p w in
      let filename := log_filename (filePrefix l) w1 in
      match OpenFile (logDir l) filename w1 with
      | (Err e, w2) => (Err ("failed to open log file: " +:+ e), w2)
      | (Ok file, w2) =>
          (Ok tt,
           update_logger p
             (fun l' => set_logger (Some (FileW file)) (set_currentFile (Some file) l'))
             w2)
      end
  | None => (Err "nil receiver", w)
  end.

(** [func (l) scheduleDailyTasks()]: the goroutine and its ticker,
    whose first tick is at the next local midnight. *)
Definition scheduleDailyTasks (p : nat) (w : World) : World :=
  let now := w_now w in
  let zone := env_zone (w_env w) in
  let nextMidnight := midnight_of zone (local_day zone now + 1) in
  set_tasks (w_tasks w ++ [{| task_logger := p; task_next := nextMidnight |}]) w.

(** [time.Date(now.Year(), now.Month(), now.Day(), 0, 0, 0, 0, now.Location())]. *)
Definition Date_midnight (zone now : Z) : Z := midnight_of zone (local_day zone now).

(** [t.AddDate(0, 0, days)]. *)
Definition AddDate_days (t days : Z) : Z := t + days * nsPerDay.

(** The first loop of [cleanupOldLogs]: the names appended to [oldFiles]. *)
Fixpoint collect_old (dir prefix suffix : string) (cutoffTime : Z)
    (files : list (string * nat)) (oldFiles : list string) (w : World)
  : list string * World :=
  match files with
  | [] => (oldFiles, w)
  | file :: rest =>
      if IsDir file w then collect_old dir prefix suffix cutoffTime rest oldFiles w
      else
        let name := fst file in
        if HasPrefix name prefix && HasSuffix name suffix then
          match Info_ModTime dir file w with
          | Err e =>
              collect_old dir prefix suffix cutoffTime rest oldFiles
                (log_Printf ("Warning: failed to get file info for " +:+ name
                             +:+ ": " +:+ e) w)
          | Ok modTime =>
              if modTime <? cutoffTime
              then collect_old dir prefix suffix cutoffTime rest (oldFiles ++ [name]) w
              else collect_old dir prefix suffix cutoffTime rest oldFiles w
          end
        else collect_old dir prefix suffix cutoffTime rest oldFiles w
  end.

(** The last loop of [cleanupOldLogs]. *)
Fixpoint delete_old (p : nat) (dir : string) (oldFiles : list string) (w : World)
  : World :=
  match oldFiles with
  | [] => w
  | file :: rest =>
      let filePath := Join dir file in
      match Remove dir file w with
      | (Err e, w1) =>
          delete_old p dir rest
            (log_Printf ("Warning: failed to delete old log file " +:+ filePath
                         +:+ ": " +:+ e) w1)
      | (Ok _, w1) =>
          delete_old p dir rest (log p "INFO" ("Deleted old log file: " +:+ filePath) w1)
      end
  end.

(** The comparison handed to [sort.Slice]. *)
Definition older (dir : string) (w : World) (a b : string) : bool :=
  Stat_ModTime dir a w <? Stat_ModTime dir b w.

(** [func (l) cleanupOldLogs() error]. *)
Definition cleanupOldLogs (p : nat) (w : World) : result unit * World :=
  match w_heap w !! p with
  | Some l =>
      match ReadDir (logDir l) w with
      | Err e => (Err ("failed to read log directory: " +:+ e), w)
      | Ok files =>
          let now := w_now w in
          let cutoffTime :=
            AddDate_days (Date_midnight (env_zone (w_env w)) now) (- retentionDays l) in
          let prefix := filePrefix l +:+ "_" in
          let suffix := ".log" in
          let '(oldFiles, w1) :=
            collect_old (logDir l) prefix suffix cutoffTime files [] w in
          let sorted := sort_slice (env_sort (w_env w1)) (older (logDir l) w1) oldFiles in
          (Ok tt, delete_old p (logDir l) sorted w1)
      end
  | None => (Err "nil receiver", w)
  end.

(** [func (l) rotateAndCleanup()]. *)
Definition rotateAndCleanup (p : nat) (w : World) : World :=
  let '(r1, w1) := setupFileLogger p w in
  let w2 := match r1 with
            | Err e => log_Printf ("Error rotating log file: " +:+ e) w1
            | Ok _ => w1
            end in
  let '(r2, w3) := cleanupOldLogs p w2 in
  match r2 with
  | Err e => log_Printf ("Error cleaning up old logs: " +:+ e) w3
  | Ok _ => w3
  end.

(** [func (l) Close()]; [l.cancel] is set by the constructor. *)
Definition Close (p : nat) (w : World) : World :=
  close_current p (update_logger p (set_ctx_done true) w).

(** One wake-up of the goroutine of [scheduleDailyTasks]: it returns when
    the context is done, and otherwise rotates, cleans up and rearms its
    ticker for 24 hours later. *)
Definition task_wakeup (i : nat) (w : World) : World :=
  match w_tasks w !! i with
  | Some t =>
      match w_heap w !! task_logger t with
      | Some l =>
          if ctx_done l then set_tasks (delete i (w_tasks w)) w
          else
            let w1 := rotateAndCleanup (task_logger t) w in
            set_tasks (<[i := {| task_logger := task_logger t;
                                 task_next := w_now w1 + 24 * 3600 * nsPerSecond |}]>
                         (w_tasks w1)) w1
      | None => w
      end
  | None => w
  end.

(* ===================================================================== *)
(** ** The global registry *)
(* ===================================================================== *)

(** The checks of [InitGlobalLogger] that precede the construction of the
    struct, on the configuration with its defaults applied. *)
Definition validate_file_config (config : LoggerConfig) (w : World)
  : result unit * World :=
  if String.eqb (LogDir config) ""
  then (Err "log directory is required for file output", w)
  else if String.eqb (FilePrefix config) ""
  then (Err "file prefix is required for file output", w)
  else match MkdirAll (LogDir config) w with
       | (Err e, w1) => (Err ("failed to create log directory: " +:+ e), w1)
       | (Ok _, w1) => (Ok tt, w1)
       end.

(** [func InitGlobalLogger(config LoggerConfig)], returning a pointer to the [Logger] and an error. *)
Definition InitGlobalLogger (config : LoggerConfig) (w : World) : result nat * World :=
  match globalLogger w with
  | Some g => (Ok g, w)
  | None =>
      let outputType :=
        if String.eqb (OutputType config) "" then "console" else OutputType config in
      if negb (String.eqb outputType "console") && negb (String.eqb outputType "file")
      then (Err ("invalid output type: " +:+ outputType
                 +:+ ". Must be 'console' or 'file'"), w)
      else
        let retention :=
          if RetentionDays config <=? 0 then 7 else RetentionDays config in
        match (if String.eqb outputType "file"
               then validate_file_config config w else (Ok tt, w)) with
        | (Err e, w1) => (Err e, w1)
        | (Ok _, w1) =>
            let p := length (w_heap w1) in
            let w2 := set_heap (w_heap w1 ++
                        [{| level := Level config; outputType := outputType;
                            logDir := LogDir config; filePrefix := FilePrefix config;
                            retentionDays := retention; logger := None;
                            currentFile := None; ctx_done := false |}]) w1 in
            if String.eqb outputType "console"
            then (Ok p, set_global (Some p) (update_logger p (set_logger (Some Stdout)) w2))
            else if String.eqb outputType "file"
            then
              match setupFileLogger p w2 with
              | (Err e, w3) => (Err e, update_logger p (set_ctx_done true) w3)
              | (Ok _, w3) =>
                  let w4 := scheduleDailyTasks p w3 in
                  match cleanupOldLogs p w4 with
                  | (Err e, w5) =>
                      (Err ("failed to clean up old logs: " +:+ e),
                       update_logger p (set_ctx_done true) w5)
                  | (Ok _, w5) => (Ok p, set_global (Some p) w5)
                  end
              end
            else (Ok p, set_global (Some p) w2)
        end
  end.

(** [func GetLogger()]. *)
Definition GetLogger (w : World) : option nat := globalLogger w.

(** [func ResetGlobalLogger()]. *)
Definition ResetGlobalLogger (w : World) : World :=
  match globalLogger w with
  | Some g => set_global None (Close g w)
  | None => w
  end.


(* ===================================================================== *)
(** ** The package-level convenience functions *)
(* ===================================================================== *)

(** [func Debug(format string, v ...interface{})] of the package: the
    method of the singleton, or nothing without one.  The four severity
    functions and [SetLevel] have the same shape. *)
Definition Global_Debug (msg : string) (w : World) : World :=
  match globalLogger w with
  | Some g => Debug g msg w
  | None => w
  end.

Definition Global_Info (msg : string) (w : World) : World :=
  match globalLogger w with
  | Some g => Info g msg w
  | None => w
  end.

Definition Global_Warn (msg : string) (w : World) : World :=
  match globalLogger w with
  | Some g => Warn g msg w
  | None => w
  end.

Definition Global_Error (msg : string) (w : World) : World :=
  match globalLogger w with
  | Some g => Error g msg w
  | None => w
  end.

(** [func SetLevel(level LogLevel)] of the package. *)
Definition Global_SetLevel (v : LogLevel) (w : World) : World :=
  match globalLogger w with
  | Some g => SetLevel g v w
  | None => w
  end.

(* ===================================================================== *)
(** ** Vocabulary of the properties *)
(* ===================================================================== *)

(** The four severity methods, by the constant each compares with. *)
Inductive Severity := SevDebug | SevInfo | SevWarn | SevError.

Definition sev_level (s : Severity) : LogLevel :=
  match s with
  | SevDebug => DebugLevel
  | SevInfo => InfoLevel
  | SevWarn => WarnLevel
  | SevError => ErrorLevel
  end.

Definition sev_tag (s : Severity) : string :=
  match s with
  | SevDebug => "DEBUG"
  | SevInfo => "INFO"
  | SevWarn => "WARN"
  | SevError => "ERROR"
  end.

Definition sev_call (s : Severity) (p : nat) (msg : string) (w : World) : World :=
  match s with
  | SevDebug => Debug p msg w
  | SevInfo => Info p msg w
  | SevWarn => Warn p msg w
  | SevError => Error p msg w
  end.

(** Where the bytes of a logger end up: standard output or an inode. *)
Inductive Sink :=
| SinkStdout
| SinkFile (ino : nat).

(** The sink a logger can write to now, if there is one: its [log.Logger]
    exists, and a file behind it is still open. *)
Definition active_sink (p : nat) (w : World) : option Sink :=
  match w_heap w !! p with
  | Some l =>
      match logger l with
      | Some Stdout => Some SinkStdout
      | Some (FileW h) =>
          match w_files w !! h with
          | Some f =>
              if of_closed f then None
              else match w_inodes w !! of_ino f with
                   | Some _ => Some (SinkFile (of_ino f))
                   | None => None
                   end
          | None => None
          end
      | None => None
      end
  | None => None
  end.

(** Everything written to a sink so far. *)
Definition sink_output (s : Sink) (w : World) : list Line :=
  match s with
  | SinkStdout => w_stdout w
  | SinkFile ino =>
      match w_inodes w !! ino with
      | Some i => i_data i
      | None => []
      end
  end.

(** The line a severity call produces. *)
Definition sev_line (s : Severity) (msg : string) (w : World) : Line :=
  {| ln_time := w_now w; ln_text := "[" +:+ sev_tag s +:+ "] " +:+ msg |}.

(** The call has put its message at the end of the sink. *)
Definition emitted (s : Severity) (p : nat) (msg : string) (snk : Sink) (w : World)
  : Prop :=
  sink_output snk (sev_call s p msg w) = sink_output snk w ++ [sev_line s msg w].

(** The inode a name of a directory refers to. *)
Definition lookup_name (dir name : string) (w : World) : option nat :=
  match w_dirs w !! dir with
  | Some ents => find_entry name ents
  | None => None
  end.

(** The entries of a directory ([[]] for a missing one). *)
Definition listing (dir : string) (w : World) : list (string * nat) :=
  default [] (w_dirs w !! dir).

(** The naming convention of the log files of one prefix. *)
Definition is_log_name (prefix name : string) : bool :=
  HasPrefix name (prefix +:+ "_") && HasSuffix name ".log".

(** A candidate of the cleanup: a non-directory entry with a log name. *)
Definition candidate (prefix : string) (w : World) (e : string * nat) : bool :=
  negb (IsDir e w) && is_log_name prefix (fst e).

(** The retention cutoff of a logger at the current instant. *)
Definition cutoff (l : Logger) (w : World) : Z :=
  AddDate_days (Date_midnight (env_zone (w_env w)) (w_now w)) (- retentionDays l).

(** A candidate that the first loop of the cleanup puts on its list. *)
Definition expired (l : Logger) (w : World) (e : string * nat) : bool :=
  candidate (filePrefix l) w e
  && match Info_ModTime (logDir l) e w with
     | Ok modTime => modTime <? cutoff l w
     | Err _ => false
     end.

(** The configuration with the default of the sink kind applied. *)
Definition effective_type (config : LoggerConfig) : string :=
  if String.eqb (OutputType config) "" then "console" else OutputType config.

Definition effective_retention (config : LoggerConfig) : Z :=
  if RetentionDays config <=? 0 then 7 else RetentionDays config.

(** The three system calls of the construction of a file logger, each on
    the world its predecessors leave. *)
Definition mkdir_fails (config : LoggerConfig) (w : World) : bool :=
  is_err (fst (MkdirAll (LogDir config) w)).

Definition open_fails (config : LoggerConfig) (w : World) : bool :=
  is_err (fst (OpenFile (LogDir config) (log_filename (FilePrefix config) w)
                 (snd (MkdirAll (LogDir config) w)))).

Definition listing_fails (config : LoggerConfig) (w : World) : bool :=
  is_err (ReadDir (LogDir config)
            (snd (OpenFile (LogDir config) (log_filename (FilePrefix config) w)
                    (snd (MkdirAll (LogDir config) w))))).

(** The struct [InitGlobalLogger] builds from a configuration. *)
Definition reflects (config : LoggerConfig) (l : Logger) : Prop :=
  level l = Level config /\ outputType l = effective_type config
  /\ logDir l = LogDir config /\ filePrefix l = FilePrefix config
  /\ retentionDays l = effective_retention config /\ ctx_done l = false.

Definition with_retention (r : Z) (config : LoggerConfig) : LoggerConfig :=
  {| Level := Level config; OutputType := OutputType config;
     LogDir := LogDir config; FilePrefix := FilePrefix config;
     RetentionDays := r |}.

(** The ways a construction fails. *)
Definition init_fails (config : LoggerConfig) (w : World) : bool :=
  let t := effective_type config in
  (negb (String.eqb t "console") && negb (String.eqb t "file"))
  || (String.eqb t "file"
      && (String.eqb (LogDir config) "" || String.eqb (FilePrefix config) ""
          || mkdir_fails config w || open_fails config w
          || listing_fails config w)).

(** The operations of the package on a world. *)
Inductive Op :=
| OpInit (config : LoggerConfig)
| OpReset
| OpClose (p : nat)
| OpSetLevel (p : nat) (v : LogLevel)
| OpSeverity (s : Severity) (p : nat) (msg : string)
| OpRotateAndCleanup (p : nat)
| OpSetupFileLogger (p : nat)
| OpCleanupOldLogs (p : nat)
| OpTaskWakeup (i : nat).

Definition run_op (o : Op) (w : World) : World :=
  match o with
  | OpInit config => snd (InitGlobalLogger config w)
  | OpReset => ResetGlobalLogger w
  | OpClose p => Close p w
  | OpSetLevel p v => SetLevel p v w
  | OpSeverity s p msg => sev_call s p msg w
  | OpRotateAndCleanup p => rotateAndCleanup p w
  | OpSetupFileLogger p => snd (setupFileLogger p w)
  | OpCleanupOldLogs p => snd (cleanupOldLogs p w)
  | OpTaskWakeup i => task_wakeup i w
  end.

(** The claimed order of deletion, in the words of the specification: a
    stable sort of the names by modification time, ascending. *)
Fixpoint stable_insert (key : string -> Z) (x : string) (l : list string)
  : list string :=
  match l with
  | [] => [x]
  | y :: r => if key x <? key y then x :: l else y :: stable_insert key x r
  end.

Definition stable_sort_by (key : string -> Z) (l : list string) : list string :=
  fold_left (fun acc x => stable_insert key x acc) l [].

(* ===================================================================== *)
(** ** The lock discipline of the methods *)
(* ===================================================================== *)

(** The sequential functions above say what each method does when it runs
    alone.  This module says in which order a method touches what it
    shares with the other goroutines: the field [l.level], the mutex
    [l.mu] and the sink.  Goroutines interleave at these accesses.  Each
    access takes effect at once for all goroutines; the read of [l.level]
    in the severity methods, which Go's memory model leaves unordered
    with the write of [SetLevel], is given the same reading. *)
Module Conc.

Inductive Instr :=
| CheckLevel (s : Severity)       (* [if l.level > S { return }] *)
| Lock                            (* [l.mu.Lock()] *)
| Unlock                          (* the deferred [l.mu.Unlock()] *)
| LogWrite (tag msg : string)     (* [l.log(tag, ...)]: [l.logger.Output] *)
| StoreLevel (v : LogLevel)       (* [l.level = level] *)
| Reopen                          (* close, open and replace the file *)
| CloseFile                       (* [l.cancel()], close the file *)
| RemoveFile (path : string).     (* [os.Remove(filePath)] *)

Inductive Method :=
| MSeverity (s : Severity) (msg : string)
| MSetLevel (v : LogLevel)
| MSetupFileLogger
| MCleanupOldLogs (oldFiles : list string)
| MRotateAndCleanup (oldFiles : list string)
| MClose.

(** The last loop of [cleanupOldLogs] on files whose removal succeeds. *)
Fixpoint cleanup_program (oldFiles : list string) : list Instr :=
  match oldFiles with
  | [] => []
  | f :: rest =>
      RemoveFile f :: LogWrite "INFO" ("Deleted old log file: " +:+ f)
        :: cleanup_program rest
  end.

(** The accesses of each method, in program order. *)
Definition program (m : Method) : list Instr :=
  match m with
  | MSeverity s msg => [CheckLevel s; Lock; LogWrite (sev_tag s) msg; Unlock]
  | MSetLevel v => [Lock; StoreLevel v; Unlock]
  | MSetupFileLogger => [Lock; Reopen; Unlock]
  | MCleanupOldLogs oldFiles => cleanup_program oldFiles
  | MRotateAndCleanup oldFiles => [Lock; Reopen; Unlock] ++ cleanup_program oldFiles
  | MClose => [Lock; CloseFile; Unlock]
  end.

(** One access as it happened: who made it, whether that goroutine held
    [l.mu], and the value of [l.level] at that moment. *)
Record Event := {
  ev_thread : nat;
  ev_instr : Instr;
  ev_locked : bool;
  ev_level : LogLevel
}.

Record State := {
  st_level : LogLevel;
  st_mu : option nat;
  st_threads : list (Method * list Instr);
  st_events : list Event
}.

Definition init (lvl : LogLevel) (ms : list Method) : State :=
  {| st_level := lvl; st_mu := None;
     st_threads := (fun m => (m, program m)) <$> ms; st_events := [] |}.

Definition holds (t : nat) (st : State) : bool :=
  match st_mu st with
  | Some t' => Nat.eqb t' t
  | None => false
  end.

(** Goroutine [t] makes its next access.  [None]: it has finished, or it
    waits for the mutex. *)
Definition step (t : nat) (st : State) : option State :=
  match st_threads st !! t with
  | Some (m, ins :: rest) =>
      let ev := {| ev_thread := t; ev_instr := ins; ev_locked := holds t st;
                   ev_level := st_level st |} in
      let next (lvl : LogLevel) (mu : option nat) (r : list Instr) :=
        Some {| st_level := lvl; st_mu := mu;
                st_threads := <[t := (m, r)]> (st_threads st);
                st_events := st_events st ++ [ev] |} in
      match ins with
      | CheckLevel s =>
          if st_level st >? sev_level s
          then next (st_level st) (st_mu st) []
          else next (st_level st) (st_mu st) rest
      | Lock =>
          match st_mu st with
          | None => next (st_level st) (Some t) rest
          | Some _ => None
          end
      | Unlock =>
          if holds t st then next (st_level st) None rest else None
      | StoreLevel v => next v (st_mu st) rest
      | LogWrite _ _ | Reopen | CloseFile | RemoveFile _ =>
          next (st_level st) (st_mu st) rest
      end
  | _ => None
  end.

Fixpoint run (schedule : list nat) (st : State) : option State :=
  match schedule with
  | [] => Some st
  | t :: rest =>
      match step t st with
      | Some st' => run rest st'
      | None => None
      end
  end.

Definition is_check (e : Event) : bool :=
  match ev_instr e with CheckLevel _ => true | _ => false end.

Definition is_write (e : Event) : bool :=
  match ev_instr e with LogWrite _ _ => true | _ => false end.

Definition is_rotation (e : Event) : bool :=
  match ev_instr e with Reopen => true | _ => false end.

Definition is_store (e : Event) : bool :=
  match ev_instr e with StoreLevel _ | Reopen | CloseFile => true | _ => false end.

(** The methods whose sink writes come from the last loop of
    [cleanupOldLogs]. *)
Definition cleans (m : Method) : bool :=
  match m with
  | MCleanupOldLogs _ | MRotateAndCleanup _ => true
  | _ => false
  end.

End Conc.
(* ===================================================================== *)
(** ** Sorting routines that meet the contract of [sort.Slice] *)
(* ===================================================================== *)

(** Insertion sort as Go's library runs it: each element moves left while
    it is [less] than its predecessor.  Since Go 1.19 this is all that
    [sort.Slice] does on a slice of at most 12 elements. *)
Fixpoint insert_after_equal (less : string -> string -> bool) (x : string)
    (l : list string) : list string :=
  match l with
  | [] => [x]
  | y :: r => if less x y then x :: l else y :: insert_after_equal less x r
  end.

Definition insertion_sort (less : string -> string -> bool) (l : list string)
  : list string :=
  fold_left (fun acc x => insert_after_equal less x acc) l [].

(** The Shell pass with gap 6 that Go releases up to 1.18 run before the
    insertion sort on a slice of at most 12 elements:
    [for i := a + 6; i < b; i++ { if less(i, i-6) { swap(i, i-6) } }].
    With at most 12 elements the pairs [(i-6, i)] do not overlap; [front]
    holds the first six elements and [back] the others. *)
Fixpoint gap_pass (less : string -> string -> bool) (front back : list string)
  : list string * list string :=
  match front, back with
  | x :: front', y :: back' =>
      let '(f, b) := gap_pass less front' back' in
      if less y x then (y :: f, x :: b) else (x :: f, y :: b)
  | _, _ => (front, back)
  end.

(** [sort.Slice] of Go releases up to 1.18 on a slice of at most 12
    elements.  Longer slices, which those releases sort by quicksort, do
    not occur where this routine is used; insertion sort stands in for
    them. *)
Definition legacy_sort (less : string -> string -> bool) (l : list string)
  : list string :=
  if (length l <=? 12)%nat
  then let '(f, b) := gap_pass less (take 6 l) (drop 6 l) in
       insertion_sort less (f ++ b)
  else insertion_sort less l.

Lemma insert_after_equal_perm less x l :
  Permutation (insert_after_equal less x l) (x :: l).
Proof.
  induction l as [|y r IH]; simpl; [reflexivity|].
  destruct (less x y); [reflexivity|].
  rewrite IH. apply perm_swap.
Qed.

Lemma fold_insert_perm (ins : string -> list string -> list string) :
  (forall x l, Permutation (ins x l) (x :: l)) ->
  forall l acc, Permutation (fold_left (fun a x => ins x a) l acc) (l ++ acc).
Proof.
  intros Hins l. induction l as [|x l IH]; intros acc; simpl; [reflexivity|].
  rewrite IH, Hins. symmetry. apply Permutation_middle.
Qed.

Lemma insertion_sort_perm less l : Permutation (insertion_sort less l) l.
Proof.
  unfold insertion_sort.
  rewrite (fold_insert_perm _ (insert_after_equal_perm less)).
  by rewrite app_nil_r.
Qed.

Section SortedInsertion.
Variable less : string -> string -> bool.
Hypothesis Hless : strict_weak less.

Let ord (x y : string) : Prop := less y x = false.

Lemma ord_trans x y z : ord x y -> ord y z -> ord x z.
Proof.
  unfold ord. destruct Hless as (_ & _ & Hneg). intros H1 H2. eauto.
Qed.

Lemma less_ord x y : less x y = true -> ord x y.
Proof.
  unfold ord. destruct Hless as (Hirr & Htr & _). intros H.
  destruct (less y x) eqn:E; [|done].
  rewrite <- (Hirr x). symmetry. eauto.
Qed.

Lemma insert_after_equal_sorted x l :
  StronglySorted ord l -> StronglySorted ord (insert_after_equal less x l).
Proof.
  induction 1 as [|y r Hr IH Hy]; simpl.
  - repeat constructor.
  - destruct (less x y) eqn:E.
    + constructor; [by constructor|].
      constructor; [by apply less_ord|].
      eapply Forall_impl; [exact Hy|].
      intros z Hz. eapply ord_trans; [by apply less_ord|exact Hz].
    + constructor; [exact IH|].
      eapply Permutation_Forall; [symmetry; apply insert_after_equal_perm|].
      constructor; [exact E|exact Hy].
Qed.

Lemma fold_insert_sorted (ins : string -> list string -> list string) :
  (forall x l, StronglySorted ord l -> StronglySorted ord (ins x l)) ->
  forall l acc, StronglySorted ord acc ->
                StronglySorted ord (fold_left (fun a x => ins x a) l acc).
Proof.
  intros Hins l. induction l as [|x l IH]; intros acc Hacc; simpl; auto.
Qed.

Lemma insertion_sort_sorted l : StronglySorted ord (insertion_sort less l).
Proof.
  apply (fold_insert_sorted _ insert_after_equal_sorted). constructor.
Qed.

End SortedInsertion.

Definition insertion_sorter : SliceSorter :=
  {| sort_slice := insertion_sort;
     sort_slice_perm := insertion_sort_perm;
     sort_slice_sorted := insertion_sort_sorted |}.

Lemma gap_pass_perm less front back :
  Permutation (fst (gap_pass less front back) ++ snd (gap_pass less front back))
              (front ++ back).
Proof.
  revert back. induction front as [|x front IH]; intros [|y back]; simpl; try reflexivity.
  specialize (IH back). destruct (gap_pass less front back) as [f b]. simpl in *.
  destruct (less y x); simpl.
  - rewrite <- !Permutation_middle, IH. apply perm_swap.
  - rewrite <- !Permutation_middle, IH. reflexivity.
Qed.

Lemma legacy_sort_perm less l : Permutation (legacy_sort less l) l.
Proof.
  unfold legacy_sort. destruct (length l <=? 12)%nat.
  - pose proof (gap_pass_perm less (take 6 l) (drop 6 l)) as H.
    destruct (gap_pass less (take 6 l) (drop 6 l)) as [f b]. simpl in H.
    rewrite insertion_sort_perm, H. by rewrite take_drop.
  - apply insertion_sort_perm.
Qed.

Lemma legacy_sort_sorted less :
  strict_weak less ->
  forall l, StronglySorted (fun x y => less y x = false) (legacy_sort less l).
Proof.
  intros H l. unfold legacy_sort. destruct (length l <=? 12)%nat.
  - destruct (gap_pass less (take 6 l) (drop 6 l)) as [f b].
    by apply insertion_sort_sorted.
  - by apply insertion_sort_sorted.
Qed.

Definition legacy_sorter : SliceSorter :=
  {| sort_slice := legacy_sort;
     sort_slice_perm := legacy_sort_perm;
     sort_slice_sorted := legacy_sort_sorted |}.

(* ===================================================================== *)
(** ** Concrete worlds *)
(* ===================================================================== *)

(** No system call fails on its own account; the clock is in UTC. *)
Definition quiet_env (srt : SliceSorter) : Env :=
  {| env_zone := 0; env_sort := srt;
     mkdir_err := fun _ => false; open_err := fun _ => false;
     close_err := fun _ => false; readdir_err := fun _ => false;
     info_err := fun _ => false; remove_err := fun _ => false |}.

(** 2023-07-04 01:00:00 UTC. *)
Definition t_0704 : Z := 19542 * nsPerDay + 3600 * nsPerSecond.

Definition old_file (t : Z) : Inode :=
  {| i_isDir := false; i_mtime := t;
     i_data := [{| ln_time := t; ln_text := "[INFO] Test log content" |}] |}.

(** A process that has just started: an empty file system. *)
Definition boot_world : World :=
  {| w_env := quiet_env insertion_sorter; w_now := t_0704; w_dirs := ∅;
     w_inodes := []; w_files := []; w_unlinked := []; w_stdout := [];
     w_stderr := []; w_heap := []; w_tasks := []; globalLogger := None |}.

(** The directory of [TestLogCleanup]: prefixed files modified 3, 2, 1 and 0
    days ago, a file of another pattern modified 3 days ago, and a
    subdirectory with a log name. *)
Definition cleanup_world (srt : SliceSorter) : World :=
  {| w_env := quiet_env srt; w_now := t_0704;
     w_dirs := {[ "/tmp/logs" :=
                    [("cleantest_2023-07-01.log", 0%nat);
                     ("cleantest_2023-07-02.log", 1%nat);
                     ("cleantest_2023-07-03.log", 2%nat);
                     ("cleantest_2023-07-04.log", 3%nat);
                     ("cleantest_old.log", 4%nat);
                     ("otherfile.log", 5%nat)] ]};
     w_inodes := [old_file (t_0704 - 3 * nsPerDay);
                  old_file (t_0704 - 2 * nsPerDay);
                  old_file (t_0704 - 1 * nsPerDay);
                  old_file t_0704;
                  {| i_isDir := true; i_mtime := 0; i_data := [] |};
                  old_file (t_0704 - 3 * nsPerDay)];
     w_files := []; w_unlinked := []; w_stdout := []; w_stderr := [];
     w_heap := []; w_tasks := []; globalLogger := None |}.

Definition console_config : LoggerConfig :=
  {| Level := InfoLevel; OutputType := ""; LogDir := ""; FilePrefix := "";
     RetentionDays := 0 |}.

Definition file_config : LoggerConfig :=
  {| Level := InfoLevel; OutputType := "file"; LogDir := "/tmp/logs";
     FilePrefix := "cleantest"; RetentionDays := 1 |}.

(** The worlds after a successful [InitGlobalLogger]. *)
Definition console_world : World := snd (InitGlobalLogger console_config boot_world).

Definition file_world : World :=
  snd (InitGlobalLogger file_config (cleanup_world insertion_sorter)).

(** The struct of the logger of [file_world], and the one of a console
    logger. *)
Definition file_logger : Logger :=
  {| level := InfoLevel; outputType := "file"; logDir := "/tmp/logs";
     filePrefix := "cleantest"; retentionDays := 1;
     logger := Some (FileW 0); currentFile := Some 0%nat; ctx_done := false |}.

Definition console_logger : Logger :=
  {| level := InfoLevel; outputType := "console"; logDir := "";
     filePrefix := ""; retentionDays := 7;
     logger := Some Stdout; currentFile := None; ctx_done := false |}.

(** A log directory that is empty when the logger starts, on a system whose
    [sort.Slice] is the one of Go 1.18. *)
Definition empty_dir_world : World :=
  {| w_env := quiet_env legacy_sorter; w_now := t_0704;
     w_dirs := {[ "/tmp/logs" := [] ]};
     w_inodes := []; w_files := []; w_unlinked := []; w_stdout := [];
     w_stderr := []; w_heap := []; w_tasks := []; globalLogger := None |}.

(** Old files put back into the directory of a running logger with their
    modification times kept: seven log files of the logger, of which the
    first two carry the same time and the last one is the oldest, a
    subdirectory with a log name, and a file of another pattern. *)
Definition restore_old_logs (w : World) : World :=
  let n := length (w_inodes w) in
  let t := t_0704 - 10 * nsPerDay in
  let hour := 3600 * nsPerSecond in
  set_inodes (w_inodes w ++
                [old_file (t + 5 * hour); old_file (t + 5 * hour);
                 old_file (t + 6 * hour); old_file (t + 7 * hour);
                 old_file (t + 8 * hour); old_file (t + 9 * hour);
                 old_file (t + 3 * hour);
                 {| i_isDir := true; i_mtime := t; i_data := [] |};
                 old_file t])
    (set_dirs (<["/tmp/logs" :=
                   listing "/tmp/logs" w ++
                     [("cleantest_a.log", n); ("cleantest_b.log", n + 1);
                      ("cleantest_c.log", n + 2); ("cleantest_d.log", n + 3);
                      ("cleantest_e.log", n + 4); ("cleantest_f.log", n + 5);
                      ("cleantest_g.log", n + 6); ("cleantest_sub.log", n + 7);
                      ("otherfile.log", n + 8)]%nat]> (w_dirs w)) w).

Definition tie_world : World :=
  restore_old_logs (snd (InitGlobalLogger file_config empty_dir_world)).

(* ===================================================================== *)
(** ** What each operation leaves alone *)
(* ===================================================================== *)

Ltac split_all := repeat match goal with |- _ /\ _ => split end.

Ltac crush := repeat (simpl in *; try case_match; simplify_eq); try done.

(** The fields no method of the package writes except the registry
    functions and the scheduler. *)
Definition steady (w w' : World) : Prop :=
  w_env w' = w_env w /\ w_now w' = w_now w
  /\ globalLogger w' = globalLogger w /\ w_tasks w' = w_tasks w.

Lemma steady_refl w : steady w w.
Proof. by unfold steady. Qed.

Lemma steady_trans w1 w2 w3 : steady w1 w2 -> steady w2 w3 -> steady w1 w3.
Proof. unfold steady. intuition congruence. Qed.

Lemma update_logger_lookup p f l w :
  w_heap w !! p = Some l -> w_heap (update_logger p f w) !! p = Some (f l).
Proof.
  intros H. unfold update_logger. rewrite H. simpl.
  apply list_lookup_insert_eq. by eapply lookup_lt_Some.
Qed.

Lemma update_logger_lookup_ne p q f w :
  p <> q -> w_heap (update_logger p f w) !! q = w_heap w !! q.
Proof.
  intros H. unfold update_logger. case_match; [|done]. simpl.
  by apply list_lookup_insert_ne.
Qed.

Lemma update_logger_length p f w :
  length (w_heap (update_logger p f w)) = length (w_heap w).
Proof. unfold update_logger. case_match; [|done]. simpl. apply length_insert. Qed.

Lemma update_logger_frame p f w :
  let w' := update_logger p f w in
  steady w w' /\ w_dirs w' = w_dirs w /\ w_inodes w' = w_inodes w
  /\ w_files w' = w_files w /\ w_unlinked w' = w_unlinked w
  /\ w_stdout w' = w_stdout w /\ w_stderr w' = w_stderr w.
Proof. unfold update_logger, steady. by case_match. Qed.

Lemma File_Close_frame h w :
  let w' := snd (File_Close h w) in
  steady w w' /\ w_dirs w' = w_dirs w /\ w_inodes w' = w_inodes w
  /\ w_unlinked w' = w_unlinked w /\ w_stdout w' = w_stdout w
  /\ w_stderr w' = w_stderr w /\ w_heap w' = w_heap w
  /\ length (w_files w') = length (w_files w).
Proof.
  unfold File_Close, steady. repeat case_match; simpl; split_all; try done;
    by rewrite length_insert.
Qed.

Lemma File_Write_frame h ln w :
  let w' := snd (File_Write h ln w) in
  steady w w' /\ w_dirs w' = w_dirs w /\ w_files w' = w_files w
  /\ w_unlinked w' = w_unlinked w /\ w_stdout w' = w_stdout w
  /\ w_stderr w' = w_stderr w /\ w_heap w' = w_heap w
  /\ length (w_inodes w') = length (w_inodes w).
Proof.
  unfold File_Write, steady. repeat case_match; simpl; split_all; try done;
    by rewrite length_insert.
Qed.

Lemma Output_frame wr text w :
  let w' := Output wr text w in
  steady w w' /\ w_dirs w' = w_dirs w /\ w_files w' = w_files w
  /\ w_unlinked w' = w_unlinked w /\ w_stderr w' = w_stderr w
  /\ w_heap w' = w_heap w /\ length (w_inodes w') = length (w_inodes w).
Proof.
  unfold Output. destruct wr as [|h]; [by unfold steady|].
  pose proof (File_Write_frame h {| ln_time := w_now w; ln_text := text |} w).
  simpl in *. tauto.
Qed.

Lemma log_frame p tag msg w :
  let w' := log p tag msg w in
  steady w w' /\ w_dirs w' = w_dirs w /\ w_files w' = w_files w
  /\ w_unlinked w' = w_unlinked w /\ w_stderr w' = w_stderr w
  /\ w_heap w' = w_heap w /\ length (w_inodes w') = length (w_inodes w).
Proof.
  unfold log. repeat case_match; try (by unfold steady). apply Output_frame.
Qed.

Lemma sev_call_frame s p msg w :
  let w' := sev_call s p msg w in
  steady w w' /\ w_dirs w' = w_dirs w /\ w_files w' = w_files w
  /\ w_unlinked w' = w_unlinked w /\ w_stderr w' = w_stderr w
  /\ w_heap w' = w_heap w /\ length (w_inodes w') = length (w_inodes w).
Proof.
  destruct s; simpl; unfold Debug, Info, Warn, Error;
    repeat case_match; try (by unfold steady); apply log_frame.
Qed.

Lemma close_current_frame p w :
  let w' := close_current p w in
  steady w w' /\ w_dirs w' = w_dirs w /\ w_inodes w' = w_inodes w
  /\ w_unlinked w' = w_unlinked w /\ w_stdout w' = w_stdout w
  /\ length (w_heap w') = length (w_heap w)
  /\ length (w_files w') = length (w_files w).
Proof.
  unfold close_current.
  destruct (w_heap w !! p) as [l|] eqn:Hl; [|by unfold steady].
  destruct (currentFile l) as [h|]; [|by unfold steady].
  pose proof (File_Close_frame h w) as HF.
  destruct (File_Close h w) as [r w1]. simpl in HF.
  destruct HF as ((?&?&?&?)&?&?&?&?&?&?&?).
  set (w2 := match r with Ok _ => w1 | Err e => _ end).
  assert (steady w1 w2 /\ w_dirs w2 = w_dirs w1 /\ w_inodes w2 = w_inodes w1
          /\ w_unlinked w2 = w_unlinked w1 /\ w_stdout w2 = w_stdout w1
          /\ w_heap w2 = w_heap w1 /\ w_files w2 = w_files w1) as HW
    by (subst w2; destruct r; by unfold steady).
  destruct HW as ((?&?&?&?)&?&?&?&?&?&?).
  pose proof (update_logger_frame p (set_currentFile None) w2) as HU.
  pose proof (update_logger_length p (set_currentFile None) w2).
  simpl in HU. destruct HU as ((?&?&?&?)&?&?&?&?&?&?).
  unfold steady. split_all; congruence.
Qed.

Lemma OpenFile_frame dir name w :
  let w' := snd (OpenFile dir name w) in
  steady w w' /\ w_unlinked w' = w_unlinked w /\ w_stdout w' = w_stdout w
  /\ w_stderr w' = w_stderr w /\ w_heap w' = w_heap w.
Proof. unfold OpenFile, steady. by repeat case_match. Qed.

Lemma setupFileLogger_steady p w : steady w (snd (setupFileLogger p w)).
Proof.
  unfold setupFileLogger. destruct (w_heap w !! p) as [l|]; [|apply steady_refl].
  pose proof (close_current_frame p w) as (HC & _).
  set (w1 := close_current p w) in *.
  pose proof (OpenFile_frame (logDir l) (log_filename (filePrefix l) w1) w1) as (HO & _).
  destruct (OpenFile (logDir l) (log_filename (filePrefix l) w1) w1) as [[file|e] w2];
    simpl in *.
  - eapply steady_trans; [exact HC|]. eapply steady_trans; [exact HO|].
    apply update_logger_frame.
  - eapply steady_trans; eauto.
Qed.

Lemma Remove_frame dir name w :
  let w' := snd (Remove dir name w) in
  steady w w' /\ w_inodes w' = w_inodes w /\ w_files w' = w_files w
  /\ w_stdout w' = w_stdout w /\ w_stderr w' = w_stderr w
  /\ w_heap w' = w_heap w.
Proof. unfold Remove, steady. by repeat case_match. Qed.

Lemma collect_old_frame dir prefix suffix cutoffTime files acc w :
  let w' := snd (collect_old dir prefix suffix cutoffTime files acc w) in
  steady w w' /\ w_dirs w' = w_dirs w /\ w_inodes w' = w_inodes w
  /\ w_files w' = w_files w /\ w_unlinked w' = w_unlinked w
  /\ w_stdout w' = w_stdout w /\ w_heap w' = w_heap w.
Proof.
  revert acc w. induction files as [|file rest IH]; intros acc w; simpl.
  - by unfold steady.
  - repeat case_match; try apply IH.
    match goal with |- context [log_Printf ?m w] =>
      specialize (IH acc (log_Printf m w)) end.
    simpl in IH. unfold steady in *. simpl in IH. exact IH.
Qed.

Lemma delete_old_frame p dir names w :
  let w' := delete_old p dir names w in
  steady w w' /\ w_files w' = w_files w /\ w_heap w' = w_heap w
  /\ length (w_inodes w') = length (w_inodes w).
Proof.
  revert w. induction names as [|n rest IH]; intros w; simpl.
  - by unfold steady.
  - pose proof (Remove_frame dir n w) as HR.
    destruct (Remove dir n w) as [[[]|e] w1]; simpl in HR;
      destruct HR as ((?&?&?&?)&?&?&?&?&?).
    + pose proof (log_frame p "INFO" ("Deleted old log file: " +:+ Join dir n) w1) as HL.
      simpl in HL. destruct HL as ((?&?&?&?)&?&?&?&?&?&?).
      match goal with |- context [delete_old p dir rest ?x] =>
        specialize (IH x) end.
      simpl in IH. destruct IH as ((?&?&?&?)&?&?&?).
      unfold steady. split_all; congruence.
    + match goal with |- context [delete_old p dir rest ?x] =>
        specialize (IH x) end.
      unfold log_Printf, steady in *. simpl in *. destruct IH as ((?&?&?&?)&?&?&?).
      split_all; congruence.
Qed.

Lemma cleanupOldLogs_frame p w :
  let w' := snd (cleanupOldLogs p w) in
  steady w w' /\ w_files w' = w_files w /\ w_heap w' = w_heap w
  /\ length (w_inodes w') = length (w_inodes w).
Proof.
  unfold cleanupOldLogs.
  destruct (w_heap w !! p) as [l|]; [|by unfold steady].
  destruct (ReadDir (logDir l) w) as [files|e]; [|by unfold steady].
  match goal with |- context [collect_old ?a ?b ?c ?d ?e ?f ?g] =>
    pose proof (collect_old_frame a b c d e f g) as HC;
    destruct (collect_old a b c d e f g) as [oldFiles w1] end.
  simpl in HC. destruct HC as ((?&?&?&?)&?&?&?&?&?&?).
  match goal with |- context [delete_old ?a ?b ?c ?d] =>
    pose proof (delete_old_frame a b c d) as HD end.
  simpl in *. destruct HD as ((?&?&?&?)&?&?&?).
  unfold steady. split_all; congruence.
Qed.

Lemma log_Printf_steady msg w : steady w (log_Printf msg w).
Proof. by unfold steady. Qed.

Lemma rotateAndCleanup_steady p w : steady w (rotateAndCleanup p w).
Proof.
  unfold rotateAndCleanup.
  pose proof (setupFileLogger_steady p w) as H1.
  destruct (setupFileLogger p w) as [r1 w1]. simpl in H1.
  set (w2 := match r1 with Ok _ => w1 | Err e => _ end).
  assert (steady w1 w2) as H2 by (subst w2; destruct r1; by unfold steady).
  pose proof (cleanupOldLogs_frame p w2) as (H3 & _).
  destruct (cleanupOldLogs p w2) as [r2 w3]. simpl in H3.
  destruct r2; repeat (eapply steady_trans; [eassumption|]);
    [apply steady_refl | apply log_Printf_steady].
Qed.

Lemma Close_steady p w : steady w (Close p w).
Proof.
  unfold Close. eapply steady_trans; [apply update_logger_frame|].
  apply close_current_frame.
Qed.

(* ===================================================================== *)
(** ** Opening the log file *)
(* ===================================================================== *)

Lemma set_currentFile_None_id l : currentFile l = None -> set_currentFile None l = l.
Proof. destruct l; simpl; by intros ->. Qed.

Lemma close_current_lookup p w l :
  w_heap w !! p = Some l ->
  w_heap (close_current p w) !! p = Some (set_currentFile None l).
Proof.
  intros Hl. unfold close_current. rewrite Hl.
  destruct (currentFile l) as [h|] eqn:Hc.
  - pose proof (File_Close_frame h w) as HF.
    destruct (File_Close h w) as [r w1]. simpl in HF.
    apply update_logger_lookup. destruct r; simpl; [|unfold log_Printf; simpl];
      destruct HF as (_&_&_&_&_&_&->&_); done.
  - by rewrite set_currentFile_None_id.
Qed.

Lemma close_current_lookup_ne p q w :
  p <> q -> w_heap (close_current p w) !! q = w_heap w !! q.
Proof.
  intros Hne. unfold close_current. repeat case_match; try done.
  all: rewrite update_logger_lookup_ne by done.
  all: match goal with H : File_Close ?h ?w0 = _ |- _ =>
         pose proof (File_Close_frame h w0) as HF; rewrite H in HF end.
  all: simpl in HF; destruct HF as (_&_&_&_&_&_&HF&_).
  all: unfold log_Printf; simpl; by rewrite HF.
Qed.

(** What a successful [OpenFile] does: a new open handle, on the inode the
    name had, or on a new empty inode entered under the name. *)
Lemma OpenFile_ok dir name w h w' :
  OpenFile dir name w = (Ok h, w') ->
  h = length (w_files w)
  /\ exists ino,
      w_files w' = w_files w ++ [{| of_ino := ino; of_closed := false |}]
      /\ ((lookup_name dir name w = Some ino /\ w_inodes w' = w_inodes w
           /\ w_dirs w' = w_dirs w
           /\ exists i, w_inodes w !! ino = Some i /\ i_isDir i = false)
          \/ (lookup_name dir name w = None /\ ino = length (w_inodes w)
              /\ w_inodes w' = w_inodes w ++
                   [{| i_isDir := false; i_mtime := w_now w; i_data := [] |}]
              /\ exists ents, w_dirs w !! dir = Some ents
                   /\ w_dirs w' = <[dir := insert_entry (name, ino) ents]> (w_dirs w))).
Proof.
  unfold OpenFile, lookup_name. intros H.
  destruct (open_err (w_env w) (Join dir name)); [done|].
  destruct (w_dirs w !! dir) as [ents|] eqn:Hd; [|done].
  destruct (find_entry name ents) as [ino|] eqn:Hf.
  - destruct (w_inodes w !! ino) as [i|] eqn:Hi; [|done].
    destruct (i_isDir i) eqn:Hdir; [done|]. simplify_eq. simpl.
    split; [done|]. exists ino. split; [done|]. left. eauto 10.
  - simplify_eq. simpl. split; [done|]. eexists. split; [done|]. right. eauto 10.
Qed.

Lemma OpenFile_err dir name w e w' : OpenFile dir name w = (Err e, w') -> w' = w.
Proof. unfold OpenFile. intros H. by repeat case_match; simplify_eq. Qed.

Lemma OpenFile_inodes_length dir name w :
  (length (w_inodes w) <= length (w_inodes (snd (OpenFile dir name w))))%nat.
Proof.
  unfold OpenFile. repeat case_match; simpl; try lia. rewrite length_app. simpl. lia.
Qed.

Lemma find_entry_insert_entry name ino ents :
  find_entry name ents = None ->
  find_entry name (insert_entry (name, ino) ents) = Some ino.
Proof.
  induction ents as [|[n i] rest IH]; simpl.
  - by rewrite String.eqb_refl.
  - destruct (String.eqb n name) eqn:E; [done|]. intros H.
    destruct (String.leb name n); simpl.
    + by rewrite String.eqb_refl.
    + rewrite E. auto.
Qed.

Lemma find_entry_insert_entry_ne name n ino ents :
  n <> name ->
  find_entry n (insert_entry (name, ino) ents) = find_entry n ents.
Proof.
  intros Hne. induction ents as [|[n' i] rest IH]; simpl.
  - by apply String.eqb_neq in Hne; rewrite String.eqb_sym, Hne.
  - destruct (String.leb name n'); simpl.
    + assert (String.eqb name n = false) as -> by (apply String.eqb_neq; congruence).
      done.
    + by rewrite IH.
Qed.

Lemma log_filename_steady prefix w w' :
  steady w w' -> log_filename prefix w' = log_filename prefix w.
Proof. intros (He & Hn & _). unfold log_filename. by rewrite He, Hn. Qed.

(** A successful [setupFileLogger] leaves the logger with an open handle as
    [currentFile], and [logger] writing to that handle. *)
Lemma setupFileLogger_ok p w l w' :
  w_heap w !! p = Some l ->
  setupFileLogger p w = (Ok tt, w') ->
  exists h ino,
    w_heap w' !! p = Some (set_logger (Some (FileW h)) (set_currentFile (Some h) l))
    /\ w_files w' !! h = Some {| of_ino := ino; of_closed := false |}
    /\ is_Some (w_inodes w' !! ino)
    /\ lookup_name (logDir l) (log_filename (filePrefix l) w) w' = Some ino.
Proof.
  intros Hl. unfold setupFileLogger. rewrite Hl.
  pose proof (close_current_lookup p w l Hl) as Hl1.
  pose proof (close_current_frame p w) as (Hst & _).
  set (w1 := close_current p w) in *.
  rewrite (log_filename_steady _ _ _ Hst).
  set (name := log_filename (filePrefix l) w).
  destruct (OpenFile (logDir l) name w1) as [[file|e] w2] eqn:HO; [|done].
  intros Heq. simplify_eq.
  pose proof (OpenFile_frame (logDir l) name w1) as HF. rewrite HO in HF.
  simpl in HF. destruct HF as (_&_&_&_&Hheap).
  apply OpenFile_ok in HO as (-> & ino & Hfiles & Hcase).
  set (f := fun l' => set_logger _ (set_currentFile _ l')).
  pose proof (update_logger_frame p f w2) as HU. simpl in HU.
  destruct HU as (_ & Hd & Hi & Hfl & _).
  exists (length (w_files w1)), ino. split_all.
  - rewrite (update_logger_lookup p f (set_currentFile None l) w2)
      by (by rewrite Hheap).
    reflexivity.
  - rewrite Hfl, Hfiles. rewrite lookup_app_r by lia.
    by rewrite Nat.sub_diag.
  - rewrite Hi. destruct Hcase as [(_ & -> & _ & i & Hi' & _) | (_ & -> & -> & _)].
    + eauto.
    + rewrite lookup_app_r by lia. rewrite Nat.sub_diag. eauto.
  - unfold lookup_name in *. rewrite Hd.
    destruct Hcase as [(Hn & _ & -> & _) | (Hn & _ & _ & ents & Hents & ->)].
    + done.
    + rewrite lookup_insert_eq. apply find_entry_insert_entry.
      by rewrite Hents in Hn.
Qed.

(* ===================================================================== *)
(** ** Construction *)
(* ===================================================================== *)

Lemma OpenFile_ext dir name w w' :
  w_env w = w_env w' -> w_now w = w_now w' -> w_dirs w = w_dirs w' ->
  w_inodes w = w_inodes w' ->
  is_err (fst (OpenFile dir name w)) = is_err (fst (OpenFile dir name w'))
  /\ w_env (snd (OpenFile dir name w)) = w_env (snd (OpenFile dir name w'))
  /\ w_dirs (snd (OpenFile dir name w)) = w_dirs (snd (OpenFile dir name w')).
Proof.
  intros He Hn Hd Hi. unfold OpenFile. rewrite He, Hd, Hi.
  repeat case_match; simpl; split_all; try done; by rewrite ?He, ?Hd.
Qed.

Lemma ReadDir_ext dir w w' :
  w_env w = w_env w' -> w_dirs w = w_dirs w' -> ReadDir dir w = ReadDir dir w'.
Proof. intros He Hd. unfold ReadDir. by rewrite He, Hd. Qed.

Lemma setupFileLogger_fresh p w l :
  w_heap w !! p = Some l -> currentFile l = None ->
  setupFileLogger p w =
  match OpenFile (logDir l) (log_filename (filePrefix l) w) w with
  | (Err e, w2) => (Err ("failed to open log file: " +:+ e), w2)
  | (Ok file, w2) =>
      (Ok tt,
       update_logger p
         (fun l' => set_logger (Some (FileW file)) (set_currentFile (Some file) l'))
         w2)
  end.
Proof.
  intros Hl Hc. unfold setupFileLogger, close_current. by rewrite Hl, Hc.
Qed.

Lemma cleanupOldLogs_is_err p w l :
  w_heap w !! p = Some l ->
  is_err (fst (cleanupOldLogs p w)) = is_err (ReadDir (logDir l) w).
Proof.
  intros Hl. unfold cleanupOldLogs. rewrite Hl.
  destruct (ReadDir (logDir l) w); [|done].
  by destruct (collect_old _ _ _ _ _ _ _).
Qed.

Lemma effective_type_console_not_file t :
  String.eqb t "console" = true -> String.eqb t "file" = false.
Proof. intros H. apply String.eqb_eq in H. by subst. Qed.

Lemma MkdirAll_frame dir w :
  let w' := snd (MkdirAll dir w) in
  steady w w' /\ w_inodes w' = w_inodes w /\ w_files w' = w_files w
  /\ w_unlinked w' = w_unlinked w /\ w_stdout w' = w_stdout w
  /\ w_stderr w' = w_stderr w /\ w_heap w' = w_heap w.
Proof. unfold MkdirAll, steady. by repeat case_match. Qed.

Lemma active_sink_ext p w w' :
  w_heap w' !! p = w_heap w !! p -> w_files w' = w_files w ->
  length (w_inodes w') = length (w_inodes w) ->
  is_Some (active_sink p w) -> is_Some (active_sink p w').
Proof.
  intros Hh Hf Hi. unfold active_sink. rewrite Hh, Hf.
  destruct (w_heap w !! p) as [l|]; [|done].
  destruct (logger l) as [[|h]|]; try done.
  destruct (w_files w !! h) as [f|]; [|done].
  destruct (of_closed f); [done|].
  destruct (w_inodes w !! of_ino f) eqn:E; [|by intros [? ?]].
  apply lookup_lt_Some in E. rewrite <- Hi in E.
  apply lookup_lt_is_Some in E as [i' ->]. eauto.
Qed.

(** The two outcomes of [InitGlobalLogger] when no singleton exists. *)
Lemma InitGlobalLogger_new config w :
  globalLogger w = None ->
  match InitGlobalLogger config w with
  | (Err _, w') => init_fails config w = true /\ globalLogger w' = None
  | (Ok p, w') =>
      init_fails config w = false /\ p = length (w_heap w)
      /\ globalLogger w' = Some p
      /\ (exists l, w_heap w' !! p = Some l /\ reflects config l)
      /\ is_Some (active_sink p w')
      /\ (forall q, (q < p)%nat -> w_heap w' !! q = w_heap w !! q)
  end.
Proof.
  intros Hg. unfold InitGlobalLogger, init_fails. rewrite Hg.
  fold (effective_type config). fold (effective_retention config).
  set (t := effective_type config).
  destruct (String.eqb t "console") eqn:Hc.
  - (* console *)
    rewrite (effective_type_console_not_file _ Hc). simpl.
    set (l0 := {| level := Level config |}).
    assert (w_heap (set_heap (w_heap w ++ [l0]) w) !! length (w_heap w) = Some l0) as Hl0.
    { simpl. rewrite lookup_app_r by lia. by rewrite Nat.sub_diag. }
    split_all; try done.
    + exists (set_logger (Some Stdout) l0). split; [|done].
      by apply update_logger_lookup.
    + unfold active_sink. simpl.
      erewrite update_logger_lookup by exact Hl0. simpl. eauto.
    + intros q Hq. simpl. rewrite update_logger_lookup_ne by lia.
      simpl. by rewrite lookup_app_l.
  - destruct (String.eqb t "file") eqn:Hf; simpl; [|done].
    (* file *)
    unfold validate_file_config, mkdir_fails, open_fails, listing_fails.
    destruct (String.eqb (LogDir config) ""); [done|].
    destruct (String.eqb (FilePrefix config) ""); [done|]. simpl.
    pose proof (MkdirAll_frame (LogDir config) w) as HM.
    destruct (MkdirAll (LogDir config) w) as [[[]|e] w1];
      [|simpl in *; destruct HM as ((_&_&HM&_)&_); by rewrite HM].
    simpl in HM. destruct HM as (Hst1 & Hi1 & Hf1 & _ & _ & _ & Hh1). simpl.
    set (l0 := {| level := Level config |}).
    set (w2 := set_heap (w_heap w1 ++ [l0]) w1).
    set (p := length (w_heap w1)).
    assert (w_heap w2 !! p = Some l0) as Hl0.
    { subst w2 p. simpl. rewrite lookup_app_r by lia. by rewrite Nat.sub_diag. }
    rewrite (setupFileLogger_fresh p w2 l0 Hl0 eq_refl).
    assert (log_filename (filePrefix l0) w2 = log_filename (FilePrefix config) w) as ->.
    { unfold log_filename. simpl. destruct Hst1 as (-> & -> & _). done. }
    set (name := log_filename (FilePrefix config) w).
    destruct (OpenFile_ext (LogDir config) name w2 w1) as (HE1 & HE2 & HE3);
      try done.
    change (logDir l0) with (LogDir config).
    rewrite <- HE1.
    pose proof (OpenFile_frame (LogDir config) name w2) as HO.
    destruct (OpenFile (LogDir config) name w2) as [[file|e] w3] eqn:HOpen;
      simpl in HO; destruct HO as (Hst3 & _ & _ & _ & Hh3); simpl.
    + (* the file is open *)
      set (f := fun l' => set_logger _ (set_currentFile _ l')).
      pose proof (update_logger_frame p f w3) as HU. simpl in HU.
      destruct HU as (Hst4 & Hd4 & Hi4 & Hf4 & _).
      pose proof (update_logger_lookup p f l0 w3) as Hl4.
      rewrite Hh3 in Hl4. specialize (Hl4 Hl0).
      set (w4 := update_logger p f w3) in *.
      set (w5 := scheduleDailyTasks p w4).
      assert (w_heap w5 !! p = Some (f l0)) as Hl5 by done.
      pose proof (cleanupOldLogs_is_err p w5 (f l0) Hl5) as Herr.
      assert (ReadDir (logDir (f l0)) w5
              = ReadDir (LogDir config) (snd (OpenFile (LogDir config) name w1))) as HR.
      { apply ReadDir_ext; simpl.
        - destruct Hst4 as (-> & _). by rewrite <- HE2.
        - by rewrite Hd4, <- HE3. }
      rewrite HR in Herr. rewrite <- Herr.
      pose proof (cleanupOldLogs_frame p w5) as HC.
      destruct (cleanupOldLogs p w5) as [[[]|e] w6]; simpl in HC |- *;
        destruct HC as (Hst6 & Hf6 & Hh6 & Hi6).
      * split_all; try done.
        -- unfold p. by rewrite Hh1.
        -- exists (f l0). split; [by rewrite Hh6|done].
        -- apply (active_sink_ext p w5); simpl; try done; [by rewrite Hh6|].
           apply OpenFile_ok in HOpen as (-> & ino & Hfiles & Hcase).
           unfold active_sink. simpl. fold w4. rewrite Hl4. simpl.
           rewrite Hf4, Hfiles. rewrite lookup_app_r by (simpl; lia).
           rewrite Nat.sub_diag. simpl. rewrite Hi4.
           destruct Hcase as [(_ & -> & _ & i & -> & _) | (_ & -> & -> & _)];
             [eauto|].
           rewrite lookup_app_r by (simpl; lia). rewrite Nat.sub_diag. simpl. eauto.
        -- intros q Hq. simpl. rewrite Hh6. simpl. subst w4.
           rewrite update_logger_lookup_ne by lia. rewrite Hh3. simpl.
           rewrite lookup_app_l by lia. by rewrite Hh1.
      * split; [done|].
        pose proof (update_logger_frame p (set_ctx_done true) w6) as ((_&_&->&_)&_).
        destruct Hst6 as (_&_&->&_). simpl.
        destruct Hst4 as (_&_&->&_). destruct Hst3 as (_&_&->&_). simpl.
        destruct Hst1 as (_&_&->&_). done.
    + (* the file cannot be opened *)
      split; [done|].
      pose proof (update_logger_frame p (set_ctx_done true) w3) as ((_&_&->&_)&_).
      destruct Hst3 as (_&_&->&_). simpl. destruct Hst1 as (_&_&->&_). done.
Qed.

(* ===================================================================== *)
(** ** Directory listings *)
(* ===================================================================== *)

Lemma find_entry_Some name ents ino :
  find_entry name ents = Some ino -> (name, ino) ∈ ents.
Proof.
  induction ents as [|[n i] rest IH]; simpl; [done|].
  destruct (String.eqb_spec n name) as [->|Hne].
  - intros [= ->]. apply elem_of_cons. by left.
  - intros H. apply elem_of_cons. right. auto.
Qed.

Lemma find_entry_None name ents :
  find_entry name ents = None <-> name ∉ ents.*1.
Proof.
  induction ents as [|[n i] rest IH]; simpl.
  - split; [intros _; apply not_elem_of_nil|done].
  - rewrite not_elem_of_cons. destruct (String.eqb_spec n name) as [->|Hne].
    + split; [done|]. by intros [? _].
    + rewrite IH. split; [|tauto]. intros H. split; [congruence|done].
Qed.

Lemma find_entry_is_Some name ino ents :
  (name, ino) ∈ ents -> is_Some (find_entry name ents).
Proof.
  intros H. destruct (find_entry name ents) eqn:E; [eauto|].
  apply find_entry_None in E. destruct E.
  apply list_elem_of_fmap. by exists (name, ino).
Qed.

Lemma remove_entry_subset name ents e : e ∈ remove_entry name ents -> e ∈ ents.
Proof.
  induction ents as [|[n i] rest IH]; simpl; [done|].
  destruct (String.eqb n name).
  - intros H. apply elem_of_cons. by right.
  - rewrite !elem_of_cons. intros [->|H]; auto.
Qed.

Lemma remove_entry_keeps name ents n i :
  (n, i) ∈ ents -> n <> name -> (n, i) ∈ remove_entry name ents.
Proof.
  intros H Hne. induction ents as [|[n' i'] rest IH]; simpl; [done|].
  apply elem_of_cons in H as [[= <- <-]|H].
  - destruct (String.eqb_spec n name); [done|]. apply elem_of_cons. by left.
  - destruct (String.eqb n' name); [done|]. apply elem_of_cons. right. auto.
Qed.

Lemma remove_entry_names_subset name ents n :
  n ∈ (remove_entry name ents).*1 -> n ∈ ents.*1.
Proof.
  rewrite !list_elem_of_fmap. intros (e & -> & He).
  exists e. split; [done|]. by eapply remove_entry_subset.
Qed.

Lemma remove_entry_NoDup name ents :
  NoDup ents.*1 -> NoDup (remove_entry name ents).*1.
Proof.
  induction ents as [|[n i] rest IH]; simpl; [done|].
  rewrite NoDup_cons. intros [Hn Hr].
  destruct (String.eqb n name); [done|]. simpl.
  apply NoDup_cons. split; [|auto].
  intros H. apply Hn. by eapply remove_entry_names_subset.
Qed.

Lemma remove_entry_gone name ents :
  NoDup ents.*1 -> name ∉ (remove_entry name ents).*1.
Proof.
  induction ents as [|[n i] rest IH]; simpl.
  - intros _. apply not_elem_of_nil.
  - rewrite NoDup_cons. intros [Hn Hr].
    destruct (String.eqb_spec n name) as [->|Hne]; [done|]. simpl.
    apply not_elem_of_cons. split; [congruence|auto].
Qed.

Lemma lookup_name_listing dir name w :
  lookup_name dir name w = find_entry name (listing dir w).
Proof. unfold lookup_name, listing. by destruct (w_dirs w !! dir). Qed.

(* ===================================================================== *)
(** ** The two loops of the cleanup *)
(* ===================================================================== *)

(** The test of the first loop on one entry. *)
Definition old_enough (dir prefix suffix : string) (cutoffTime : Z) (w : World)
    (e : string * nat) : bool :=
  negb (IsDir e w)
  && (HasPrefix (fst e) prefix && HasSuffix (fst e) suffix)
  && match Info_ModTime dir e w with
     | Ok modTime => modTime <? cutoffTime
     | Err _ => false
     end.

Lemma expired_old_enough l w :
  expired l w = old_enough (logDir l) (filePrefix l +:+ "_") ".log" (cutoff l w) w.
Proof. reflexivity. Qed.

Lemma collect_old_names dir prefix suffix cutoffTime files acc w :
  fst (collect_old dir prefix suffix cutoffTime files acc w)
  = acc ++ (List.filter (old_enough dir prefix suffix cutoffTime w) files).*1.
Proof.
  revert acc w. induction files as [|file rest IH]; intros acc w; simpl.
  - by rewrite app_nil_r.
  - unfold old_enough at 1. destruct (IsDir file w); simpl; [apply IH|].
    destruct (HasPrefix (fst file) prefix && HasSuffix (fst file) suffix); simpl;
      [|apply IH].
    destruct (Info_ModTime dir file w) as [modTime|e]; simpl.
    + destruct (modTime <? cutoffTime); simpl; [|apply IH].
      rewrite IH. by rewrite <- app_assoc.
    + rewrite IH. reflexivity.
Qed.

Lemma Remove_ok dir name w w' :
  Remove dir name w = (Ok tt, w') ->
  w_dirs w' = <[dir := remove_entry name (listing dir w)]> (w_dirs w)
  /\ listing dir w' = remove_entry name (listing dir w)
  /\ w_unlinked w' = w_unlinked w ++ [Join dir name]
  /\ is_Some (lookup_name dir name w).
Proof.
  unfold Remove, listing, lookup_name. intros H.
  destruct (remove_err (w_env w) (Join dir name)); [done|].
  destruct (w_dirs w !! dir) as [ents|] eqn:Hd; [|done].
  destruct (find_entry name ents) eqn:Hf; [|done].
  simplify_eq. simpl. rewrite lookup_insert_eq. eauto.
Qed.

Lemma Remove_err dir name w e w' : Remove dir name w = (Err e, w') -> w' = w.
Proof. unfold Remove. intros H. by repeat case_match; simplify_eq. Qed.

Lemma Remove_err_cases dir name w e w' :
  Remove dir name w = (Err e, w') ->
  remove_err (w_env w) (Join dir name) = true \/ lookup_name dir name w = None.
Proof.
  unfold Remove, lookup_name. intros H.
  destruct (remove_err (w_env w) (Join dir name)); [by left|right].
  destruct (w_dirs w !! dir); [|done]. by destruct (find_entry name l).
Qed.

Lemma Remove_succeeds dir name w :
  remove_err (w_env w) (Join dir name) = false ->
  is_Some (lookup_name dir name w) ->
  exists w', Remove dir name w = (Ok tt, w').
Proof.
  unfold Remove, lookup_name. intros -> [ino H].
  destruct (w_dirs w !! dir); [|done]. rewrite H. eauto.
Qed.

Lemma listing_ext dir w w' : w_dirs w' = w_dirs w -> listing dir w' = listing dir w.
Proof. unfold listing. by intros ->. Qed.

(** The directory after the last loop: other directories are as before; in
    the log directory nothing appears, the names outside the list stay,
    and a listed name whose removal is not refused is gone. *)
Lemma delete_old_dirs p dir names w :
  let w' := delete_old p dir names w in
  (forall d, d <> dir -> w_dirs w' !! d = w_dirs w !! d)
  /\ (forall e, e ∈ listing dir w' -> e ∈ listing dir w)
  /\ (forall n i, (n, i) ∈ listing dir w -> n ∉ names -> (n, i) ∈ listing dir w')
  /\ (NoDup (listing dir w).*1 ->
      forall n, n ∈ names -> remove_err (w_env w) (Join dir n) = false ->
                lookup_name dir n w' = None).
Proof.
  revert w. induction names as [|name rest IH]; intros w; simpl.
  - split_all; try done. intros _ n Hn. by apply elem_of_nil in Hn.
  - destruct (Remove dir name w) as [[[]|e] w1] eqn:HR.
    + pose proof (Remove_frame dir name w) as HF. rewrite HR in HF.
      simpl in HF. destruct HF as ((He1 & _) & _).
      apply Remove_ok in HR as (Hd1 & Hl1 & _ & _).
      set (w2 := log p "INFO" _ w1).
      pose proof (log_frame p "INFO" ("Deleted old log file: " +:+ Join dir name) w1) as HL.
      fold w2 in HL. simpl in HL. destruct HL as ((He2 & _) & Hd2 & _).
      specialize (IH w2). simpl in IH. destruct IH as (IH1 & IH2 & IH3 & IH4).
      assert (listing dir w2 = remove_entry name (listing dir w)) as Hl2
        by (by rewrite (listing_ext dir w1 w2 Hd2)).
      assert (w_env w2 = w_env w) as Hee by congruence.
      split_all.
      * intros d Hne. rewrite IH1 by done. rewrite Hd2, Hd1.
        by rewrite lookup_insert_ne.
      * intros e He. apply IH2 in He. rewrite Hl2 in He.
        by eapply remove_entry_subset.
      * intros n i Hin Hn. apply not_elem_of_cons in Hn as [Hne Hn].
        apply IH3; [|done]. rewrite Hl2. by apply remove_entry_keeps.
      * intros Hnd n Hn Herr. apply elem_of_cons in Hn.
        destruct (decide (n = name)) as [->|Hne].
        -- rewrite lookup_name_listing. apply find_entry_None.
           intros Hin. apply list_elem_of_fmap in Hin as ([n' i] & Heq & Hin).
           simpl in Heq. subst n'. apply IH2 in Hin. rewrite Hl2 in Hin.
           apply (remove_entry_gone name (listing dir w) Hnd).
           apply list_elem_of_fmap. by exists (name, i).
        -- destruct Hn as [?|Hn]; [done|].
           apply IH4; [|done|by rewrite Hee].
           rewrite Hl2. by apply remove_entry_NoDup.
    + pose proof (Remove_err_cases _ _ _ _ _ HR) as Hwhy.
      apply Remove_err in HR as ->.
      set (w2 := log_Printf _ w).
      specialize (IH w2). simpl in IH. destruct IH as (IH1 & IH2 & IH3 & IH4).
      split_all; try done.
      * intros n i Hin Hn. apply not_elem_of_cons in Hn as [Hne Hn]. by apply IH3.
      * intros Hnd n Hn Herr. apply elem_of_cons in Hn.
        destruct (decide (n = name)) as [->|Hne].
        -- rewrite lookup_name_listing. apply find_entry_None.
           intros Hin. apply list_elem_of_fmap in Hin as ([n' i] & Heq & Hin).
           simpl in Heq. subst n'. apply IH2 in Hin.
           destruct Hwhy as [Hwhy|Hwhy]; [congruence|].
           rewrite lookup_name_listing in Hwhy. apply find_entry_None in Hwhy.
           apply Hwhy. apply list_elem_of_fmap. by exists (name, i).
        -- destruct Hn as [?|Hn]; [done|]. by apply IH4.
Qed.

Lemma find_entry_remove_entry_ne name n ents :
  n <> name -> find_entry n (remove_entry name ents) = find_entry n ents.
Proof.
  intros Hne. induction ents as [|[n' i] rest IH]; simpl; [done|].
  destruct (String.eqb_spec n' name) as [->|Hne'].
  - destruct (String.eqb_spec name n); [congruence|done].
  - simpl. by rewrite IH.
Qed.

(** The removals of the last loop, in order: a subsequence of the list,
    and the whole list when every name is there and no removal is refused. *)
Lemma delete_old_unlinked p dir names w :
  exists removed,
    w_unlinked (delete_old p dir names w) = w_unlinked w ++ (Join dir <$> removed)
    /\ removed `sublist_of` names
    /\ (NoDup names ->
        (forall n, n ∈ names ->
           remove_err (w_env w) (Join dir n) = false
           /\ is_Some (lookup_name dir n w)) ->
        removed = names).
Proof.
  revert w. induction names as [|name rest IH]; intros w; simpl.
  - exists []. split_all; [by rewrite app_nil_r|constructor|done].
  - destruct (Remove dir name w) as [[[]|e] w1] eqn:HR.
    + pose proof (Remove_frame dir name w) as HF. rewrite HR in HF.
      simpl in HF. destruct HF as ((He1 & _) & _).
      apply Remove_ok in HR as (Hd1 & Hl1 & Hu1 & _).
      set (w2 := log p "INFO" _ w1).
      pose proof (log_frame p "INFO" ("Deleted old log file: " +:+ Join dir name) w1) as HL.
      fold w2 in HL. simpl in HL. destruct HL as ((He2 & _) & Hd2 & _ & Hu2 & _).
      destruct (IH w2) as (removed & Hun & Hsub & Hall).
      exists (name :: removed). split_all.
      * rewrite Hun, Hu2, Hu1. simpl. by rewrite <- app_assoc.
      * by constructor.
      * intros Hnd Hok. apply NoDup_cons in Hnd as [Hnotin Hnd].
        f_equal. apply Hall; [done|]. intros n Hn.
        destruct (Hok n) as [Herr Hsome]; [apply elem_of_cons; by right|].
        split; [congruence|].
        rewrite lookup_name_listing, (listing_ext dir w1 w2 Hd2), Hl1.
        rewrite find_entry_remove_entry_ne by (intros ->; done).
        by rewrite <- lookup_name_listing.
    + destruct (IH (log_Printf ("Warning: failed to delete old log file "
                                +:+ Join dir name +:+ ": " +:+ e) w1))
        as (removed & Hun & Hsub & Hall).
      pose proof (Remove_err _ _ _ _ _ HR) as ->.
      exists removed. split_all; [done|by constructor|].
      intros Hnd Hok.
      destruct (Hok name) as [Herr Hsome]; [apply elem_of_cons; by left|].
      destruct (Remove_succeeds dir name w Herr Hsome) as (w' & Hw'). congruence.
Qed.

(* ===================================================================== *)
(** ** Inodes only grow *)
(* ===================================================================== *)

(** The same kind of file, with the old lines still at the front. *)
Definition grows (i i' : Inode) : Prop :=
  i_isDir i' = i_isDir i /\ i_data i `prefix_of` i_data i'.

Lemma grows_refl i : grows i i.
Proof. by split. Qed.

Lemma grows_trans i1 i2 i3 : grows i1 i2 -> grows i2 i3 -> grows i1 i3.
Proof. intros [H1 H2] [H3 H4]. split; [congruence|by etrans]. Qed.

(** Every old inode is still there, grown. *)
Definition append_only (w w' : World) : Prop :=
  forall ino i, w_inodes w !! ino = Some i ->
                exists i', w_inodes w' !! ino = Some i' /\ grows i i'.

Lemma append_only_refl w : append_only w w.
Proof. intros ino i H. exists i. split; [done|apply grows_refl]. Qed.

Lemma append_only_trans w1 w2 w3 :
  append_only w1 w2 -> append_only w2 w3 -> append_only w1 w3.
Proof.
  intros H1 H2 ino i Hi. destruct (H1 ino i Hi) as (i2 & Hi2 & Hg2).
  destruct (H2 ino i2 Hi2) as (i3 & Hi3 & Hg3).
  exists i3. split; [done|by eapply grows_trans].
Qed.

Lemma append_only_same w w' : w_inodes w' = w_inodes w -> append_only w w'.
Proof. intros H ino i Hi. exists i. rewrite H. split; [done|apply grows_refl]. Qed.

Lemma File_Write_append_only h ln w : append_only w (snd (File_Write h ln w)).
Proof.
  unfold File_Write. repeat case_match; simpl; try apply append_only_refl.
  intros ino i' Hi'. simpl. destruct (decide (ino = of_ino o)) as [->|Hne].
  - simplify_eq. eexists. split.
    + apply list_lookup_insert_eq. by eapply lookup_lt_Some.
    + split; [done|]. simpl. by apply prefix_app_r.
  - exists i'. rewrite list_lookup_insert_ne by done. split; [done|apply grows_refl].
Qed.

Lemma log_append_only p tag msg w : append_only w (log p tag msg w).
Proof.
  unfold log, Output. repeat case_match; try apply append_only_refl.
  - by apply append_only_same.
  - apply File_Write_append_only.
Qed.

Lemma OpenFile_append_only dir name w : append_only w (snd (OpenFile dir name w)).
Proof.
  unfold OpenFile. repeat case_match; simpl; try apply append_only_refl.
  - by apply append_only_same.
  - intros ino j Hj. exists j. split; [|apply grows_refl].
    simpl. by apply lookup_app_l_Some.
Qed.

Lemma delete_old_append_only p dir names w : append_only w (delete_old p dir names w).
Proof.
  revert w. induction names as [|name rest IH]; intros w; simpl.
  - apply append_only_refl.
  - pose proof (Remove_frame dir name w) as HF.
    destruct (Remove dir name w) as [[[]|e] w1]; simpl in HF;
      destruct HF as (_ & Hi & _).
    + eapply append_only_trans; [|apply IH].
      eapply append_only_trans; [by apply append_only_same|apply log_append_only].
    + eapply append_only_trans; [|apply IH]. by apply append_only_same.
Qed.

Lemma cleanupOldLogs_append_only p w : append_only w (snd (cleanupOldLogs p w)).
Proof.
  unfold cleanupOldLogs.
  destruct (w_heap w !! p) as [l|]; [|apply append_only_refl].
  destruct (ReadDir (logDir l) w) as [files|e]; [|apply append_only_refl].
  match goal with |- context [collect_old ?a ?b ?c ?d ?e ?f ?g] =>
    pose proof (collect_old_frame a b c d e f g) as HC;
    destruct (collect_old a b c d e f g) as [oldFiles w1] end.
  simpl in HC. destruct HC as (_ & _ & Hi & _). simpl.
  eapply append_only_trans; [by apply append_only_same|apply delete_old_append_only].
Qed.

Lemma setupFileLogger_append_only p w : append_only w (snd (setupFileLogger p w)).
Proof.
  unfold setupFileLogger. destruct (w_heap w !! p) as [l|]; [|apply append_only_refl].
  pose proof (close_current_frame p w) as (_ & _ & Hi1 & _).
  set (w1 := close_current p w) in *.
  pose proof (OpenFile_append_only (logDir l) (log_filename (filePrefix l) w1) w1) as HO.
  destruct (OpenFile (logDir l) (log_filename (filePrefix l) w1) w1) as [[file|e] w2];
    simpl in *.
  - eapply append_only_trans; [by apply append_only_same|].
    eapply append_only_trans; [exact HO|].
    apply append_only_same. apply update_logger_frame.
  - eapply append_only_trans; [by apply append_only_same|exact HO].
Qed.

Lemma rotateAndCleanup_append_only p w : append_only w (rotateAndCleanup p w).
Proof.
  unfold rotateAndCleanup.
  pose proof (setupFileLogger_append_only p w) as H1.
  destruct (setupFileLogger p w) as [r1 w1]. simpl in H1.
  set (w2 := match r1 with Ok _ => w1 | Err e => _ end).
  assert (append_only w1 w2) as H2
    by (subst w2; destruct r1; by apply append_only_same).
  pose proof (cleanupOldLogs_append_only p w2) as H3.
  destruct (cleanupOldLogs p w2) as [r2 w3]. simpl in H3.
  eapply append_only_trans; [exact H1|]. eapply append_only_trans; [exact H2|].
  eapply append_only_trans; [exact H3|]. destruct r2; by apply append_only_same.
Qed.

(* ===================================================================== *)
(** ** One run of [cleanupOldLogs] *)
(* ===================================================================== *)

Lemma ReadDir_Ok dir w files :
  ReadDir dir w = Ok files ->
  listing dir w = files /\ readdir_err (w_env w) dir = false.
Proof.
  unfold ReadDir, listing. destruct (readdir_err (w_env w) dir); [done|].
  destruct (w_dirs w !! dir); [|done]. by intros [= ->].
Qed.

Lemma ReadDir_listing dir w e :
  readdir_err (w_env w) dir = false -> e ∈ listing dir w ->
  ReadDir dir w = Ok (listing dir w).
Proof.
  unfold ReadDir, listing. intros -> He.
  destruct (w_dirs w !! dir); [done|]. by apply elem_of_nil in He.
Qed.

(** The run as the two loops around the sort: the world [w1] between the
    loops differs from [w] by warnings on standard error only. *)
Lemma cleanupOldLogs_run p w l files :
  w_heap w !! p = Some l ->
  ReadDir (logDir l) w = Ok files ->
  exists w1,
    snd (cleanupOldLogs p w)
    = delete_old p (logDir l)
        (sort_slice (env_sort (w_env w)) (older (logDir l) w1)
           (List.filter (expired l w) files).*1) w1
    /\ steady w w1 /\ w_dirs w1 = w_dirs w /\ w_inodes w1 = w_inodes w
    /\ w_files w1 = w_files w /\ w_unlinked w1 = w_unlinked w
    /\ w_heap w1 = w_heap w.
Proof.
  intros Hl Hr. unfold cleanupOldLogs. rewrite Hl, Hr.
  pose proof (collect_old_names (logDir l) (filePrefix l +:+ "_") ".log" (cutoff l w)
                files [] w) as Hn.
  pose proof (collect_old_frame (logDir l) (filePrefix l +:+ "_") ".log" (cutoff l w)
                files [] w) as HC.
  unfold cutoff in Hn, HC at 1.
  destruct (collect_old _ _ _ _ files [] w) as [oldFiles w1].
  simpl in *. destruct HC as (Hst & Hd & Hi & Hf & Hu & _ & Hh).
  exists w1. subst oldFiles. destruct Hst as (He & ?). rewrite He.
  split_all; try done.
Qed.

Lemma Stat_ModTime_ext dir name w w' :
  w_dirs w' = w_dirs w -> w_inodes w' = w_inodes w ->
  Stat_ModTime dir name w' = Stat_ModTime dir name w.
Proof. unfold Stat_ModTime. by intros -> ->. Qed.

Lemma older_strict_weak dir w : strict_weak (older dir w).
Proof.
  unfold strict_weak, older. split_all.
  - intros x. apply Z.ltb_irrefl.
  - intros x y z. rewrite !Z.ltb_lt. lia.
  - intros x y z. rewrite !Z.ltb_ge. lia.
Qed.

Lemma expired_names_elem l w files n :
  n ∈ (List.filter (expired l w) files).*1 <->
  exists ino, (n, ino) ∈ files /\ expired l w (n, ino) = true.
Proof.
  rewrite list_elem_of_fmap. split.
  - intros ([n' ino] & -> & He). apply list_elem_of_In, filter_In in He as [He Hx].
    exists ino. split; [by apply list_elem_of_In|done].
  - intros (ino & He & Hx). exists (n, ino). split; [done|].
    apply list_elem_of_In, filter_In. split; [by apply list_elem_of_In|done].
Qed.

Lemma filter_names_NoDup {A} (f : string * A -> bool) (l : list (string * A)) :
  NoDup l.*1 -> NoDup (List.filter f l).*1.
Proof.
  induction l as [|e r IH]; simpl; [done|].
  rewrite NoDup_cons. intros [Hn Hr].
  destruct (f e); simpl; [|auto].
  apply NoDup_cons. split; [|auto].
  intros H. apply Hn. apply list_elem_of_fmap in H as (e' & -> & He').
  apply list_elem_of_fmap. exists e'. split; [done|].
  apply list_elem_of_In, filter_In in He' as [He' _]. by apply list_elem_of_In.
Qed.

Lemma active_sink_eq p w w' :
  w_heap w' !! p = w_heap w !! p -> w_files w' = w_files w ->
  length (w_inodes w') = length (w_inodes w) ->
  active_sink p w' = active_sink p w.
Proof.
  intros Hh Hf Hi. unfold active_sink. rewrite Hh, Hf.
  destruct (w_heap w !! p) as [l|]; [|done].
  destruct (logger l) as [[|h]|]; try done.
  destruct (w_files w !! h) as [f|]; [|done].
  destruct (of_closed f); [done|].
  destruct (w_inodes w !! of_ino f) eqn:E.
  - apply lookup_lt_Some in E. rewrite <- Hi in E.
    by apply lookup_lt_is_Some in E as [i' ->].
  - apply lookup_ge_None in E. rewrite <- Hi in E.
    by apply lookup_ge_None in E as ->.
Qed.

(** [log] writes to the inode of the logger's sink and to no other. *)
Lemma log_inodes_other p tag msg w ino :
  active_sink p w <> Some (SinkFile ino) ->
  w_inodes (log p tag msg w) !! ino = w_inodes w !! ino.
Proof.
  unfold active_sink, log, Output, File_Write.
  destruct (w_heap w !! p) as [l|]; [|done].
  destruct (logger l) as [[|h]|]; try done.
  destruct (w_files w !! h) as [f|]; [|done].
  destruct (of_closed f); [done|].
  destruct (w_inodes w !! of_ino f) eqn:E; [|done].
  intros Hne. simpl. apply list_lookup_insert_ne. congruence.
Qed.

Lemma delete_old_inodes_other p dir names w ino :
  active_sink p w <> Some (SinkFile ino) ->
  w_inodes (delete_old p dir names w) !! ino = w_inodes w !! ino.
Proof.
  revert w. induction names as [|name rest IH]; intros w Hne; simpl; [done|].
  pose proof (Remove_frame dir name w) as HF.
  destruct (Remove dir name w) as [[[]|e] w1]; simpl in HF;
    destruct HF as (_ & Hi & Hf & _ & _ & Hh).
  - assert (active_sink p w1 = active_sink p w) as Hs1
      by (apply active_sink_eq; congruence).
    pose proof (log_frame p "INFO" ("Deleted old log file: " +:+ Join dir name) w1) as HL.
    simpl in HL. destruct HL as (_ & _ & Hf2 & _ & _ & Hh2 & Hi2).
    rewrite IH.
    + rewrite log_inodes_other by congruence. by rewrite Hi.
    + rewrite (active_sink_eq p w1) by congruence. congruence.
  - rewrite IH; [simpl; by rewrite Hi|].
    rewrite (active_sink_eq p w); [done|simpl; congruence..].
Qed.

Lemma names_unique {A} (l : list (string * A)) n i i' :
  NoDup l.*1 -> (n, i) ∈ l -> (n, i') ∈ l -> i = i'.
Proof.
  induction l as [|[n0 i0] r IH]; simpl.
  - intros _ H. by apply elem_of_nil in H.
  - rewrite NoDup_cons, !elem_of_cons. intros [Hn Hr] [H1|H1] [H2|H2].
    + congruence.
    + simplify_eq. destruct Hn. apply list_elem_of_fmap. by exists (n0, i').
    + simplify_eq. destruct Hn. apply list_elem_of_fmap. by exists (n0, i).
    + auto.
Qed.

Lemma StronglySorted_sublist {A} (R : A -> A -> Prop) (l1 l2 : list A) :
  l1 `sublist_of` l2 -> StronglySorted R l2 -> StronglySorted R l1.
Proof.
  induction 1 as [|x l1 l2 Hs IH|x l1 l2 Hs IH]; [done|..].
  - intros [Hf Hs2]%StronglySorted_cons. apply StronglySorted_cons. split; [|auto].
    apply Forall_forall. intros y Hy. rewrite Forall_forall in Hf.
    apply Hf. by eapply elem_of_sublist.
  - intros [_ Hs2]%StronglySorted_cons. auto.
Qed.

Lemma StronglySorted_weaken {A} (R R' : A -> A -> Prop) (l : list A) :
  (forall a b, R a b -> R' a b) -> StronglySorted R l -> StronglySorted R' l.
Proof.
  intros HR. induction 1 as [|x l Hs IH Hf]; constructor; [done|].
  eapply Forall_impl; [exact Hf|]. auto.
Qed.

(** The list handed to the last loop: the names of the expired entries of
    the listing, each once per entry, oldest first. *)
Lemma cleanupOldLogs_names p w l files :
  w_heap w !! p = Some l ->
  ReadDir (logDir l) w = Ok files ->
  exists names w1,
    snd (cleanupOldLogs p w) = delete_old p (logDir l) names w1
    /\ names ≡ₚ (List.filter (expired l w) files).*1
    /\ StronglySorted
         (fun a b => Stat_ModTime (logDir l) a w <= Stat_ModTime (logDir l) b w) names
    /\ names = sort_slice (env_sort (w_env w)) (older (logDir l) w1)
                 (List.filter (expired l w) files).*1
    /\ steady w w1 /\ w_dirs w1 = w_dirs w /\ w_inodes w1 = w_inodes w
    /\ w_files w1 = w_files w /\ w_unlinked w1 = w_unlinked w
    /\ w_heap w1 = w_heap w.
Proof.
  intros Hl Hr.
  destruct (cleanupOldLogs_run p w l files Hl Hr)
    as (w1 & Hrun & Hst & Hd & Hi & Hf & Hu & Hh).
  eexists _, w1. split; [exact Hrun|]. split_all; try done.
  - apply sort_slice_perm.
  - pose proof (sort_slice_sorted (env_sort (w_env w)) (older (logDir l) w1)
                  (older_strict_weak _ _) (List.filter (expired l w) files).*1) as HS.
    eapply StronglySorted_weaken; [|exact HS].
    intros a b. unfold older. rewrite Z.ltb_ge.
    by rewrite !(Stat_ModTime_ext _ _ w w1).
Qed.

(* ===================================================================== *)
(** ** The level filter *)
(* ===================================================================== *)

Lemma app_one_neq {A} (l : list A) (x : A) : l <> l ++ [x].
Proof.
  intros H. apply (f_equal length) in H. rewrite length_app in H. simpl in H. lia.
Qed.

Lemma log_emits p tag msg w l snk :
  w_heap w !! p = Some l -> active_sink p w = Some snk ->
  sink_output snk (log p tag msg w)
  = sink_output snk w ++ [{| ln_time := w_now w; ln_text := "[" +:+ tag +:+ "] " +:+ msg |}].
Proof.
  intros Hl. unfold active_sink, log. rewrite Hl.
  destruct (logger l) as [[|h]|]; [| |done].
  - intros [= <-]. done.
  - unfold Output, File_Write.
    destruct (w_files w !! h) as [f|]; [|done].
    destruct (of_closed f); [done|].
    destruct (w_inodes w !! of_ino f) as [i|] eqn:Hi; [|done].
    intros [= <-]. simpl. rewrite Hi.
    rewrite list_lookup_insert_eq by (by eapply lookup_lt_Some). done.
Qed.

Lemma sev_call_unfold s p msg w l :
  w_heap w !! p = Some l ->
  sev_call s p msg w
  = if level l >? sev_level s then w else log p (sev_tag s) msg w.
Proof. intros Hl. destruct s; simpl; unfold Debug, Info, Warn, Error; by rewrite Hl. Qed.

Lemma emitted_iff s p msg snk w l :
  w_heap w !! p = Some l -> active_sink p w = Some snk ->
  emitted s p msg snk w <-> level l <= sev_level s.
Proof.
  intros Hl Hs. unfold emitted. rewrite (sev_call_unfold _ _ _ _ _ Hl).
  destruct (Z.gtb_spec (level l) (sev_level s)) as [Hgt|Hle].
  - split; [|lia]. intros H. destruct (app_one_neq _ _ H).
  - split; [done|]. intros _. by apply (log_emits p (sev_tag s) msg w l).
Qed.

Lemma active_sink_SetLevel p v w : active_sink p (SetLevel p v w) = active_sink p w.
Proof.
  unfold active_sink, SetLevel.
  pose proof (update_logger_frame p (set_level v) w) as HU. simpl in HU.
  destruct HU as (_ & _ & -> & -> & _).
  destruct (w_heap w !! p) as [l|] eqn:Hl.
  - by rewrite (update_logger_lookup _ _ _ _ Hl).
  - unfold update_logger. by rewrite Hl; simpl; rewrite Hl.
Qed.

(** C1.  On a logger whose sink is usable, a call of severity S puts its
    message at the end of the sink if and only if S is at least the
    threshold the logger holds at the call; a call below the threshold
    changes nothing.  The threshold is the one of the latest [SetLevel], or
    of the configuration when the logger comes from the constructor. *)
Theorem C1_emitted_iff_severity_at_least_threshold :
  forall (w : World) (p : nat) (l : Logger) (snk : Sink),
    w_heap w !! p = Some l ->
    active_sink p w = Some snk ->
    forall (s : Severity) (msg : string),
      (emitted s p msg snk w <-> level l <= sev_level s)
      /\ (sev_level s < level l -> sev_call s p msg w = w)
      /\ (forall T : LogLevel,
            emitted s p msg snk (SetLevel p T w) <-> T <= sev_level s)
      /\ (forall config w0,
            globalLogger w0 = None ->
            InitGlobalLogger config w0 = (Ok p, w) ->
            emitted s p msg snk w <-> Level config <= sev_level s).
Proof.
  intros w p l snk Hl Hs s msg. split_all.
  - by apply emitted_iff.
  - intros Hlt. rewrite (sev_call_unfold _ _ _ _ _ Hl).
    destruct (Z.gtb_spec (level l) (sev_level s)); [done|lia].
  - intros T.
    apply (emitted_iff s p msg snk (SetLevel p T w) (set_level T l)).
    + by apply update_logger_lookup.
    + by rewrite active_sink_SetLevel.
  - intros config w0 Hg Hinit.
    pose proof (InitGlobalLogger_new config w0 Hg) as HN. rewrite Hinit in HN.
    destruct HN as (_ & _ & _ & (l' & Hl' & Hlev & _) & _).
    rewrite Hl in Hl'. simplify_eq. rewrite <- Hlev. by apply emitted_iff.
Qed.

Lemma C1_witness :
  w_heap file_world !! 0%nat
  = Some file_logger
  /\ active_sink 0 file_world = Some (SinkFile 3)
  /\ (emitted SevWarn 0 "disk almost full" (SinkFile 3) file_world
      <-> InfoLevel <= sev_level SevWarn)
  /\ (sev_level SevDebug < InfoLevel ->
      sev_call SevDebug 0 "not shown" file_world = file_world).
Proof.
  assert (w_heap file_world !! 0%nat
          = Some file_logger) as Hl by (vm_compute; reflexivity).
  assert (active_sink 0 file_world = Some (SinkFile 3)) as Hs by (vm_compute; reflexivity).
  pose proof (C1_emitted_iff_severity_at_least_threshold file_world 0 file_logger (SinkFile 3)
                Hl Hs SevWarn "disk almost full") as (Hwarn & _).
  pose proof (C1_emitted_iff_severity_at_least_threshold file_world 0 file_logger (SinkFile 3)
                Hl Hs SevDebug "not shown") as (_ & Hdebug & _).
  exact (conj Hl (conj Hs (conj Hwarn Hdebug))).
Defined.

(* ===================================================================== *)
(** ** The global registry *)
(* ===================================================================== *)

Lemma init_fails_iff config w :
  init_fails config w = true <->
  (effective_type config <> "console" /\ effective_type config <> "file")
  \/ (effective_type config = "file"
      /\ (LogDir config = "" \/ FilePrefix config = ""
          \/ mkdir_fails config w = true \/ open_fails config w = true
          \/ listing_fails config w = true)).
Proof.
  unfold init_fails.
  rewrite orb_true_iff, !andb_true_iff, !negb_true_iff, !orb_true_iff.
  rewrite !String.eqb_eq, !String.eqb_neq. tauto.
Qed.

(** C2.  With no singleton, [InitGlobalLogger] returns an error exactly
    when the sink kind (after the default "console" for the empty string)
    is neither "console" nor "file", or it is "file" and the directory or
    the prefix is empty or [MkdirAll], the opening of the day's file or the
    directory listing of the first cleanup fails.  After an error
    [GetLogger] still returns nil.  The retention value plays no part in
    the outcome; a value that is not positive is stored as 7. *)
Theorem C2_construction_fails_iff :
  forall (config : LoggerConfig) (w : World),
    globalLogger w = None ->
    let r := InitGlobalLogger config w in
    (is_err (fst r) = true <->
       (effective_type config <> "console" /\ effective_type config <> "file")
       \/ (effective_type config = "file"
           /\ (LogDir config = "" \/ FilePrefix config = ""
               \/ mkdir_fails config w = true \/ open_fails config w = true
               \/ listing_fails config w = true)))
    /\ (is_err (fst r) = true -> GetLogger (snd r) = None)
    /\ (forall days,
          is_err (fst (InitGlobalLogger (with_retention days config) w))
          = is_err (fst r))
    /\ (forall p, fst r = Ok p ->
          exists l, w_heap (snd r) !! p = Some l
                    /\ retentionDays l
                       = if RetentionDays config <=? 0 then 7 else RetentionDays config).
Proof.
  intros config w Hg r.
  assert (forall c, is_err (fst (InitGlobalLogger c w)) = init_fails c w) as Herr.
  { intros c. pose proof (InitGlobalLogger_new c w Hg) as HN.
    destruct (InitGlobalLogger c w) as [[p|e] w']; simpl; symmetry; tauto. }
  pose proof (InitGlobalLogger_new config w Hg) as HN. fold r in HN.
  split_all.
  - unfold r. rewrite Herr. apply init_fails_iff.
  - destruct r as [[p|e] w']; simpl; [done|]. intros _. tauto.
  - intros days. unfold r. by rewrite !Herr.
  - intros p Hp. destruct r as [[p'|e] w']; simpl in *; [|done].
    simplify_eq. destruct HN as (_ & _ & _ & (l & Hl & HR) & _).
    exists l. split; [done|]. apply HR.
Qed.

Lemma C2_witness :
  globalLogger (cleanup_world insertion_sorter) = None
  /\ is_err (fst (InitGlobalLogger
                    {| Level := DebugLevel; OutputType := "file"; LogDir := "/tmp/logs";
                       FilePrefix := ""; RetentionDays := -3 |}
                    (cleanup_world insertion_sorter))) = true
  /\ is_err (fst (InitGlobalLogger (with_retention (-3) file_config)
                    (cleanup_world insertion_sorter))) = false.
Proof.
  assert (globalLogger (cleanup_world insertion_sorter) = None) as Hg by reflexivity.
  split; [exact Hg|]. split.
  - pose proof (C2_construction_fails_iff
                  {| Level := DebugLevel; OutputType := "file"; LogDir := "/tmp/logs";
                     FilePrefix := ""; RetentionDays := -3 |}
                  (cleanup_world insertion_sorter) Hg) as (H & _).
    apply H. right. split; [reflexivity|]. right. left. reflexivity.
  - pose proof (C2_construction_fails_iff file_config (cleanup_world insertion_sorter)
                  Hg) as (_ & _ & H & _).
    rewrite H. vm_compute. reflexivity.
Defined.

Lemma update_logger_id p f l w :
  w_heap w !! p = Some l -> f l = l -> update_logger p f w = w.
Proof.
  intros Hl Hf. unfold update_logger. rewrite Hl, Hf.
  rewrite list_insert_id by done. by destruct w.
Qed.

Lemma Close_lookup p w l :
  w_heap w !! p = Some l ->
  w_heap (Close p w) !! p = Some (set_currentFile None (set_ctx_done true l)).
Proof.
  intros Hl. unfold Close. apply close_current_lookup.
  by apply update_logger_lookup.
Qed.

Lemma Close_lookup_ne p q w : p <> q -> w_heap (Close p w) !! q = w_heap w !! q.
Proof.
  intros Hne. unfold Close. rewrite close_current_lookup_ne by done.
  by apply update_logger_lookup_ne.
Qed.

Lemma Close_heap_length p w : length (w_heap (Close p w)) = length (w_heap w).
Proof.
  unfold Close.
  pose proof (close_current_frame p (update_logger p (set_ctx_done true) w)) as H.
  simpl in H. destruct H as (_&_&_&_&_&->&_). apply update_logger_length.
Qed.

(** C3.  While a singleton exists, [InitGlobalLogger] returns it and changes
    nothing, whatever the configuration.  After [ResetGlobalLogger], a
    configuration with which the construction does not fail yields an
    instance at a new address, built from that configuration and published
    as the singleton; the struct of the former singleton is not touched by
    it. *)
Theorem C3_repeat_init_ignored_reset_then_new :
  forall (w : World) (g : nat) (lg : Logger),
    globalLogger w = Some g ->
    w_heap w !! g = Some lg ->
    (forall c2, InitGlobalLogger c2 w = (Ok g, w))
    /\ (forall c2,
          let w1 := ResetGlobalLogger w in
          init_fails c2 w1 = false ->
          exists p w2 l,
            InitGlobalLogger c2 w1 = (Ok p, w2)
            /\ p <> g
            /\ GetLogger w2 = Some p
            /\ w_heap w2 !! p = Some l
            /\ reflects c2 l
            /\ w_heap w2 !! g = w_heap w1 !! g).
Proof.
  intros w g lg Hg Hlg. split.
  - intros c2. unfold InitGlobalLogger. by rewrite Hg.
  - intros c2 w1 Hok.
    assert (globalLogger w1 = None) as Hg1 by (unfold w1, ResetGlobalLogger; by rewrite Hg).
    assert (length (w_heap w1) = length (w_heap w)) as Hlen.
    { unfold w1, ResetGlobalLogger. rewrite Hg. simpl. apply Close_heap_length. }
    pose proof (InitGlobalLogger_new c2 w1 Hg1) as HN.
    destruct (InitGlobalLogger c2 w1) as [[p|e] w2].
    + destruct HN as (_ & Hp & Hpub & (l & Hl & Hrefl) & _ & Hold).
      apply lookup_lt_Some in Hlg.
      exists p, w2, l. split_all; try done; [lia|]. apply Hold. lia.
    + destruct HN as (HF & _). congruence.
Qed.

Lemma C3_witness :
  globalLogger console_world = Some 0%nat
  /\ InitGlobalLogger file_config console_world = (Ok 0%nat, console_world)
  /\ exists p w2 l,
       InitGlobalLogger file_config (ResetGlobalLogger console_world) = (Ok p, w2)
       /\ p <> 0%nat /\ GetLogger w2 = Some p /\ w_heap w2 !! p = Some l
       /\ reflects file_config l.
Proof.
  assert (globalLogger console_world = Some 0%nat) as Hg by (vm_compute; reflexivity).
  assert (w_heap console_world !! 0%nat = Some console_logger) as Hl
    by (vm_compute; reflexivity).
  assert (init_fails file_config (ResetGlobalLogger console_world) = false) as Hok
    by (vm_compute; reflexivity).
  pose proof (C3_repeat_init_ignored_reset_then_new console_world 0 console_logger
                Hg Hl) as (H1 & H2).
  destruct (H2 file_config Hok) as (p & w2 & l & Ha & Hb & Hc & Hd & He & _).
  refine (conj Hg (conj (H1 file_config) _)).
  exists p, w2, l. exact (conj Ha (conj Hb (conj Hc (conj Hd He)))).
Defined.

Lemma task_wakeup_global i w : globalLogger (task_wakeup i w) = globalLogger w.
Proof.
  unfold task_wakeup. repeat case_match; try done. simpl.
  apply rotateAndCleanup_steady.
Qed.

Lemma run_op_global o w g :
  globalLogger w = Some g -> o <> OpReset -> globalLogger (run_op o w) = Some g.
Proof.
  intros Hg Hne. rewrite <- Hg. destruct o; simpl.
  - unfold InitGlobalLogger. by rewrite Hg.
  - done.
  - apply Close_steady.
  - apply update_logger_frame.
  - apply sev_call_frame.
  - apply rotateAndCleanup_steady.
  - apply setupFileLogger_steady.
  - apply cleanupOldLogs_frame.
  - apply task_wakeup_global.
Qed.

(** C10.  [Close] on the singleton leaves it registered: [GetLogger] still
    returns the same instance, now closed (context cancelled, no current
    file).  Of all the operations of the package only [ResetGlobalLogger]
    makes [GetLogger] return nil. *)
Theorem C10_close_keeps_singleton_registered :
  forall (w : World) (g : nat) (l : Logger),
    GetLogger w = Some g ->
    w_heap w !! g = Some l ->
    GetLogger (Close g w) = Some g
    /\ (exists l', w_heap (Close g w) !! g = Some l'
                   /\ ctx_done l' = true /\ currentFile l' = None)
    /\ GetLogger (ResetGlobalLogger w) = None
    /\ (forall o, GetLogger (run_op o w) = None <-> o = OpReset).
Proof.
  unfold GetLogger. intros w g l Hg Hl. split_all.
  - rewrite <- Hg. apply Close_steady.
  - eexists. split; [by apply Close_lookup|done].
  - unfold ResetGlobalLogger. by rewrite Hg.
  - intros o. split.
    + intros Hnone. destruct o; try done;
        rewrite (run_op_global _ w g Hg) in Hnone; done.
    + intros ->. simpl. unfold ResetGlobalLogger. by rewrite Hg.
Qed.

Lemma C10_witness :
  GetLogger file_world = Some 0%nat
  /\ GetLogger (Close 0 file_world) = Some 0%nat
  /\ GetLogger (ResetGlobalLogger file_world) = None.
Proof.
  assert (GetLogger file_world = Some 0%nat) as Hg by (vm_compute; reflexivity).
  assert (w_heap file_world !! 0%nat = Some file_logger) as Hl
    by (vm_compute; reflexivity).
  pose proof (C10_close_keeps_singleton_registered file_world 0 file_logger Hg Hl)
    as (H1 & _ & H2 & _).
  exact (conj Hg (conj H1 H2)).
Defined.

(* ===================================================================== *)
(** ** Closing *)
(* ===================================================================== *)

Lemma Close_twice p w l : w_heap w !! p = Some l -> Close p (Close p w) = Close p w.
Proof.
  intros Hl. pose proof (Close_lookup p w l Hl) as H1.
  set (w1 := Close p w) in *. unfold Close.
  rewrite (update_logger_id p _ _ w1 H1) by done.
  unfold close_current. by rewrite H1.
Qed.

(** The open-file table after [Close]. *)
Lemma Close_files p w l :
  w_heap w !! p = Some l ->
  w_inodes (Close p w) = w_inodes w
  /\ w_files (Close p w)
     = match currentFile l with
       | Some h =>
           match w_files w !! h with
           | Some f =>
               if of_closed f then w_files w
               else <[h := {| of_ino := of_ino f; of_closed := true |}]> (w_files w)
           | None => w_files w
           end
       | None => w_files w
       end.
Proof.
  intros Hl. unfold Close, close_current.
  rewrite (update_logger_lookup p _ l w Hl). simpl.
  pose proof (update_logger_frame p (set_ctx_done true) w) as HU.
  set (w0 := update_logger p (set_ctx_done true) w) in *. simpl in HU.
  destruct HU as (_ & _ & Hi0 & Hf0 & _).
  destruct (currentFile l) as [h|]; [|done].
  unfold File_Close. rewrite Hf0.
  destruct (w_files w !! h) as [f|].
  - destruct (of_closed f).
    + unfold update_logger, log_Printf; simpl; by case_match.
    + destruct (close_err (w_env w0) h);
        unfold update_logger, log_Printf; simpl; case_match; simpl; by rewrite ?Hf0, ?Hi0.
  - unfold update_logger, log_Printf; simpl; by case_match.
Qed.

(** A file logger has no usable sink once it is closed. *)
Lemma Close_no_sink p w l h :
  w_heap w !! p = Some l -> logger l = Some (FileW h) ->
  currentFile l = Some h \/ (currentFile l = None /\ active_sink p w = None) ->
  active_sink p (Close p w) = None.
Proof.
  intros Hl Hw Hcase. unfold active_sink at 1.
  rewrite (Close_lookup p w l Hl). simpl. rewrite Hw.
  destruct (Close_files p w l Hl) as (-> & ->).
  destruct Hcase as [->|(-> & Hnone)].
  - destruct (w_files w !! h) as [f|] eqn:Hf.
    + destruct (of_closed f) eqn:Hcl.
      * by rewrite Hf, Hcl.
      * rewrite list_lookup_insert_eq by (by eapply lookup_lt_Some). done.
    + by rewrite Hf.
  - unfold active_sink in Hnone. by rewrite Hl, Hw in Hnone.
Qed.

(** Without a usable sink a severity call on a file logger changes
    nothing: the write fails and [log] drops the error. *)
Lemma sev_call_no_sink s p msg w l h :
  w_heap w !! p = Some l -> logger l = Some (FileW h) ->
  active_sink p w = None -> sev_call s p msg w = w.
Proof.
  intros Hl Hw Hnone. rewrite (sev_call_unfold _ _ _ _ _ Hl).
  destruct (level l >? sev_level s); [done|].
  unfold log, Output, File_Write. rewrite Hl, Hw.
  unfold active_sink in Hnone. rewrite Hl, Hw in Hnone.
  destruct (w_files w !! h) as [f|]; [|done].
  destruct (of_closed f); [done|].
  by destruct (w_inodes w !! of_ino f).
Qed.

(** The claim of C6 about the calls after [Close], as it is worded: every
    severity call after [Close] drops its message, so that the world stays
    as [Close] left it. *)
Definition drops_every_call_after_Close : Prop :=
  forall (w : World) (p : nat) (s : Severity) (msg : string),
    is_Some (w_heap w !! p) ->
    sev_call s p msg (Close p w) = Close p w.

(** C6, as stated, fails on a console logger: [Close] leaves [l.logger]
    and standard output as they are, and a later [Info] is still written. *)
Lemma C6_counterexample_console_logger_writes_after_Close :
  ~ drops_every_call_after_Close
  /\ w_stdout (Close 0 console_world) = []
  /\ w_stdout (sev_call SevInfo 0 "late" (Close 0 console_world))
     = [{| ln_time := t_0704; ln_text := "[INFO] late" |}].
Proof.
  split; [|split; vm_compute; reflexivity].
  intros H.
  assert (is_Some (w_heap console_world !! 0%nat)) as Hsome
    by (exists console_logger; vm_compute; reflexivity).
  specialize (H console_world 0%nat SevInfo "late" Hsome).
  apply (f_equal w_stdout) in H. vm_compute in H. discriminate H.
Qed.

(** C6, amended.  [Close] is idempotent.  A severity call after [Close]
    never opens a file and never changes the logger or a directory.  On a
    logger that writes to a file (its current file, or one that is already
    unusable) the call changes nothing at all: the message is dropped.  A
    console logger keeps writing the messages that pass the filter to
    standard output. *)
Theorem C6_close_idempotent_and_file_logger_drops :
  forall (w : World) (p : nat) (l : Logger),
    w_heap w !! p = Some l ->
    Close p (Close p w) = Close p w
    /\ (forall s msg,
          let w' := sev_call s p msg (Close p w) in
          w_files w' = w_files (Close p w) /\ w_heap w' = w_heap (Close p w)
          /\ w_dirs w' = w_dirs (Close p w))
    /\ (forall h,
          logger l = Some (FileW h) ->
          currentFile l = Some h \/ (currentFile l = None /\ active_sink p w = None) ->
          forall s msg, sev_call s p msg (Close p w) = Close p w)
    /\ (logger l = Some Stdout ->
        forall s msg,
          level l <= sev_level s ->
          w_stdout (sev_call s p msg (Close p w))
          = w_stdout (Close p w) ++ [sev_line s msg w]).
Proof.
  intros w p l Hl. split_all.
  - by apply (Close_twice p w l).
  - intros s msg. pose proof (sev_call_frame s p msg (Close p w)) as H.
    simpl in *. tauto.
  - intros h Hw Hcase s msg.
    apply (sev_call_no_sink s p msg (Close p w) _ h (Close_lookup p w l Hl) Hw).
    by apply (Close_no_sink p w l h).
  - intros Hw s msg Hle.
    pose proof (Close_lookup p w l Hl) as Hl1.
    pose proof (emitted_iff s p msg SinkStdout (Close p w) _ Hl1) as He.
    unfold emitted, active_sink in He. rewrite Hl1 in He. simpl in He. rewrite Hw in He.
    destruct (He eq_refl) as (_ & He'). rewrite (He' Hle).
    unfold sev_line. pose proof (Close_steady p w) as (_ & -> & _). done.
Qed.

Lemma C6_witness :
  w_heap file_world !! 0%nat = Some file_logger
  /\ Close 0 (Close 0 file_world) = Close 0 file_world
  /\ sev_call SevError 0 "after close" (Close 0 file_world) = Close 0 file_world.
Proof.
  assert (w_heap file_world !! 0%nat = Some file_logger) as Hl
    by (vm_compute; reflexivity).
  pose proof (C6_close_idempotent_and_file_logger_drops file_world 0 file_logger Hl)
    as (H1 & _ & H2 & _).
  exact (conj Hl (conj H1 (H2 0%nat eq_refl (or_introl eq_refl)
                              SevError "after close"))).
Defined.

(* ===================================================================== *)
(** ** Retention *)
(* ===================================================================== *)

Lemma cutoff_is_midnight l w :
  cutoff l w
  = midnight_of (env_zone (w_env w))
      (local_day (env_zone (w_env w)) (w_now w) - retentionDays l).
Proof. unfold cutoff, AddDate_days, Date_midnight, midnight_of. lia. Qed.

(** What one run of the cleanup does to an entry of the log directory. *)
Lemma cleanupOldLogs_entry p w l name ino :
  w_heap w !! p = Some l ->
  readdir_err (w_env w) (logDir l) = false ->
  NoDup (listing (logDir l) w).*1 ->
  (name, ino) ∈ listing (logDir l) w ->
  let w' := snd (cleanupOldLogs p w) in
  (expired l w (name, ino) = false -> (name, ino) ∈ listing (logDir l) w')
  /\ (expired l w (name, ino) = true ->
      remove_err (w_env w) (Join (logDir l) name) = false ->
      lookup_name (logDir l) name w' = None).
Proof.
  intros Hl Hrd Hnd Hin w'.
  pose proof (ReadDir_listing _ _ _ Hrd Hin) as Hr.
  destruct (cleanupOldLogs_names p w l _ Hl Hr)
    as (names & w1 & Hrun & Hperm & _ & _ & (He & _) & Hd & _).
  pose proof (delete_old_dirs p (logDir l) names w1) as HD. simpl in HD.
  destruct HD as (_ & _ & Hkeep & Hgone).
  rewrite (listing_ext _ w w1 Hd) in Hkeep, Hgone.
  subst w'. rewrite Hrun. split.
  - intros Hx. apply Hkeep; [done|]. rewrite Hperm.
    intros (ino' & Hin' & Hx')%expired_names_elem.
    rewrite (names_unique _ _ _ _ Hnd Hin Hin') in Hx. congruence.
  - intros Hx Hrm. apply Hgone; [done| |by rewrite He].
    rewrite Hperm. apply expired_names_elem. eauto.
Qed.

(** C4.  In a directory that can be listed, a candidate (a non-directory
    entry with a log name of the logger's prefix) whose modification time
    can be read and whose removal the system does not refuse is deleted by
    the cleanup if and only if that time is strictly before the cutoff;
    the cutoff is the local midnight of the day [retentionDays] days before
    today.  A candidate modified exactly at the cutoff is kept. *)
Theorem C4_candidate_deleted_iff_before_cutoff :
  forall (w : World) (p : nat) (l : Logger) (name : string) (ino : nat)
         (modTime : Z),
    w_heap w !! p = Some l ->
    readdir_err (w_env w) (logDir l) = false ->
    NoDup (listing (logDir l) w).*1 ->
    (name, ino) ∈ listing (logDir l) w ->
    candidate (filePrefix l) w (name, ino) = true ->
    Info_ModTime (logDir l) (name, ino) w = Ok modTime ->
    remove_err (w_env w) (Join (logDir l) name) = false ->
    let w' := snd (cleanupOldLogs p w) in
    cutoff l w
    = midnight_of (env_zone (w_env w))
        (local_day (env_zone (w_env w)) (w_now w) - retentionDays l)
    /\ (lookup_name (logDir l) name w' = None <-> modTime < cutoff l w)
    /\ (modTime = cutoff l w -> (name, ino) ∈ listing (logDir l) w').
Proof.
  intros w p l name ino modTime Hl Hrd Hnd Hin Hc Hinfo Hrm w'.
  destruct (cleanupOldLogs_entry p w l name ino Hl Hrd Hnd Hin) as (Hkeep & Hgone).
  assert (expired l w (name, ino) = (modTime <? cutoff l w)) as Hx
    by (unfold expired; by rewrite Hc, Hinfo).
  split_all.
  - apply cutoff_is_midnight.
  - split.
    + intros Hnone. destruct (Z.ltb_spec modTime (cutoff l w)) as [|Hge]; [done|].
      specialize (Hkeep Hx). apply find_entry_is_Some in Hkeep.
      fold w' in Hkeep. rewrite <- lookup_name_listing, Hnone in Hkeep.
      by destruct Hkeep.
    + intros Hlt. apply Hgone; [|done]. rewrite Hx. by apply Z.ltb_lt.
  - intros ->. apply Hkeep. rewrite Hx. apply Z.ltb_irrefl.
Qed.

Lemma C4_witness :
  lookup_name "/tmp/logs" "cleantest_a.log" tie_world = Some 1%nat
  /\ (lookup_name "/tmp/logs" "cleantest_a.log" (snd (cleanupOldLogs 0 tie_world)) = None
      <-> t_0704 - 10 * nsPerDay + 5 * (3600 * nsPerSecond) < cutoff file_logger tie_world).
Proof.
  assert (w_heap tie_world !! 0%nat = Some file_logger) as Hl
    by (vm_compute; reflexivity).
  assert (NoDup (listing (logDir file_logger) tie_world).*1) as Hnd
    by compute_done.
  assert (("cleantest_a.log", 1%nat) ∈ listing (logDir file_logger) tie_world) as Hin
    by compute_done.
  pose proof (C4_candidate_deleted_iff_before_cutoff tie_world 0 file_logger
                "cleantest_a.log" 1
                (t_0704 - 10 * nsPerDay + 5 * (3600 * nsPerSecond))
                Hl eq_refl Hnd Hin eq_refl eq_refl eq_refl) as (_ & H & _).
  split; [vm_compute; reflexivity|exact H].
Defined.

Lemma expired_candidate l w e : expired l w e = true -> candidate (filePrefix l) w e = true.
Proof. unfold expired. by intros [H _]%andb_true_iff. Qed.

(** C5.  One run of the cleanup removes only non-directory entries of the
    logger's directory whose name starts with [prefix_] and ends with
    [.log].  Every other entry, of that or of any other directory, is
    still there afterwards, whatever its age; no entry appears; and no
    inode changes except the one the logger itself writes its messages
    to. *)
Theorem C5_cleanup_removes_only_own_log_files :
  forall (w : World) (p : nat) (l : Logger),
    w_heap w !! p = Some l ->
    NoDup (listing (logDir l) w).*1 ->
    let w' := snd (cleanupOldLogs p w) in
    (exists removed,
        w_unlinked w' = w_unlinked w ++ (Join (logDir l) <$> removed)
        /\ forall n, n ∈ removed ->
             exists ino, (n, ino) ∈ listing (logDir l) w
                         /\ IsDir (n, ino) w = false
                         /\ HasPrefix n (filePrefix l +:+ "_") = true
                         /\ HasSuffix n ".log" = true)
    /\ (forall d e, e ∈ listing d w ->
          ~ (d = logDir l /\ candidate (filePrefix l) w e = true) ->
          e ∈ listing d w')
    /\ (forall d e, e ∈ listing d w' -> e ∈ listing d w)
    /\ (forall ino, active_sink p w <> Some (SinkFile ino) ->
          w_inodes w' !! ino = w_inodes w !! ino).
Proof.
  intros w p l Hl Hnd w'.
  destruct (ReadDir (logDir l) w) as [files|err] eqn:Hr.
  - destruct (cleanupOldLogs_names p w l files Hl Hr)
      as (names & w1 & Hrun & Hperm & _ & _ & _ & Hd & Hi & Hf & Hu & Hh).
    apply ReadDir_Ok in Hr as (Hfiles & _).
    pose proof (delete_old_dirs p (logDir l) names w1) as HD. simpl in HD.
    destruct HD as (Hother & Hsub & Hkeep & _).
    rewrite (listing_ext _ w w1 Hd) in Hkeep, Hsub.
    assert (forall n, n ∈ names -> exists ino,
               (n, ino) ∈ listing (logDir l) w /\ expired l w (n, ino) = true) as Hnames.
    { intros n Hn. rewrite Hperm in Hn. apply expired_names_elem in Hn.
      by rewrite Hfiles. }
    subst w'. rewrite Hrun. split_all.
    + destruct (delete_old_unlinked p (logDir l) names w1) as (removed & Hun & Hs & _).
      exists removed. split; [by rewrite Hun, Hu|].
      intros n Hn. destruct (Hnames n) as (ino & Hin & Hx); [by eapply elem_of_sublist|].
      exists ino. split; [done|].
      apply expired_candidate in Hx. unfold candidate, is_log_name in Hx.
      apply andb_true_iff in Hx as [Hdir [Hpre Hsuf]%andb_true_iff].
      apply negb_true_iff in Hdir. done.
    + intros d [n i] He Hnot. destruct (decide (d = logDir l)) as [->|Hne].
      * apply Hkeep; [done|]. intros Hn.
        destruct (Hnames n Hn) as (ino & Hin & Hx). apply Hnot. split; [done|].
        rewrite (names_unique _ _ _ _ Hnd He Hin). by apply expired_candidate.
      * unfold listing in *. rewrite Hother by done. by rewrite Hd.
    + intros d e He. destruct (decide (d = logDir l)) as [->|Hne]; [by apply Hsub|].
      unfold listing in *. rewrite Hother in He by done. by rewrite Hd in He.
    + intros ino Hne. rewrite delete_old_inodes_other.
      * by rewrite Hi.
      * rewrite (active_sink_eq p w); [done|congruence..].
  - subst w'. unfold cleanupOldLogs. rewrite Hl, Hr. simpl.
    split_all; try done. exists []. split; [by rewrite app_nil_r|].
    intros n Hn. by apply elem_of_nil in Hn.
Qed.

Lemma C5_witness :
  ("otherfile.log", 9%nat) ∈ listing "/tmp/logs" tie_world
  /\ ("otherfile.log", 9%nat) ∈ listing "/tmp/logs" (snd (cleanupOldLogs 0 tie_world))
  /\ ("cleantest_sub.log", 8%nat)
     ∈ listing "/tmp/logs" (snd (cleanupOldLogs 0 tie_world)).
Proof.
  assert (w_heap tie_world !! 0%nat = Some file_logger) as Hl
    by (vm_compute; reflexivity).
  assert (NoDup (listing (logDir file_logger) tie_world).*1) as Hnd by compute_done.
  assert (("otherfile.log", 9%nat) ∈ listing "/tmp/logs" tie_world) as H1
    by compute_done.
  assert (("cleantest_sub.log", 8%nat) ∈ listing "/tmp/logs" tie_world) as H2
    by compute_done.
  pose proof (C5_cleanup_removes_only_own_log_files tie_world 0 file_logger Hl Hnd)
    as (_ & Hkeep & _).
  refine (conj H1 (conj (Hkeep _ _ H1 _) (Hkeep _ _ H2 _)));
    intros [_ Hc]; vm_compute in Hc; discriminate Hc.
Defined.

(** The expired names of the logger's directory, in listing order. *)
Definition expired_names (l : Logger) (w : World) : list string :=
  (List.filter (expired l w) (listing (logDir l) w)).*1.

(** The claim of C7, as it is worded: when nothing fails, the removals of
    one run are the stable sort of the expired names by modification
    time. *)
Definition deletes_in_stable_order : Prop :=
  forall (w : World) (p : nat) (l : Logger),
    w_heap w !! p = Some l ->
    readdir_err (w_env w) (logDir l) = false ->
    NoDup (listing (logDir l) w).*1 ->
    (forall n, n ∈ expired_names l w ->
               remove_err (w_env w) (Join (logDir l) n) = false) ->
    w_unlinked (snd (cleanupOldLogs p w))
    = w_unlinked w
      ++ (Join (logDir l)
            <$> stable_sort_by (fun n => Stat_ModTime (logDir l) n w)
                  (expired_names l w)).

(** C7, as stated, fails: [sort.Slice] is not a stable sort.  With the
    routine of Go 1.18 and seven expired files, of which [a] and [b] have
    the same modification time and [g] is the oldest, [b] is removed
    before [a]. *)
Lemma C7_counterexample_equal_times_reordered :
  ~ deletes_in_stable_order
  /\ w_unlinked (snd (cleanupOldLogs 0 tie_world))
     = ["/tmp/logs/cleantest_g.log"; "/tmp/logs/cleantest_b.log";
        "/tmp/logs/cleantest_a.log"; "/tmp/logs/cleantest_c.log";
        "/tmp/logs/cleantest_d.log"; "/tmp/logs/cleantest_e.log";
        "/tmp/logs/cleantest_f.log"]
  /\ stable_sort_by (fun n => Stat_ModTime "/tmp/logs" n tie_world)
       (expired_names file_logger tie_world)
     = ["cleantest_g.log"; "cleantest_a.log"; "cleantest_b.log";
        "cleantest_c.log"; "cleantest_d.log"; "cleantest_e.log";
        "cleantest_f.log"].
Proof.
  split; [|split; vm_compute; reflexivity].
  intros H.
  assert (w_heap tie_world !! 0%nat = Some file_logger) as Hl
    by (vm_compute; reflexivity).
  assert (NoDup (listing (logDir file_logger) tie_world).*1) as Hnd by compute_done.
  specialize (H tie_world 0%nat file_logger Hl eq_refl Hnd (fun _ _ => eq_refl)).
  vm_compute in H. discriminate H.
Qed.

(** C7, amended.  The removals of one run of the cleanup come oldest
    modification time first, and each removed name is an expired
    candidate.  When the directory can be listed and no removal is
    refused, the removals are a permutation of the expired candidates.
    The order among candidates of equal modification time is the one
    [sort.Slice] leaves, which need not be the order of the listing. *)
Theorem C7_removals_ascending_by_modification_time :
  forall (w : World) (p : nat) (l : Logger),
    w_heap w !! p = Some l ->
    NoDup (listing (logDir l) w).*1 ->
    exists removed,
      w_unlinked (snd (cleanupOldLogs p w))
      = w_unlinked w ++ (Join (logDir l) <$> removed)
      /\ StronglySorted
           (fun a b => Stat_ModTime (logDir l) a w <= Stat_ModTime (logDir l) b w)
           removed
      /\ (forall n, n ∈ removed -> n ∈ expired_names l w)
      /\ (readdir_err (w_env w) (logDir l) = false ->
          (forall n, n ∈ expired_names l w ->
                     remove_err (w_env w) (Join (logDir l) n) = false) ->
          removed ≡ₚ expired_names l w).
Proof.
  intros w p l Hl Hnd. unfold expired_names.
  destruct (ReadDir (logDir l) w) as [files|err] eqn:Hr.
  - destruct (cleanupOldLogs_names p w l files Hl Hr)
      as (names & w1 & Hrun & Hperm & Hsorted & _ & (He & _) & Hd & _ & _ & Hu & _).
    apply ReadDir_Ok in Hr as (<- & _).
    destruct (delete_old_unlinked p (logDir l) names w1) as (removed & Hun & Hsub & Hall).
    exists removed. rewrite Hrun. split_all.
    + by rewrite Hun, Hu.
    + by eapply StronglySorted_sublist.
    + intros n Hn. rewrite <- Hperm. by eapply elem_of_sublist.
    + intros _ Hrm. rewrite Hall; [done| |].
      * rewrite Hperm. by apply filter_names_NoDup.
      * intros n Hn. rewrite Hperm in Hn. split; [rewrite He; by apply Hrm|].
        apply expired_names_elem in Hn as (ino & Hin & _).
        rewrite lookup_name_listing, (listing_ext _ w w1 Hd).
        by eapply find_entry_is_Some.
  - exists []. unfold cleanupOldLogs. rewrite Hl, Hr. simpl. split_all.
    + by rewrite app_nil_r.
    + constructor.
    + intros n Hn. by apply elem_of_nil in Hn.
    + intros Hrd _. unfold ReadDir, listing in *. rewrite Hrd in Hr.
      by destruct (w_dirs w !! logDir l).
Qed.

Lemma C7_witness :
  w_heap tie_world !! 0%nat = Some file_logger
  /\ exists removed,
       w_unlinked (snd (cleanupOldLogs 0 tie_world))
       = w_unlinked tie_world ++ (Join "/tmp/logs" <$> removed)
       /\ StronglySorted
            (fun a b => Stat_ModTime "/tmp/logs" a tie_world
                        <= Stat_ModTime "/tmp/logs" b tie_world) removed
       /\ removed ≡ₚ expired_names file_logger tie_world.
Proof.
  assert (w_heap tie_world !! 0%nat = Some file_logger) as Hl
    by (vm_compute; reflexivity).
  assert (NoDup (listing (logDir file_logger) tie_world).*1) as Hnd by compute_done.
  destruct (C7_removals_ascending_by_modification_time tie_world 0 file_logger Hl Hnd)
    as (removed & H1 & H2 & _ & H3).
  refine (conj Hl _). exists removed.
  exact (conj H1 (conj H2 (H3 eq_refl (fun _ _ => eq_refl)))).
Defined.

(* ===================================================================== *)
(** ** Rotation *)
(* ===================================================================== *)

(** The fields of a logger that only the constructor sets. *)
Definition same_settings (l l' : Logger) : Prop :=
  level l' = level l /\ outputType l' = outputType l /\ logDir l' = logDir l
  /\ filePrefix l' = filePrefix l /\ retentionDays l' = retentionDays l.

(** [setupFileLogger] when the file of the day exists: no directory and no
    inode changes, and unless the opening is refused the logger then
    writes to that same file. *)
Lemma setupFileLogger_same_day p w l ino i :
  w_heap w !! p = Some l ->
  lookup_name (logDir l) (log_filename (filePrefix l) w) w = Some ino ->
  w_inodes w !! ino = Some i ->
  i_isDir i = false ->
  let r := setupFileLogger p w in
  w_dirs (snd r) = w_dirs w /\ w_inodes (snd r) = w_inodes w
  /\ (exists l1, w_heap (snd r) !! p = Some l1 /\ same_settings l l1)
  /\ (open_err (w_env w) (Join (logDir l) (log_filename (filePrefix l) w)) = false ->
      fst r = Ok tt /\ active_sink p (snd r) = Some (SinkFile ino)).
Proof.
  intros Hl Hname Hi Hreg. unfold setupFileLogger. rewrite Hl.
  pose proof (close_current_lookup p w l Hl) as Hl1.
  pose proof (close_current_frame p w) as (Hst & Hd1 & Hi1 & _).
  set (w1 := close_current p w) in *.
  rewrite (log_filename_steady _ _ _ Hst).
  set (name := log_filename (filePrefix l) w) in *.
  unfold OpenFile, lookup_name in *. destruct Hst as (He & _). rewrite He, Hd1, Hi1.
  destruct (open_err (w_env w) (Join (logDir l) name)) eqn:Hoe; simpl.
  - split_all; try done. exists (set_currentFile None l). by split.
  - destruct (w_dirs w !! logDir l) as [ents|]; [|done].
    rewrite Hname, Hi, Hreg. simpl.
    set (f := fun l' => set_logger _ (set_currentFile _ l')).
    set (w2 := set_files _ w1).
    assert (w_heap w2 !! p = Some (set_currentFile None l)) as Hl2 by done.
    pose proof (update_logger_lookup p f _ w2 Hl2) as Hl3.
    pose proof (update_logger_frame p f w2) as HU. simpl in HU.
    destruct HU as (_ & Hd3 & Hi3 & Hf3 & _).
    split_all; try congruence.
    + eexists. split; [exact Hl3|done].
    + intros _. split; [done|]. unfold active_sink.
      rewrite Hl3, Hf3, Hi3. simpl. rewrite lookup_app_r by lia.
      rewrite Nat.sub_diag. simpl. by rewrite Hi1, Hi.
Qed.

(** The cleanup keeps an entry that is not expired. *)
Lemma cleanupOldLogs_keeps p w l name ino :
  w_heap w !! p = Some l ->
  NoDup (listing (logDir l) w).*1 ->
  (name, ino) ∈ listing (logDir l) w ->
  expired l w (name, ino) = false ->
  (name, ino) ∈ listing (logDir l) (snd (cleanupOldLogs p w)).
Proof.
  intros Hl Hnd Hin Hx.
  destruct (readdir_err (w_env w) (logDir l)) eqn:Hrd.
  - unfold cleanupOldLogs, ReadDir. by rewrite Hl, Hrd.
  - by apply (cleanupOldLogs_entry p w l name ino Hl Hrd Hnd Hin).
Qed.

(** A file modified today is not expired while the retention is not
    negative. *)
Lemma modified_today_not_expired l w name ino i :
  w_inodes w !! ino = Some i ->
  Date_midnight (env_zone (w_env w)) (w_now w) <= i_mtime i ->
  0 <= retentionDays l ->
  expired l w (name, ino) = false.
Proof.
  intros Hi Hm Hr. unfold expired, Info_ModTime. simpl. rewrite Hi.
  destruct (info_err _ _); [by rewrite andb_false_r|].
  apply andb_false_iff. right. apply Z.ltb_ge.
  unfold cutoff, AddDate_days, nsPerDay, nsPerSecond in *. nia.
Qed.

(** A file whose modification time is not before the cutoff is not
    expired. *)
Lemma not_before_cutoff_not_expired l w name ino i :
  w_inodes w !! ino = Some i ->
  cutoff l w <= i_mtime i ->
  expired l w (name, ino) = false.
Proof.
  intros Hi Hm. unfold expired, Info_ModTime. simpl. rewrite Hi.
  destruct (info_err _ _); [by rewrite andb_false_r|].
  apply andb_false_iff. right. by apply Z.ltb_ge.
Qed.

(** [os.Chtimes] on an inode, as [touch -d] or a restore that keeps the
    times does it from outside the process. *)
Definition set_back_mtime (ino : nat) (t : Z) (w : World) : World :=
  set_inodes (alter (fun i => {| i_isDir := i_isDir i; i_mtime := t;
                                 i_data := i_data i |}) ino (w_inodes w)) w.

(** The scenario of [TestLogRotation], with one step added before the
    rotation: a file logger is started in an empty directory, one message
    is logged, and the modification time of the file of the day is then
    set back three days. *)
Definition stale_day_world : World :=
  set_back_mtime 0 (t_0704 - 3 * nsPerDay)
    (Info 0 "Log before rotation test"
       (snd (InitGlobalLogger file_config empty_dir_world))).

(** The file of the day, with what it held, is still under its name. *)
Definition day_file_kept (l : Logger) (w : World) (ino : nat) (i : Inode)
    (w2 : World) : Prop :=
  (log_filename (filePrefix l) w, ino) ∈ listing (logDir l) w2
  /\ exists i2, w_inodes w2 !! ino = Some i2 /\ i_data i `prefix_of` i_data i2.

(** The claim of C8, as it is worded: whenever the file named for the
    current day is in the logger's directory, either way of rotating
    leaves the name in place on that file and keeps what it held. *)
Definition same_day_rotation_lossless : Prop :=
  forall (w : World) (p : nat) (l : Logger) (ino : nat) (i : Inode),
    w_heap w !! p = Some l ->
    NoDup (listing (logDir l) w).*1 ->
    lookup_name (logDir l) (log_filename (filePrefix l) w) w = Some ino ->
    w_inodes w !! ino = Some i ->
    i_isDir i = false ->
    day_file_kept l w ino i (snd (setupFileLogger p w))
    /\ day_file_kept l w ino i (rotateAndCleanup p w).

(** C8, as stated, fails for [rotateAndCleanup].  Opening with [O_APPEND]
    does not touch the modification time, and the cleanup that follows
    the reopening treats the file in use like any other file of the
    prefix: in [stale_day_world] the file of the day is reopened and then
    removed, so the log directory is empty after the rotation. *)
Lemma C8_counterexample_stale_day_file_removed :
  ~ same_day_rotation_lossless.
Proof.
  intros H.
  assert (w_heap stale_day_world !! 0%nat = Some file_logger) as Hl
    by (vm_compute; reflexivity).
  assert (NoDup (listing (logDir file_logger) stale_day_world).*1) as Hnd
    by compute_done.
  assert (lookup_name (logDir file_logger)
            (log_filename (filePrefix file_logger) stale_day_world) stale_day_world
          = Some 0%nat) as Hname by (vm_compute; reflexivity).
  assert (w_inodes stale_day_world !! 0%nat
          = Some {| i_isDir := false; i_mtime := t_0704 - 3 * nsPerDay;
                    i_data := [{| ln_time := t_0704;
                                  ln_text := "[INFO] Log before rotation test" |}] |})
    as Hi by (vm_compute; reflexivity).
  pose proof (H stale_day_world 0%nat file_logger 0%nat _ Hl Hnd Hname Hi eq_refl)
    as (_ & Hin & _).
  assert (listing (logDir file_logger) (rotateAndCleanup 0 stale_day_world) = [])
    as Hempty by (vm_compute; reflexivity).
  rewrite Hempty in Hin. by apply elem_of_nil in Hin.
Qed.

(** C8, amended.  Let the file named for the current day exist in the
    logger's directory.  Rotation by [setupFileLogger] then changes no
    directory and no inode: the name stays in place on the same file,
    with its content.  Unless the opening is refused, the logger
    afterwards writes to that same file, and its next message comes after
    the content that was there.  The same holds for [rotateAndCleanup]
    when the modification time of the file is not before the retention
    cutoff: the name stays, the old lines remain at the front of the
    file, and the logger writes to it.  A file last modified on the
    current day meets that condition whenever the retention is not
    negative. *)
Theorem C8_same_day_rotation_keeps_file_not_before_cutoff :
  forall (w : World) (p : nat) (l : Logger) (ino : nat) (i : Inode),
    w_heap w !! p = Some l ->
    NoDup (listing (logDir l) w).*1 ->
    lookup_name (logDir l) (log_filename (filePrefix l) w) w = Some ino ->
    w_inodes w !! ino = Some i ->
    i_isDir i = false ->
    let name := log_filename (filePrefix l) w in
    let opens := open_err (w_env w) (Join (logDir l) name) = false in
    (let w1 := snd (setupFileLogger p w) in
     w_dirs w1 = w_dirs w /\ w_inodes w1 = w_inodes w
     /\ (opens ->
         fst (setupFileLogger p w) = Ok tt
         /\ active_sink p w1 = Some (SinkFile ino)
         /\ forall s msg,
              level l <= sev_level s ->
              sink_output (SinkFile ino) (sev_call s p msg w1)
              = i_data i ++ [sev_line s msg w]))
    /\ (cutoff l w <= i_mtime i ->
        let w2 := rotateAndCleanup p w in
        (name, ino) ∈ listing (logDir l) w2
        /\ (exists i2, w_inodes w2 !! ino = Some i2
                       /\ i_isDir i2 = false
                       /\ i_data i `prefix_of` i_data i2)
        /\ (opens -> active_sink p w2 = Some (SinkFile ino)))
    /\ (Date_midnight (env_zone (w_env w)) (w_now w) <= i_mtime i ->
        0 <= retentionDays l ->
        cutoff l w <= i_mtime i).
Proof.
  intros w p l ino i Hl Hnd Hname Hi Hreg name opens.
  pose proof (setupFileLogger_same_day p w l ino i Hl Hname Hi Hreg) as HS.
  simpl in HS. destruct HS as (Hd1 & Hi1 & (l1 & Hl1 & Hsame) & Hopen).
  pose proof (setupFileLogger_steady p w) as Hst1.
  split; [|split].
  - simpl. split_all; try done. intros Ho. destruct (Hopen Ho) as (Hr & Hs).
    split_all; try done. intros s msg Hle.
    pose proof (emitted_iff s p msg (SinkFile ino) _ l1 Hl1 Hs) as [_ He].
    destruct Hsame as (Hlev & _). rewrite Hlev in He. specialize (He Hle).
    unfold emitted, sink_output in He. rewrite He, Hi1, Hi.
    unfold sev_line. by destruct Hst1 as (_ & -> & _).
  - intros Hcut w2.
    assert ((name, ino) ∈ listing (logDir l) w) as Hin.
    { rewrite lookup_name_listing in Hname. by apply find_entry_Some. }
    subst w2. unfold rotateAndCleanup.
    destruct (setupFileLogger p w) as [r1 w1] eqn:HS1. simpl in *.
    set (w1' := match r1 with Ok _ => w1 | Err e => _ end).
    assert (steady w1 w1' /\ w_dirs w1' = w_dirs w1 /\ w_inodes w1' = w_inodes w1
            /\ w_heap w1' = w_heap w1 /\ w_files w1' = w_files w1) as HW
      by (subst w1'; destruct r1; by unfold steady).
    destruct HW as (Hst1' & Hd1' & Hi1' & Hh1' & Hf1').
    assert (w_heap w1' !! p = Some l1) as Hl1' by congruence.
    destruct Hsame as (_ & _ & Hdir & Hpre & Hret1).
    assert (listing (logDir l1) w1' = listing (logDir l) w) as Hlist.
    { rewrite Hdir. apply listing_ext. congruence. }
    assert (expired l1 w1' (name, ino) = false) as Hx.
    { apply (not_before_cutoff_not_expired l1 w1' name ino i); [congruence|].
      destruct Hst1 as (He & Hn & _). destruct Hst1' as (He' & Hn' & _).
      unfold cutoff in *. by rewrite He', Hn', He, Hn, Hret1. }
    pose proof (cleanupOldLogs_keeps p w1' l1 name ino Hl1') as Hkeep.
    rewrite Hlist, Hdir in Hkeep. specialize (Hkeep Hnd Hin Hx).
    pose proof (cleanupOldLogs_frame p w1') as HC.
    pose proof (cleanupOldLogs_append_only p w1') as HA.
    destruct (cleanupOldLogs p w1') as [r2 w3]. simpl in *.
    destruct HC as (_ & Hf3 & Hh3 & Hi3).
    set (w4 := match r2 with Ok _ => w3 | Err e => _ end).
    assert (w_dirs w4 = w_dirs w3 /\ w_inodes w4 = w_inodes w3
            /\ w_heap w4 = w_heap w3 /\ w_files w4 = w_files w3) as HW4
      by (subst w4; by destruct r2).
    destruct HW4 as (Hd4 & Hi4 & Hh4 & Hf4).
    split_all.
    + by rewrite (listing_ext _ w3 _ Hd4).
    + destruct (HA ino i) as (i2 & Hi2 & Hdir2 & Hpref); [congruence|].
      exists i2. rewrite Hi4. split_all; [done|congruence|done].
    + intros Ho. destruct (Hopen Ho) as (_ & Hs). rewrite <- Hs.
      apply active_sink_eq; congruence.
  - intros Hm Hret. unfold cutoff, AddDate_days, nsPerDay, nsPerSecond in *. nia.
Qed.

Lemma C8_witness :
  lookup_name "/tmp/logs" (log_filename "cleantest" file_world) file_world = Some 3%nat
  /\ w_dirs (snd (setupFileLogger 0 file_world)) = w_dirs file_world
  /\ w_inodes (snd (setupFileLogger 0 file_world)) = w_inodes file_world
  /\ ("cleantest_2023-07-04.log", 3%nat)
     ∈ listing "/tmp/logs" (rotateAndCleanup 0 file_world)
  /\ active_sink 0 (rotateAndCleanup 0 file_world) = Some (SinkFile 3).
Proof.
  assert (w_heap file_world !! 0%nat = Some file_logger) as Hl
    by (vm_compute; reflexivity).
  assert (NoDup (listing (logDir file_logger) file_world).*1) as Hnd by compute_done.
  assert (lookup_name (logDir file_logger)
            (log_filename (filePrefix file_logger) file_world) file_world
          = Some 3%nat) as Hname by (vm_compute; reflexivity).
  assert (w_inodes file_world !! 3%nat
          = Some {| i_isDir := false; i_mtime := t_0704;
                    i_data := [{| ln_time := t_0704;
                                  ln_text := "[INFO] Test log content" |};
                               {| ln_time := t_0704;
                                  ln_text := "[INFO] Deleted old log file: /tmp/logs/cleantest_2023-07-01.log" |};
                               {| ln_time := t_0704;
                                  ln_text := "[INFO] Deleted old log file: /tmp/logs/cleantest_2023-07-02.log" |}] |})
    as Hi by (vm_compute; reflexivity).
  pose proof (C8_same_day_rotation_keeps_file_not_before_cutoff file_world 0 file_logger
                3 _ Hl Hnd Hname Hi eq_refl) as (H1 & H2 & _).
  simpl in H1. destruct H1 as (Hd & Hin & _).
  assert (cutoff file_logger file_world <= t_0704) as Hm
    by (vm_compute; discriminate).
  destruct (H2 Hm) as (Hk & _ & Hs).
  exact (conj Hname (conj Hd (conj Hin (conj Hk (Hs eq_refl))))).
Defined.

(* ===================================================================== *)
(** ** Interleavings *)
(* ===================================================================== *)

Module ConcFacts.
Import Conc.

(** Along the accesses left to a method, with [held] telling whether its
    goroutine holds the mutex: the check is reached without the mutex,
    stores and the writes of the other methods come with it, and the
    method ends without it.  The writes of the cleanup loop are left
    free. *)
Fixpoint disciplined (m : Method) (held : bool) (ins : list Instr) : bool :=
  match ins with
  | [] => negb held
  | CheckLevel _ :: r => negb held && disciplined m false r
  | Lock :: r => negb held && disciplined m true r
  | Unlock :: r => held && disciplined m false r
  | LogWrite _ _ :: r => (held || cleans m) && disciplined m held r
  | StoreLevel _ :: r | Reopen :: r | CloseFile :: r => held && disciplined m held r
  | RemoveFile _ :: r => disciplined m held r
  end.

Definition event_ok (ms : list Method) (e : Event) : Prop :=
  match ev_instr e with
  | CheckLevel _ | Lock => ev_locked e = false
  | Unlock | StoreLevel _ | Reopen | CloseFile => ev_locked e = true
  | LogWrite _ _ =>
      ev_locked e = true
      \/ exists m, ms !! ev_thread e = Some m /\ cleans m = true
  | RemoveFile _ => True
  end.

Definition Inv (ms : list Method) (st : State) : Prop :=
  (st_threads st).*1 = ms
  /\ (forall t m rest, st_threads st !! t = Some (m, rest) ->
                       disciplined m (holds t st) rest = true)
  /\ Forall (event_ok ms) (st_events st).

Lemma cleanup_program_disciplined fs m :
  cleans m = true -> disciplined m false (cleanup_program fs) = true.
Proof. intros Hm. induction fs as [|f fs IH]; simpl; [done|]. by rewrite Hm. Qed.

Lemma program_disciplined m : disciplined m false (program m) = true.
Proof.
  destruct m; simpl; try done; by apply cleanup_program_disciplined.
Qed.

Lemma Inv_init lvl ms : Inv ms (init lvl ms).
Proof.
  unfold Inv, init. simpl. split_all.
  - rewrite <- list_fmap_compose. by rewrite list_fmap_id.
  - intros t m rest Ht. apply list_lookup_fmap_Some in Ht as (m' & ? & Hm').
    simplify_eq. apply program_disciplined.
  - constructor.
Qed.

Lemma threads_method ms st t m rest :
  (st_threads st).*1 = ms -> st_threads st !! t = Some (m, rest) -> ms !! t = Some m.
Proof. intros <- H. rewrite list_lookup_fmap, H. done. Qed.

Lemma insert_same_method (ths : list (Method * list Instr)) t m rest r :
  ths !! t = Some (m, rest) -> (<[t := (m, r)]> ths).*1 = ths.*1.
Proof.
  intros H. rewrite list_fmap_insert. simpl. apply list_insert_id.
  by rewrite list_lookup_fmap, H.
Qed.

(** The invariant after one access, from what it asks of the goroutine
    that made the access and of the others. *)
Lemma Inv_next ms st t m ins rest r lvl mu b :
  Inv ms st ->
  st_threads st !! t = Some (m, ins :: rest) ->
  b = holds t st ->
  event_ok ms {| ev_thread := t; ev_instr := ins; ev_locked := b;
                 ev_level := st_level st |} ->
  (forall t' m' rest', t' <> t -> st_threads st !! t' = Some (m', rest') ->
      disciplined m' (match mu with Some h => Nat.eqb h t' | None => false end) rest'
      = true) ->
  disciplined m (match mu with Some h => Nat.eqb h t | None => false end) r = true ->
  Inv ms {| st_level := lvl; st_mu := mu;
            st_threads := <[t := (m, r)]> (st_threads st);
            st_events := st_events st
                         ++ [{| ev_thread := t; ev_instr := ins;
                                ev_locked := b;
                                ev_level := st_level st |}] |}.
Proof.
  intros (Hms & Hd & Hev) Ht Hb Hok Hothers Hself. unfold Inv. simpl. split_all.
  - by rewrite (insert_same_method _ t m (ins :: rest)).
  - intros t' m' rest' Ht'. unfold holds. simpl.
    destruct (decide (t' = t)) as [->|Hne].
    + rewrite list_lookup_insert_eq in Ht' by (by eapply lookup_lt_Some).
      by simplify_eq.
    + rewrite list_lookup_insert_ne in Ht' by done. by eapply Hothers.
  - apply Forall_app. split; [done|]. by constructor.
Qed.

Lemma Inv_step ms t st st' : Inv ms st -> step t st = Some st' -> Inv ms st'.
Proof.
  intros HI Hstep. pose proof HI as (Hms & Hd & Hev). unfold step in Hstep.
  destruct (st_threads st !! t) as [[m [|ins rest]]|] eqn:Ht; try done.
  pose proof (Hd t m _ Ht) as Hdis.
  assert (forall t' m' rest', t' <> t -> st_threads st !! t' = Some (m', rest') ->
            disciplined m' (match st_mu st with
                            | Some h => Nat.eqb h t'
                            | None => false
                            end) rest' = true) as Hsame
    by (intros t' m' rest' _ Ht'; by apply (Hd t' m' rest')).
  clear Hms Hev. destruct ins; simpl in Hdis.
  - (* CheckLevel *)
    apply andb_true_iff in Hdis as [Hh Hr]. apply negb_true_iff in Hh.
    assert (match st_mu st with Some h => Nat.eqb h t | None => false end = false)
      as Hh' by exact Hh.
    destruct (st_level st >? sev_level s); simplify_eq;
      apply (Inv_next ms st t m _ rest _ _ _ _ HI Ht); try done;
      by rewrite Hh'.
  - (* Lock *)
    apply andb_true_iff in Hdis as [Hh Hr]. apply negb_true_iff in Hh.
    destruct (st_mu st) eqn:Hmu; [done|]. simplify_eq.
    apply (Inv_next ms st t m _ rest _ _ _ _ HI Ht).
    + done.
    + unfold event_ok, holds. simpl. by rewrite Hmu.
    + intros t' m' rest' Hne Ht'. specialize (Hd t' m' rest' Ht').
      unfold holds in Hd. rewrite Hmu in Hd.
      by destruct (Nat.eqb_spec t t').
    + by rewrite Nat.eqb_refl.
  - (* Unlock *)
    apply andb_true_iff in Hdis as [Hh Hr]. rewrite Hh in Hstep. simplify_eq.
    apply (Inv_next ms st t m _ rest _ _ _ _ HI Ht).
    + done.
    + done.
    + intros t' m' rest' Hne Ht'. specialize (Hd t' m' rest' Ht').
      unfold holds in Hd, Hh. destruct (st_mu st) as [h|]; [|done].
      apply Nat.eqb_eq in Hh as ->. by destruct (Nat.eqb_spec t t').
    + done.
  - (* LogWrite *)
    apply andb_true_iff in Hdis as [Hh Hr]. simplify_eq.
    apply (Inv_next ms st t m _ rest _ _ _ _ HI Ht); try done.
    unfold event_ok. simpl. apply orb_true_iff in Hh as [Hh|Hh]; [by left|].
    right. exists m. split; [|done]. eapply threads_method; [apply HI|done].
  - (* StoreLevel *)
    apply andb_true_iff in Hdis as [Hh Hr]. simplify_eq.
    apply (Inv_next ms st t m _ rest _ _ _ _ HI Ht); done.
  - (* Reopen *)
    apply andb_true_iff in Hdis as [Hh Hr]. simplify_eq.
    apply (Inv_next ms st t m _ rest _ _ _ _ HI Ht); done.
  - (* CloseFile *)
    apply andb_true_iff in Hdis as [Hh Hr]. simplify_eq.
    apply (Inv_next ms st t m _ rest _ _ _ _ HI Ht); done.
  - (* RemoveFile *)
    simplify_eq. apply (Inv_next ms st t m _ rest _ _ _ _ HI Ht); done.
Qed.

Lemma Inv_run ms schedule st st' :
  Inv ms st -> run schedule st = Some st' -> Inv ms st'.
Proof.
  revert st. induction schedule as [|t sch IH]; intros st HI; simpl.
  - by intros [= <-].
  - destruct (step t st) as [st1|] eqn:Hs; [|done].
    apply IH. by eapply Inv_step.
Qed.

(** Where a severity call stands: not started; returned at the check,
    which read a level above its severity; or past the check, which
    read a level at most its severity. *)
Definition phase (t : nat) (s : Severity) (msg : string) (rest : list Instr)
    (evs : list Event) : Prop :=
  (rest = program (MSeverity s msg) /\ forall e, e ∈ evs -> ev_thread e <> t)
  \/ (rest = []
      /\ forall e, e ∈ evs -> ev_thread e = t ->
                   ev_instr e = CheckLevel s /\ sev_level s < ev_level e)
  \/ ((rest = [Lock; LogWrite (sev_tag s) msg; Unlock]
       \/ rest = [LogWrite (sev_tag s) msg; Unlock] \/ rest = [Unlock] \/ rest = [])
      /\ (exists c, c ∈ evs /\ ev_thread c = t /\ ev_instr c = CheckLevel s
                    /\ ev_level c <= sev_level s)
      /\ forall e, e ∈ evs -> ev_thread e = t -> is_check e = true ->
                   ev_level e <= sev_level s).

Definition Inv2 (st : State) : Prop :=
  forall t s msg rest,
    st_threads st !! t = Some (MSeverity s msg, rest) ->
    phase t s msg rest (st_events st).

Lemma Inv2_init lvl ms : Inv2 (init lvl ms).
Proof.
  intros t s msg rest Ht. unfold init in Ht. simpl in *.
  apply list_lookup_fmap_Some in Ht as (m' & ? & Hm'). simplify_eq.
  left. split; [done|]. intros e He. by apply elem_of_nil in He.
Qed.

Lemma phase_other t s msg rest evs e :
  ev_thread e <> t -> phase t s msg rest evs -> phase t s msg rest (evs ++ [e]).
Proof.
  intros Hne [(Hr & Hn)|[(Hr & Hf)|(Hr & (c & Hc & Hct) & Hall)]].
  - left. split; [done|]. intros e' [He'|He']%elem_of_app; [auto|].
    apply list_elem_of_singleton in He' as ->. done.
  - right. left. split; [done|]. intros e' [He'|He']%elem_of_app; [auto|].
    apply list_elem_of_singleton in He' as ->. done.
  - right. right. split_all; [done| |].
    + exists c. split; [apply elem_of_app; by left|done].
    + intros e' [He'|He']%elem_of_app; [auto|].
      apply list_elem_of_singleton in He' as ->. done.
Qed.

Lemma Inv2_step t st st' : Inv2 st -> step t st = Some st' -> Inv2 st'.
Proof.
  intros HI Hstep t' s msg rest' Ht'. unfold step in Hstep.
  destruct (st_threads st !! t) as [[m [|ins rest]]|] eqn:Ht; try done.
  set (ev := {| ev_thread := t; ev_instr := ins; ev_locked := holds t st;
                ev_level := st_level st |}) in *.
  assert (exists lvl mu r,
             st' = {| st_level := lvl; st_mu := mu;
                      st_threads := <[t := (m, r)]> (st_threads st);
                      st_events := st_events st ++ [ev] |}
             /\ ((r = rest
                  /\ forall s0, ins = CheckLevel s0 -> st_level st <= sev_level s0)
                 \/ exists s0, ins = CheckLevel s0 /\ r = []
                               /\ sev_level s0 < st_level st))
    as (lvl & mu & r & -> & Hr).
  { destruct ins; simpl in Hstep;
      try (simplify_eq; eexists _, _, _; split; [done|]; left; by split).
    - destruct (Z.gtb_spec (st_level st) (sev_level s0)); simplify_eq;
        eexists _, _, _; (split; [done|]).
      + right. eauto.
      + left. split; [done|]. by intros s1 [= <-].
    - destruct (st_mu st); simplify_eq.
      eexists _, _, _. split; [done|]. left. by split.
    - destruct (holds t st); simplify_eq.
      eexists _, _, _. split; [done|]. left. by split. }
  simpl in *. destruct (decide (t' = t)) as [->|Hne].
  - rewrite list_lookup_insert_eq in Ht' by (by eapply lookup_lt_Some).
    simplify_eq. specialize (HI t s msg _ Ht).
    destruct HI as [(Hfull & Hnone)|[(Hnil & _)|(Hshape & (c & Hc & Hct) & Hall)]];
      [|done|].
    + (* the check *)
      simpl in Hfull. simplify_eq.
      destruct Hr as [(-> & Hpass)|(s0 & [= <-] & -> & Hlt)].
      * right. right. split_all; [by left| |].
        -- exists ev. split; [apply elem_of_app; right; by apply list_elem_of_singleton|].
           split_all; try done. by apply (Hpass s).
        -- intros e [He|He]%elem_of_app Het Hck; [by destruct (Hnone e He)|].
           apply list_elem_of_singleton in He as ->. by apply (Hpass s).
      * right. left. split; [done|].
        intros e [He|He]%elem_of_app Het; [by destruct (Hnone e He)|].
        apply list_elem_of_singleton in He as ->. done.
    + (* past the check *)
      assert (is_check ev = false /\ rest' = rest) as (Hnc & ->).
      { destruct Hshape as [Hs|[Hs|[Hs|Hs]]]; simplify_eq; simpl;
          (split; [done|]); destruct Hr as [[? _]|(s0 & ? & _)]; done. }
      right. right. split_all.
      * destruct Hshape as [Hs|[Hs|[Hs|Hs]]]; simplify_eq; auto.
      * exists c. split; [apply elem_of_app; by left|done].
      * intros e [He|He]%elem_of_app Het Hck; [auto|].
        apply list_elem_of_singleton in He as ->. congruence.
  - rewrite list_lookup_insert_ne in Ht' by done.
    apply phase_other; [done|]. by apply HI.
Qed.

Lemma Inv2_run schedule st st' : Inv2 st -> run schedule st = Some st' -> Inv2 st'.
Proof.
  revert st. induction schedule as [|t sch IH]; intros st HI; simpl.
  - by intros [= <-].
  - destruct (step t st) as [st1|] eqn:Hs; [|done].
    apply IH. by eapply Inv2_step.
Qed.

Lemma run_threads ms schedule st st' :
  Inv ms st -> run schedule st = Some st' ->
  forall t m, ms !! t = Some m -> exists rest, st_threads st' !! t = Some (m, rest).
Proof.
  intros HI Hrun t m Hm. destruct (Inv_run ms schedule st st' HI Hrun) as (Hms & _).
  rewrite <- Hms, list_lookup_fmap in Hm.
  destruct (st_threads st' !! t) as [[m' rest]|]; simpl in Hm; [|done].
  simplify_eq. eauto.
Qed.

(** The claim of C9 about the mechanism and the order, as it is worded:
    every threshold check, every sink write and every rotation is made
    by a goroutine that holds the mutex. *)
Definition checks_and_writes_under_lock : Prop :=
  forall lvl ms schedule st,
    run schedule (init lvl ms) = Some st ->
    forall e, e ∈ st_events st ->
              (is_check e || is_write e || is_rotation e) = true ->
              ev_locked e = true.

(** A [Debug] call racing with [SetLevel(ErrorLevel)]: the call passes its
    check, [SetLevel] runs to its end, then the call takes the mutex and
    writes. *)
Definition race_methods : list Method :=
  [MSeverity SevDebug "cache miss"; MSetLevel ErrorLevel].

Definition race_schedule : list nat := [0; 1; 1; 1; 0; 0; 0]%nat.

(** An [Info] call racing with the background task: the task has rotated
    and removed a file, the call holds the mutex, and the task writes its
    entry about the removal. *)
Definition cleanup_methods : list Method :=
  [MSeverity SevInfo "request served"; MRotateAndCleanup ["/tmp/logs/app_2023-07-01.log"]].

Definition cleanup_schedule : list nat := [1; 1; 1; 1; 0; 0; 1]%nat.

(** C9, as stated, fails.  The threshold check precedes [l.mu.Lock()] and
    is not repeated after it: in the first race the check is made without
    the mutex, and the message is written when the level is already
    [ErrorLevel].  In the second race [cleanupOldLogs] writes to the sink
    without the mutex while another goroutine holds it. *)
Lemma C9_counterexample_check_and_cleanup_write_outside_lock :
  ~ checks_and_writes_under_lock
  /\ (st_events <$> run race_schedule (init DebugLevel race_methods))
     = Some [{| ev_thread := 0; ev_instr := CheckLevel SevDebug;
                ev_locked := false; ev_level := DebugLevel |};
             {| ev_thread := 1; ev_instr := Lock;
                ev_locked := false; ev_level := DebugLevel |};
             {| ev_thread := 1; ev_instr := StoreLevel ErrorLevel;
                ev_locked := true; ev_level := DebugLevel |};
             {| ev_thread := 1; ev_instr := Unlock;
                ev_locked := true; ev_level := ErrorLevel |};
             {| ev_thread := 0; ev_instr := Lock;
                ev_locked := false; ev_level := ErrorLevel |};
             {| ev_thread := 0; ev_instr := LogWrite "DEBUG" "cache miss";
                ev_locked := true; ev_level := ErrorLevel |};
             {| ev_thread := 0; ev_instr := Unlock;
                ev_locked := true; ev_level := ErrorLevel |}]
  /\ (exists st,
        run cleanup_schedule (init InfoLevel cleanup_methods) = Some st
        /\ st_mu st = Some 0%nat
        /\ last (st_events st)
           = Some {| ev_thread := 1;
                     ev_instr := LogWrite "INFO"
                       "Deleted old log file: /tmp/logs/app_2023-07-01.log";
                     ev_locked := false; ev_level := InfoLevel |}).
Proof.
  split_all.
  - intros H.
    specialize (H DebugLevel race_methods [0%nat] _ eq_refl
                  {| ev_thread := 0; ev_instr := CheckLevel SevDebug;
                     ev_locked := false; ev_level := DebugLevel |}).
    simpl in H. discriminate H; [apply list_elem_of_singleton|]; done.
  - vm_compute. reflexivity.
  - eexists. split; [vm_compute; reflexivity|]. split; vm_compute; reflexivity.
Qed.

(** C9, amended.  In every interleaving of severity calls, [SetLevel],
    rotations, cleanups and [Close]: a severity call reads the threshold
    once, without the mutex, and every such read shows the level in
    force at that moment; the call writes only after a read that showed
    a level at most its severity, and never after a read that showed a
    higher one; its write is made holding the mutex, and so are the
    store of [SetLevel], the rotation and the closing of the file.
    Nothing is said here about the sink writes of the cleanup loop. *)
Theorem C9_threshold_read_once_then_write_under_lock :
  forall (lvl : LogLevel) (ms : list Method) (schedule : list nat) (st : State),
    run schedule (init lvl ms) = Some st ->
    (forall e, e ∈ st_events st ->
       (is_check e = true -> ev_locked e = false)
       /\ (is_store e = true -> ev_locked e = true)
       /\ (is_write e = true ->
           forall m, ms !! ev_thread e = Some m -> cleans m = false ->
                     ev_locked e = true))
    /\ (forall t s msg,
          ms !! t = Some (MSeverity s msg) ->
          (forall e, e ∈ st_events st -> ev_thread e = t -> is_write e = true ->
             exists c, c ∈ st_events st /\ ev_thread c = t
                       /\ ev_instr c = CheckLevel s
                       /\ ev_level c <= sev_level s)
          /\ (forall c, c ∈ st_events st -> ev_thread c = t -> is_check c = true ->
                 sev_level s < ev_level c ->
                 forall e, e ∈ st_events st -> ev_thread e = t ->
                           is_write e = false)).
Proof.
  intros lvl ms schedule st Hrun.
  pose proof (Inv_run ms schedule _ st (Inv_init lvl ms) Hrun) as (Hms & _ & Hev).
  pose proof (Inv2_run schedule _ st (Inv2_init lvl ms) Hrun) as H2.
  split.
  - intros e He. rewrite Forall_forall in Hev. specialize (Hev e He).
    unfold event_ok, is_check, is_store, is_write in *.
    destruct (ev_instr e); split_all; try done.
    intros _ m Hm Hc. destruct Hev as [|(m' & Hm' & Hc')]; [done|].
    congruence.
  - intros t s msg Hm.
    destruct (run_threads ms schedule _ st (Inv_init lvl ms) Hrun t _ Hm)
      as (rest & Ht).
    specialize (H2 t s msg rest Ht).
    destruct H2 as [(_ & Hnone)|[(_ & Hf)|(_ & Hpass & Hall)]].
    + split.
      * intros e He Het. by destruct (Hnone e He).
      * intros c Hc Hct. by destruct (Hnone c Hc).
    + split.
      * intros e He Het Hw. destruct (Hf e He Het) as (Hi & _).
        unfold is_write in Hw. by rewrite Hi in Hw.
      * intros c Hc Hct _ _ e He Het. destruct (Hf e He Het) as (Hi & _).
        unfold is_write. by rewrite Hi.
    + split.
      * intros e He Het Hw. exact Hpass.
      * intros c Hc Hct Hck Hlt. specialize (Hall c Hc Hct Hck). lia.
Qed.

Lemma C9_witness :
  exists st,
    run race_schedule (init DebugLevel race_methods) = Some st
    /\ forall e, e ∈ st_events st ->
         (is_check e = true -> ev_locked e = false)
         /\ (is_store e = true -> ev_locked e = true).
Proof.
  destruct (run race_schedule (init DebugLevel race_methods)) as [st|] eqn:Hrun;
    [|vm_compute in Hrun; discriminate Hrun].
  exists st. split; [reflexivity|].
  intros e He.
  destruct (C9_threshold_read_once_then_write_under_lock
              DebugLevel race_methods race_schedule st Hrun) as (H & _).
  destruct (H e He) as (H1 & H2 & _). exact (conj H1 H2).
Defined.
End ConcFacts.

(* ===================================================================== *)
(** ** Further properties of the package *)
(* ===================================================================== *)

Definition global_sev_call (s : Severity) (msg : string) (w : World) : World :=
  match s with
  | SevDebug => Global_Debug msg w
  | SevInfo => Global_Info msg w
  | SevWarn => Global_Warn msg w
  | SevError => Global_Error msg w
  end.

(** X1.  The package-level functions act on the singleton only: with a
    singleton they are its methods, and after [ResetGlobalLogger] (as
    before the first [InitGlobalLogger]) they change nothing, so a message
    logged then is lost without any trace. *)
Theorem X1_global_functions_follow_singleton :
  forall (w : World) (s : Severity) (msg : string) (v : LogLevel),
    (forall g, globalLogger w = Some g ->
               global_sev_call s msg w = sev_call s g msg w
               /\ Global_SetLevel v w = SetLevel g v w)
    /\ global_sev_call s msg (ResetGlobalLogger w) = ResetGlobalLogger w
    /\ Global_SetLevel v (ResetGlobalLogger w) = ResetGlobalLogger w
    /\ (forall config e w',
          globalLogger w = None ->
          InitGlobalLogger config w = (Err e, w') ->
          global_sev_call s msg w' = w').
Proof.
  intros w s msg v.
  assert (globalLogger (ResetGlobalLogger w) = None) as Hreset.
  { unfold ResetGlobalLogger. by destruct (globalLogger w) eqn:E. }
  assert (forall w0, globalLogger w0 = None -> global_sev_call s msg w0 = w0) as Hnone.
  { intros w0 H0. destruct s; simpl;
      unfold Global_Debug, Global_Info, Global_Warn, Global_Error; by rewrite H0. }
  split_all.
  - intros g Hg. split.
    + destruct s; simpl;
        unfold Global_Debug, Global_Info, Global_Warn, Global_Error; by rewrite Hg.
    + unfold Global_SetLevel. by rewrite Hg.
  - by apply Hnone.
  - unfold Global_SetLevel. by rewrite Hreset.
  - intros config e w' Hg Hinit. apply Hnone.
    pose proof (InitGlobalLogger_new config w Hg) as HN. rewrite Hinit in HN. tauto.
Qed.

(** The instant of the first tick computed by [scheduleDailyTasks]. *)
Definition nextMidnight (w : World) : Z :=
  midnight_of (env_zone (w_env w)) (local_day (env_zone (w_env w)) (w_now w) + 1).

Lemma nsPerDay_pos : 0 < nsPerDay.
Proof. reflexivity. Qed.



(** X4.  The filter is monotone in the severity, and the threshold is not
    confined to the four constants: on a logger with a usable sink, a
    message that is written at one severity is written at every higher
    one; with a threshold above [ErrorLevel] no method writes anything,
    and with a threshold of [DebugLevel] or below every method writes. *)
Theorem X4_filter_monotone_and_out_of_range_thresholds :
  forall (w : World) (p : nat) (l : Logger) (snk : Sink),
    w_heap w !! p = Some l ->
    active_sink p w = Some snk ->
    (forall s s' msg msg',
       sev_level s <= sev_level s' ->
       emitted s p msg snk w -> emitted s' p msg' snk w)
    /\ (ErrorLevel < level l -> forall s msg, sev_call s p msg w = w)
    /\ (level l <= DebugLevel -> forall s msg, emitted s p msg snk w).
Proof.
  intros w p l snk Hl Hs. split_all.
  - intros s s' msg msg' Hle He.
    apply (emitted_iff s p msg snk w l Hl Hs) in He.
    apply (emitted_iff s' p msg' snk w l Hl Hs). lia.
  - intros Hlev s msg. rewrite (sev_call_unfold _ _ _ _ _ Hl).
    destruct (Z.gtb_spec (level l) (sev_level s)) as [|Hle]; [done|].
    destruct s; unfold ErrorLevel, WarnLevel, InfoLevel, DebugLevel in *;
      simpl in Hle; unfold ErrorLevel, WarnLevel, InfoLevel, DebugLevel in *; lia.
  - intros Hlev s msg. apply (emitted_iff s p msg snk w l Hl Hs).
    destruct s; unfold ErrorLevel, WarnLevel, InfoLevel, DebugLevel in *;
      simpl; unfold ErrorLevel, WarnLevel, InfoLevel, DebugLevel in *; lia.
Qed.

Lemma X4_witness :
  w_heap file_world !! 0%nat = Some file_logger
  /\ active_sink 0 file_world = Some (SinkFile 3)
  /\ (emitted SevInfo 0 "started" (SinkFile 3) file_world ->
      emitted SevError 0 "failed" (SinkFile 3) file_world).
Proof.
  assert (w_heap file_world !! 0%nat = Some file_logger) as Hl
    by (vm_compute; reflexivity).
  assert (active_sink 0 file_world = Some (SinkFile 3)) as Hs
    by (vm_compute; reflexivity).
  pose proof (X4_filter_monotone_and_out_of_range_thresholds
                file_world 0 file_logger (SinkFile 3) Hl Hs) as (H & _).
  refine (conj Hl (conj Hs (H SevInfo SevError "started" "failed" _))).
  vm_compute. discriminate.
Defined.

(** The open-file table after the block that closes the current file. *)
Lemma close_current_files p w l :
  w_heap w !! p = Some l ->
  w_files (close_current p w)
  = match currentFile l with
    | Some h =>
        match w_files w !! h with
        | Some f =>
            if of_closed f then w_files w
            else <[h := {| of_ino := of_ino f; of_closed := true |}]> (w_files w)
        | None => w_files w
        end
    | None => w_files w
    end.
Proof.
  intros Hl. unfold close_current. rewrite Hl.
  destruct (currentFile l) as [h|]; [|done].
  unfold File_Close.
  destruct (w_files w !! h) as [f|].
  - destruct (of_closed f).
    + unfold update_logger, log_Printf; simpl; by case_match.
    + destruct (close_err (w_env w) h);
        unfold update_logger, log_Printf; simpl; by case_match.
  - unfold update_logger, log_Printf; simpl; by case_match.
Qed.

Lemma setupFileLogger_unfold p w l :
  w_heap w !! p = Some l ->
  setupFileLogger p w
  = match OpenFile (logDir l) (log_filename (filePrefix l) w) (close_current p w) with
    | (Err e, w2) => (Err ("failed to open log file: " +:+ e), w2)
    | (Ok file, w2) =>
        (Ok tt,
         update_logger p
           (fun l' => set_logger (Some (FileW file)) (set_currentFile (Some file) l'))
           w2)
    end.
Proof.
  intros Hl. unfold setupFileLogger. rewrite Hl.
  pose proof (close_current_frame p w) as (Hst & _).
  by rewrite (log_filename_steady _ _ _ Hst).
Qed.

(** X5.  A rotation never leaks a file handle: whatever its outcome,
    [setupFileLogger] leaves the handle that was the current file closed
    (still on its inode), touches no other handle, and opens at most one
    new one.  On success the logger's current file and its writer are that
    new handle; on failure the logger has no current file and its writer
    is the one it had. *)
Theorem X5_rotation_closes_previous_handle :
  forall (w : World) (p : nat) (l : Logger) (h : nat) (f : OsFile),
    w_heap w !! p = Some l ->
    currentFile l = Some h ->
    w_files w !! h = Some f ->
    let r := setupFileLogger p w in
    w_files (snd r) !! h = Some {| of_ino := of_ino f; of_closed := true |}
    /\ (forall h', h' <> h -> (h' < length (w_files w))%nat ->
                   w_files (snd r) !! h' = w_files w !! h')
    /\ (length (w_files (snd r)) <= S (length (w_files w)))%nat
    /\ (exists l', w_heap (snd r) !! p = Some l'
                   /\ match fst r with
                      | Ok _ => currentFile l' = Some (length (w_files w))
                                /\ logger l' = Some (FileW (length (w_files w)))
                                /\ (exists ino,
                                      w_files (snd r) !! length (w_files w)
                                      = Some {| of_ino := ino; of_closed := false |})
                      | Err _ => currentFile l' = None /\ logger l' = logger l
                      end).
Proof.
  intros w p l h f Hl Hc Hf r. subst r.
  rewrite (setupFileLogger_unfold p w l Hl).
  pose proof (close_current_files p w l Hl) as Hfiles. rewrite Hc, Hf in Hfiles.
  pose proof (close_current_lookup p w l Hl) as Hl1.
  set (w1 := close_current p w) in *.
  assert (w_files w1 !! h = Some {| of_ino := of_ino f; of_closed := true |}
          /\ (forall h', h' <> h -> w_files w1 !! h' = w_files w !! h')
          /\ length (w_files w1) = length (w_files w)) as (Hh1 & Ho1 & Hlen1).
  { rewrite Hfiles. destruct (of_closed f) eqn:Hcl.
    - split_all; try done. rewrite Hf. by destruct f; simpl in *; subst.
    - split_all.
      + apply list_lookup_insert_eq. by eapply lookup_lt_Some.
      + intros h' Hne. by apply list_lookup_insert_ne.
      + apply length_insert. }
  destruct (OpenFile (logDir l) (log_filename (filePrefix l) w) w1)
    as [[file|e] w2] eqn:HO.
  - pose proof (OpenFile_frame (logDir l) (log_filename (filePrefix l) w) w1) as HF.
    rewrite HO in HF. simpl in HF. destruct HF as (_ & _ & _ & _ & Hh2).
    apply OpenFile_ok in HO as (-> & ino & Hf2 & _).
    set (g := fun l' => set_logger _ (set_currentFile _ l')).
    pose proof (update_logger_frame p g w2) as HU. simpl in HU.
    destruct HU as (_ & _ & _ & Hf3 & _). simpl. rewrite Hf3, Hf2.
    apply lookup_lt_Some in Hf as Hlt.
    split_all.
    + rewrite lookup_app_l by lia. done.
    + intros h' Hne Hlt'. rewrite lookup_app_l by lia. by apply Ho1.
    + rewrite length_app. simpl. lia.
    + exists (g (set_currentFile None l)). split.
      * apply update_logger_lookup. by rewrite Hh2.
      * simpl. rewrite <- Hlen1. split_all; try done.
        exists ino. rewrite lookup_app_r by lia. by rewrite Nat.sub_diag.
  - apply OpenFile_err in HO as ->. simpl. split_all; try done.
    + intros h' Hne _. by apply Ho1.
    + lia.
    + exists (set_currentFile None l). by split.
Qed.

Lemma X5_witness :
  w_heap file_world !! 0%nat = Some file_logger
  /\ w_files file_world !! 0%nat = Some {| of_ino := 3; of_closed := false |}
  /\ w_files (snd (setupFileLogger 0 file_world)) !! 0%nat
     = Some {| of_ino := 3; of_closed := true |}.
Proof.
  assert (w_heap file_world !! 0%nat = Some file_logger) as Hl
    by (vm_compute; reflexivity).
  assert (w_files file_world !! 0%nat = Some {| of_ino := 3; of_closed := false |})
    as Hf by (vm_compute; reflexivity).
  pose proof (X5_rotation_closes_previous_handle file_world 0 file_logger 0 _
                Hl eq_refl Hf) as (H & _).
  exact (conj Hl (conj Hf H)).
Defined.

(** X6.  A rotation whose [OpenFile] fails silences the logger: the old
    file is already closed, [l.logger] still points to it, so every later
    severity call returns without writing anything and without reporting
    the failure, until a later rotation succeeds. *)
Theorem X6_failed_rotation_silences_logger :
  forall (w : World) (p : nat) (l : Logger) (h : nat) (e : string) (w' : World),
    w_heap w !! p = Some l ->
    logger l = Some (FileW h) ->
    currentFile l = Some h ->
    setupFileLogger p w = (Err e, w') ->
    w_heap w' !! p = Some (set_currentFile None l)
    /\ active_sink p w' = None
    /\ (forall s msg, sev_call s p msg w' = w')
    /\ w_dirs w' = w_dirs w /\ w_inodes w' = w_inodes w.
Proof.
  intros w p l h e w' Hl Hw Hc Hsetup.
  rewrite (setupFileLogger_unfold p w l Hl) in Hsetup.
  destruct (OpenFile _ _ (close_current p w)) as [[file|e'] w2] eqn:HO; [done|].
  apply OpenFile_err in HO as ->. simplify_eq.
  pose proof (close_current_lookup p w l Hl) as Hl1.
  pose proof (close_current_files p w l Hl) as Hfiles. rewrite Hc in Hfiles.
  pose proof (close_current_frame p w) as (_ & Hd & Hi & _).
  assert (active_sink p (close_current p w) = None) as Hnone.
  { unfold active_sink. rewrite Hl1. simpl. rewrite Hw, Hfiles.
    destruct (w_files w !! h) as [f|] eqn:Hf.
    - destruct (of_closed f) eqn:Hcl.
      + by rewrite Hf, Hcl.
      + rewrite list_lookup_insert_eq by (by eapply lookup_lt_Some). done.
    - by rewrite Hf. }
  split_all; try done.
  intros s msg.
  by apply (sev_call_no_sink s p msg _ (set_currentFile None l) h).
Qed.

Lemma X6_witness :
  let w := set_now (t_0704 + nsPerDay)
             (snd (InitGlobalLogger file_config
                     {| w_env := {| env_zone := 0; env_sort := insertion_sorter;
                                    mkdir_err := fun _ => false;
                                    open_err := fun path =>
                                      String.eqb path "/tmp/logs/cleantest_2023-07-05.log";
                                    close_err := fun _ => false;
                                    readdir_err := fun _ => false;
                                    info_err := fun _ => false;
                                    remove_err := fun _ => false |};
                        w_now := t_0704; w_dirs := ∅; w_inodes := []; w_files := [];
                        w_unlinked := []; w_stdout := []; w_stderr := [];
                        w_heap := []; w_tasks := []; globalLogger := None |})) in
  is_err (fst (setupFileLogger 0 w)) = true
  /\ sev_call SevError 0 "disk failure" (snd (setupFileLogger 0 w))
     = snd (setupFileLogger 0 w).
Proof.
  intros w.
  assert (w_heap w !! 0%nat = Some file_logger) as Hl by (vm_compute; reflexivity).
  destruct (setupFileLogger 0 w) as [[[]|e] w'] eqn:Hs;
    [vm_compute in Hs; discriminate Hs|].
  pose proof (X6_failed_rotation_silences_logger w 0 file_logger 0 e w'
                Hl eq_refl eq_refl Hs) as (_ & _ & H & _).
  exact (conj eq_refl (H SevError "disk failure")).
Defined.

(** The entry [cleanupOldLogs] writes about one removed file. *)
Definition deleted_line (t : Z) (dir name : string) : Line :=
  {| ln_time := t; ln_text := "[INFO] Deleted old log file: " +:+ Join dir name |}.

Lemma sink_output_ext snk w w' :
  w_stdout w' = w_stdout w -> w_inodes w' = w_inodes w ->
  sink_output snk w' = sink_output snk w.
Proof. intros Ho Hi. destruct snk; simpl; by rewrite ?Ho, ?Hi. Qed.

Lemma delete_old_sink p dir names w l snk :
  w_heap w !! p = Some l ->
  active_sink p w = Some snk ->
  exists removed,
    w_unlinked (delete_old p dir names w) = w_unlinked w ++ (Join dir <$> removed)
    /\ sink_output snk (delete_old p dir names w)
       = sink_output snk w ++ (deleted_line (w_now w) dir <$> removed).
Proof.
  revert w. induction names as [|name rest IH]; intros w Hl Hs; simpl.
  - exists []. simpl. by rewrite !app_nil_r.
  - pose proof (Remove_frame dir name w) as HF.
    destruct (Remove dir name w) as [[[]|e] w1] eqn:HR; simpl in HF;
      destruct HF as ((_ & Hn1 & _) & Hi1 & Hf1 & Ho1 & _ & Hh1).
    + apply Remove_ok in HR as (_ & _ & Hu1 & _).
      assert (w_heap w1 !! p = Some l) as Hl1 by congruence.
      assert (active_sink p w1 = Some snk) as Hs1
        by (rewrite (active_sink_eq p w w1); congruence).
      pose proof (log_emits p "INFO" ("Deleted old log file: " +:+ Join dir name)
                    w1 l snk Hl1 Hs1) as Hemit.
      pose proof (log_frame p "INFO" ("Deleted old log file: " +:+ Join dir name) w1) as HL.
      set (w2 := log p "INFO" _ w1) in *. simpl in HL.
      destruct HL as ((_ & Hn2 & _) & _ & Hf2 & Hu2 & _ & Hh2 & Hi2).
      destruct (IH w2) as (removed & Hun & Hout).
      { congruence. }
      { rewrite (active_sink_eq p w1 w2); congruence. }
      exists (name :: removed). split.
      * rewrite Hun, Hu2, Hu1. simpl. by rewrite <- app_assoc.
      * rewrite Hout, Hemit, (sink_output_ext snk w w1) by done.
        rewrite Hn2, Hn1. simpl. by rewrite <- app_assoc.
    + apply Remove_err in HR as ->.
      set (w2 := log_Printf _ w).
      destruct (IH w2) as (removed & Hun & Hout); [done| |].
      { by rewrite (active_sink_eq p w w2). }
      exists removed. split; [done|].
      by rewrite Hout, (sink_output_ext snk w w2).
Qed.

(** The run as the two loops around the sort, with the part of the world
    a sink lives in. *)
Lemma cleanupOldLogs_run_sink p w l files :
  w_heap w !! p = Some l ->
  ReadDir (logDir l) w = Ok files ->
  exists names w1,
    snd (cleanupOldLogs p w) = delete_old p (logDir l) names w1
    /\ w_now w1 = w_now w /\ w_inodes w1 = w_inodes w /\ w_files w1 = w_files w
    /\ w_unlinked w1 = w_unlinked w /\ w_stdout w1 = w_stdout w
    /\ w_heap w1 = w_heap w.
Proof.
  intros Hl Hr. unfold cleanupOldLogs. rewrite Hl, Hr.
  pose proof (collect_old_frame (logDir l) (filePrefix l +:+ "_") ".log" (cutoff l w)
                files [] w) as HC.
  unfold cutoff in HC at 1.
  destruct (collect_old _ _ _ _ files [] w) as [oldFiles w1].
  simpl in *. destruct HC as ((_ & Hn & _) & _ & Hi & Hf & Hu & Ho & Hh).
  by eexists _, w1.
Qed.

(** X7.  The entries about removed files bypass the level filter: on a
    logger with a usable sink, one run of [cleanupOldLogs] appends to the
    sink exactly one [INFO] line per file it removed, in the order of the
    removals and naming the removed path, whatever the threshold of the
    logger (also [ErrorLevel]). *)
Theorem X7_one_info_line_per_removed_file :
  forall (w : World) (p : nat) (l : Logger) (snk : Sink),
    w_heap w !! p = Some l ->
    active_sink p w = Some snk ->
    exists removed,
      w_unlinked (snd (cleanupOldLogs p w))
      = w_unlinked w ++ (Join (logDir l) <$> removed)
      /\ sink_output snk (snd (cleanupOldLogs p w))
         = sink_output snk w ++ (deleted_line (w_now w) (logDir l) <$> removed).
Proof.
  intros w p l snk Hl Hs.
  destruct (ReadDir (logDir l) w) as [files|err] eqn:Hr.
  - destruct (cleanupOldLogs_run_sink p w l files Hl Hr)
      as (names & w1 & Hrun & Hn & Hi & Hf & Hu & Ho & Hh).
    rewrite Hrun.
    destruct (delete_old_sink p (logDir l) names w1 l snk)
      as (removed & Hun & Hout); [congruence| |].
    { rewrite (active_sink_eq p w w1); congruence. }
    exists removed. split; [by rewrite Hun, Hu|].
    by rewrite Hout, (sink_output_ext snk w w1), Hn.
  - exists []. unfold cleanupOldLogs. rewrite Hl, Hr. simpl. by rewrite !app_nil_r.
Qed.

Lemma X7_witness :
  w_heap tie_world !! 0%nat = Some file_logger
  /\ active_sink 0 tie_world = Some (SinkFile 0)
  /\ exists removed,
       w_unlinked (snd (cleanupOldLogs 0 tie_world))
       = w_unlinked tie_world ++ (Join "/tmp/logs" <$> removed)
       /\ sink_output (SinkFile 0) (snd (cleanupOldLogs 0 tie_world))
          = sink_output (SinkFile 0) tie_world
            ++ (deleted_line t_0704 "/tmp/logs" <$> removed).
Proof.
  assert (w_heap tie_world !! 0%nat = Some file_logger) as Hl
    by (vm_compute; reflexivity).
  assert (active_sink 0 tie_world = Some (SinkFile 0)) as Hs
    by (vm_compute; reflexivity).
  exact (conj Hl (conj Hs (X7_one_info_line_per_removed_file
                             tie_world 0 file_logger (SinkFile 0) Hl Hs))).
Defined.

(** Every inode is as it was, or was written at the current instant. *)
Definition fresh_or_same (w w' : World) : Prop :=
  forall ino i', w_inodes w' !! ino = Some i' ->
                 w_inodes w !! ino = Some i' \/ i_mtime i' = w_now w.

Lemma log_fresh_or_same p tag msg w : fresh_or_same w (log p tag msg w).
Proof.
  unfold log, Output, File_Write. intros ino i'.
  repeat case_match; simpl; try (by left).
  destruct (decide (ino = of_ino o)) as [->|Hne].
  - rewrite list_lookup_insert_eq by (by eapply lookup_lt_Some).
    intros [= <-]. by right.
  - rewrite list_lookup_insert_ne by done. by left.
Qed.

Lemma delete_old_fresh_or_same p dir names w :
  fresh_or_same w (delete_old p dir names w).
Proof.
  revert w. induction names as [|name rest IH]; intros w; simpl.
  - intros ino i' H. by left.
  - pose proof (Remove_frame dir name w) as HF.
    destruct (Remove dir name w) as [[[]|e] w1]; simpl in HF;
      destruct HF as ((_ & Hn1 & _) & Hi1 & _).
    + pose proof (log_frame p "INFO" ("Deleted old log file: " +:+ Join dir name) w1)
        as ((_ & Hn2 & _) & _).
      intros ino i' Hi'. destruct (IH _ ino i' Hi') as [Hsame|Hnow].
      * destruct (log_fresh_or_same p _ _ w1 ino i' Hsame) as [Hs|Hs].
        -- left. by rewrite <- Hi1.
        -- right. by rewrite <- Hn1.
      * right. simpl in *. congruence.
    + intros ino i' Hi'. destruct (IH _ ino i' Hi') as [Hsame|Hnow].
      * left. simpl in Hsame. by rewrite <- Hi1.
      * right. simpl in Hnow. congruence.
Qed.

Lemma Date_midnight_le zone now : Date_midnight zone now <= now.
Proof.
  unfold Date_midnight, midnight_of, local_day.
  pose proof (Z.mul_div_le (now + zone * nsPerSecond) nsPerDay nsPerDay_pos). lia.
Qed.

Lemma filter_all_false {A} (f : A -> bool) (l : list A) :
  (forall e, e ∈ l -> f e = false) -> List.filter f l = [].
Proof.
  induction l as [|e r IH]; simpl; [done|]. intros H.
  rewrite H by (apply elem_of_cons; by left).
  apply IH. intros e' He'. apply H. apply elem_of_cons. by right.
Qed.

Lemma cleanupOldLogs_listing_subset p w l e :
  w_heap w !! p = Some l ->
  e ∈ listing (logDir l) (snd (cleanupOldLogs p w)) -> e ∈ listing (logDir l) w.
Proof.
  intros Hl. destruct (ReadDir (logDir l) w) as [files|err] eqn:Hr.
  - destruct (cleanupOldLogs_names p w l files Hl Hr)
      as (names & w0 & Hrun & _ & _ & _ & _ & Hd & _).
    rewrite Hrun. intros He.
    apply (delete_old_dirs p (logDir l) names w0) in He.
    by rewrite (listing_ext _ w w0 Hd) in He.
  - unfold cleanupOldLogs. by rewrite Hl, Hr.
Qed.

(** A run that finds no expired entry changes no directory and removes
    nothing. *)
Lemma cleanupOldLogs_nothing_expired p w l :
  w_heap w !! p = Some l ->
  (forall e, e ∈ listing (logDir l) w -> expired l w e = false) ->
  w_dirs (snd (cleanupOldLogs p w)) = w_dirs w
  /\ w_unlinked (snd (cleanupOldLogs p w)) = w_unlinked w.
Proof.
  intros Hl Hnone. destruct (ReadDir (logDir l) w) as [files|err] eqn:Hr.
  - destruct (cleanupOldLogs_names p w l files Hl Hr)
      as (names & w0 & Hrun & Hperm & _ & _ & _ & Hd & _ & _ & Hu & _).
    apply ReadDir_Ok in Hr as (<- & _).
    pose proof (filter_all_false _ _ Hnone) as Hf.
    rewrite Hf in Hperm. apply Permutation_nil_r in Hperm as ->.
    rewrite Hrun. simpl. done.
  - unfold cleanupOldLogs. by rewrite Hl, Hr.
Qed.

(** X8.  The cleanup is idempotent: when the directory can be listed, no
    removal is refused and the retention is not negative, a second run at
    the same instant removes nothing and leaves the directory as the first
    run left it; no entry of it counts as expired any more. *)
Theorem X8_second_cleanup_removes_nothing :
  forall (w : World) (p : nat) (l : Logger),
    w_heap w !! p = Some l ->
    NoDup (listing (logDir l) w).*1 ->
    readdir_err (w_env w) (logDir l) = false ->
    (forall n, n ∈ expired_names l w ->
               remove_err (w_env w) (Join (logDir l) n) = false) ->
    0 <= retentionDays l ->
    let w1 := snd (cleanupOldLogs p w) in
    let w2 := snd (cleanupOldLogs p w1) in
    expired_names l w1 = []
    /\ w_unlinked w2 = w_unlinked w1
    /\ w_dirs w2 = w_dirs w1.
Proof.
  intros w p l Hl Hnd Hrd Hrm Hret w1 w2.
  pose proof (cleanupOldLogs_frame p w) as ((He1 & Hn1 & _) & _ & Hh1 & _).
  fold w1 in He1, Hn1, Hh1.
  assert (w_heap w1 !! p = Some l) as Hl1 by congruence.
  assert (forall e, e ∈ listing (logDir l) w1 -> expired l w1 e = false) as Hnone.
  { intros [n i] Hin. destruct (expired l w1 (n, i)) eqn:Hx; [|done]. exfalso.
    pose proof (cleanupOldLogs_listing_subset p w l _ Hl Hin) as Hin0.
    assert (fresh_or_same w w1) as Hfs.
    { destruct (ReadDir (logDir l) w) as [files|err] eqn:Hr.
      - destruct (cleanupOldLogs_run_sink p w l files Hl Hr)
          as (names & w0 & Hrun & Hn0 & Hi0 & _).
        unfold w1. rewrite Hrun. intros ino i' Hi'.
        destruct (delete_old_fresh_or_same p (logDir l) names w0 ino i' Hi').
        + left. congruence.
        + right. congruence.
      - unfold w1, cleanupOldLogs. rewrite Hl, Hr. intros ino i' Hi'. by left. }
    unfold expired, candidate, Info_ModTime, IsDir in Hx. simpl in Hx. rewrite He1 in Hx.
    destruct (w_inodes w1 !! i) as [i'|] eqn:Hi'.
    - destruct (Hfs i i' Hi') as [Hsame|Hnow].
      + (* the inode is as it was: the entry was expired before, so it is gone *)
        assert (expired l w (n, i) = true) as Hx0.
        { unfold expired, candidate, Info_ModTime, IsDir. simpl. rewrite Hsame.
          unfold cutoff in *. by rewrite Hn1, He1 in Hx. }
        destruct (cleanupOldLogs_entry p w l n i Hl Hrd Hnd Hin0) as (_ & Hgone).
        specialize (Hgone Hx0).
        apply find_entry_is_Some in Hin. fold w1 in Hgone.
        rewrite <- lookup_name_listing, Hgone in Hin.
        * by destruct Hin.
        * apply Hrm. apply expired_names_elem. eauto.
      + (* the inode was written now: it is not old *)
        destruct (info_err _ _); [by rewrite andb_false_r in Hx|].
        apply andb_true_iff in Hx as [_ Hlt]. apply Z.ltb_lt in Hlt.
        pose proof (Date_midnight_le (env_zone (w_env w)) (w_now w)).
        unfold cutoff, AddDate_days in Hlt. rewrite He1, Hn1 in Hlt.
        unfold nsPerDay, nsPerSecond in *. nia.
    - destruct (info_err _ _); by rewrite andb_false_r in Hx. }
  split.
  - unfold expired_names.
    by rewrite (filter_all_false _ _ Hnone).
  - destruct (cleanupOldLogs_nothing_expired p w1 l Hl1 Hnone) as (Hd & Hu).
    by split.
Qed.

Lemma X8_witness :
  w_heap tie_world !! 0%nat = Some file_logger
  /\ expired_names file_logger (snd (cleanupOldLogs 0 tie_world)) = []
  /\ w_unlinked (snd (cleanupOldLogs 0 (snd (cleanupOldLogs 0 tie_world))))
     = w_unlinked (snd (cleanupOldLogs 0 tie_world)).
Proof.
  assert (w_heap tie_world !! 0%nat = Some file_logger) as Hl
    by (vm_compute; reflexivity).
  assert (NoDup (listing (logDir file_logger) tie_world).*1) as Hnd by compute_done.
  assert (0 <= retentionDays file_logger) as Hret by (vm_compute; discriminate).
  pose proof (X8_second_cleanup_removes_nothing tie_world 0 file_logger Hl Hnd
                eq_refl (fun _ _ => eq_refl) Hret) as (H1 & H2 & _).
  exact (conj Hl (conj H1 H2)).
Defined.

(** The steps of a successful construction of a file logger. *)
Lemma InitGlobalLogger_file_steps config w p w' :
  globalLogger w = None ->
  effective_type config = "file" ->
  InitGlobalLogger config w = (Ok p, w') ->
  exists w1 w3,
    MkdirAll (LogDir config) w = (Ok tt, w1)
    /\ p = length (w_heap w1)
    /\ setupFileLogger p
         (set_heap (w_heap w1 ++
            [{| level := Level config; outputType := "file";
                logDir := LogDir config; filePrefix := FilePrefix config;
                retentionDays := effective_retention config; logger := None;
                currentFile := None; ctx_done := false |}]) w1) = (Ok tt, w3)
    /\ w' = set_global (Some p) (snd (cleanupOldLogs p (scheduleDailyTasks p w3))).
Proof.
  intros Hg Ht. unfold InitGlobalLogger. rewrite Hg.
  fold (effective_type config). fold (effective_retention config). rewrite Ht. simpl.
  unfold validate_file_config.
  destruct (String.eqb (LogDir config) ""); [done|].
  destruct (String.eqb (FilePrefix config) ""); [done|].
  destruct (MkdirAll (LogDir config) w) as [[[]|e] w1]; [|done].
  destruct (setupFileLogger _ _) as [[[]|e] w3] eqn:Hs; [|done].
  destruct (cleanupOldLogs _ _) as [[[]|e] w5] eqn:Hc; [|done].
  intros [= <- <-]. exists w1, w3. by rewrite Hc.
Qed.

Lemma insert_entry_perm e ents : insert_entry e ents ≡ₚ e :: ents.
Proof.
  induction ents as [|e' r IH]; simpl; [done|].
  destruct (String.leb (fst e) (fst e')); [done|].
  rewrite IH. apply perm_swap.
Qed.

Lemma find_entry_unique name ino ents :
  NoDup ents.*1 -> (name, ino) ∈ ents -> find_entry name ents = Some ino.
Proof.
  intros Hnd Hin. destruct (find_entry_is_Some _ _ _ Hin) as (i & Hi).
  rewrite Hi. f_equal. apply find_entry_Some in Hi.
  by eapply names_unique.
Qed.

Lemma delete_old_NoDup p dir names w :
  NoDup (listing dir w).*1 -> NoDup (listing dir (delete_old p dir names w)).*1.
Proof.
  revert w. induction names as [|name rest IH]; intros w Hnd; simpl; [done|].
  destruct (Remove dir name w) as [[[]|e] w1] eqn:HR.
  - apply Remove_ok in HR as (_ & Hl1 & _ & _).
    apply IH.
    pose proof (log_frame p "INFO" ("Deleted old log file: " +:+ Join dir name) w1)
      as (_ & Hd2 & _).
    rewrite (listing_ext _ _ _ Hd2), Hl1. by apply remove_entry_NoDup.
  - apply Remove_err in HR as ->. by apply IH.
Qed.

Lemma cleanupOldLogs_NoDup p w l :
  w_heap w !! p = Some l ->
  NoDup (listing (logDir l) w).*1 ->
  NoDup (listing (logDir l) (snd (cleanupOldLogs p w))).*1.
Proof.
  intros Hl Hnd. destruct (ReadDir (logDir l) w) as [files|err] eqn:Hr.
  - destruct (cleanupOldLogs_names p w l files Hl Hr)
      as (names & w0 & Hrun & _ & _ & _ & _ & Hd & _).
    rewrite Hrun. apply delete_old_NoDup. by rewrite (listing_ext _ w w0 Hd).
  - unfold cleanupOldLogs. by rewrite Hl, Hr.
Qed.

(** X9.  A successful construction of a file logger in a directory that
    has no file of the current day yet (the directory itself may be
    missing) leaves that file in the directory, newly created, and the
    logger writing to it; the first cleanup, which runs during the
    construction, never removes it.  One background goroutine is started,
    with its first tick at the next local midnight. *)
Theorem X9_construction_creates_todays_file :
  forall (config : LoggerConfig) (w : World) (p : nat) (w' : World),
    globalLogger w = None ->
    effective_type config = "file" ->
    NoDup (listing (LogDir config) w).*1 ->
    lookup_name (LogDir config) (log_filename (FilePrefix config) w) w = None ->
    InitGlobalLogger config w = (Ok p, w') ->
    let ino := length (w_inodes w) in
    lookup_name (LogDir config) (log_filename (FilePrefix config) w) w' = Some ino
    /\ active_sink p w' = Some (SinkFile ino)
    /\ (exists i, w_inodes w' !! ino = Some i /\ i_isDir i = false)
    /\ w_tasks w' = w_tasks w ++ [{| task_logger := p; task_next := nextMidnight w |}].
Proof.
  intros config w p w' Hg Ht Hnd Hfresh Hinit ino.
  destruct (InitGlobalLogger_file_steps config w p w' Hg Ht Hinit)
    as (w1 & w3 & Hmk & -> & Hsetup & ->).
  set (dir := LogDir config) in *.
  set (name := log_filename (FilePrefix config) w) in *.
  set (l0 := {| level := Level config |}) in *.
  set (p := length (w_heap w1)) in *.
  set (w2 := set_heap (w_heap w1 ++ [l0]) w1) in *.
  (* the directory after MkdirAll *)
  pose proof (MkdirAll_frame dir w) as HM. rewrite Hmk in HM. simpl in HM.
  destruct HM as ((He1 & Hn1 & _ & Htk1) & Hi1 & Hf1 & _).
  assert (listing dir w1 = listing dir w) as Hlist1.
  { unfold MkdirAll in Hmk. destruct (mkdir_err (w_env w) dir); [done|].
    unfold listing. destruct (w_dirs w !! dir) eqn:Hd; simplify_eq; simpl.
    - by rewrite Hd.
    - by rewrite lookup_insert_eq. }
  assert (is_Some (w_dirs w1 !! dir)) as [ents1 Hents1].
  { unfold MkdirAll in Hmk. destruct (mkdir_err (w_env w) dir); [done|].
    destruct (w_dirs w !! dir) eqn:Hd; simplify_eq; simpl; [eauto|].
    rewrite lookup_insert_eq. eauto. }
  (* the opening creates the file *)
  assert (w_heap w2 !! p = Some l0) as Hl0.
  { subst w2 p. simpl. rewrite lookup_app_r by lia. by rewrite Nat.sub_diag. }
  rewrite (setupFileLogger_fresh p w2 l0 Hl0 eq_refl) in Hsetup.
  assert (log_filename (filePrefix l0) w2 = name) as Hname.
  { unfold name, log_filename. simpl. by rewrite He1, Hn1. }
  rewrite Hname in Hsetup. change (logDir l0) with dir in Hsetup.
  destruct (OpenFile dir name w2) as [[file|e] w2'] eqn:HO; [|done].
  pose proof (OpenFile_frame dir name w2) as HF. rewrite HO in HF. simpl in HF.
  destruct HF as ((He2 & Hn2 & _ & Htk2) & _ & _ & _ & Hh2).
  apply OpenFile_ok in HO as (-> & ino' & Hfiles & Hcase).
  destruct Hcase as [(Hex & _)|(_ & -> & Hinodes & ents & Hents & Hdirs)].
  { rewrite lookup_name_listing in Hex, Hfresh.
    change (listing dir w2) with (listing dir w1) in Hex. congruence. }
  simpl in Hents, Hinodes, Hdirs, Hfiles.
  assert (ents1 = ents) as -> by congruence.
  set (f := fun l' => set_logger _ (set_currentFile _ l')) in *.
  pose proof (update_logger_frame p f w2') as HU. simpl in HU.
  destruct HU as ((He3 & Hn3 & _ & Htk3) & Hd3 & Hi3 & Hf3 & _).
  pose proof (update_logger_lookup p f l0 w2') as Hl3. rewrite Hh2 in Hl3.
  specialize (Hl3 Hl0).
  assert (w3 = update_logger p f w2') as Hw3 by congruence.
  clear Hsetup. rewrite <- Hw3 in *. clear Hw3.
  set (w4 := scheduleDailyTasks p w3) in *.
  assert (w_heap w4 !! p = Some (f l0)) as Hl4 by done.
  assert (listing dir w4 = insert_entry (name, length (w_inodes w1)) ents) as Hlist4.
  { unfold listing. simpl. rewrite Hd3, Hdirs. by rewrite lookup_insert_eq. }
  assert (ents = listing dir w) as Hents_w.
  { rewrite <- Hlist1. unfold listing. by rewrite Hents1. }
  assert (w_inodes w4 !! length (w_inodes w1)
          = Some {| i_isDir := false; i_mtime := w_now w2; i_data := [] |}) as Hino4.
  { simpl. rewrite Hi3, Hinodes. rewrite lookup_app_r by lia.
    by rewrite Nat.sub_diag. }
  (* the cleanup keeps it *)
  assert ((name, length (w_inodes w1)) ∈ listing (logDir (f l0)) w4) as Hin4.
  { simpl. fold dir. rewrite Hlist4, insert_entry_perm. apply elem_of_cons. by left. }
  assert (NoDup (listing (logDir (f l0)) w4).*1) as Hnd4.
  { simpl. fold dir. rewrite Hlist4, insert_entry_perm. simpl.
    apply NoDup_cons. split; [|by rewrite Hents_w].
    rewrite Hents_w. apply find_entry_None. by rewrite <- lookup_name_listing. }
  assert (expired (f l0) w4 (name, length (w_inodes w1)) = false) as Hx.
  { eapply modified_today_not_expired; [exact Hino4| |].
    - simpl. rewrite He3, He2, Hn3, Hn2. simpl. apply Date_midnight_le.
    - simpl. unfold effective_retention. destruct (RetentionDays config <=? 0) eqn:E; [lia|].
      apply Z.leb_gt in E. lia. }
  pose proof (cleanupOldLogs_keeps p w4 (f l0) _ _ Hl4 Hnd4 Hin4 Hx) as Hkeep.
  pose proof (cleanupOldLogs_frame p w4) as HC. simpl in HC.
  destruct HC as ((_ & _ & _ & Htk5) & Hf5 & Hh5 & Hi5).
  pose proof (cleanupOldLogs_append_only p w4 _ _ Hino4) as (i5 & Hi5' & Hdir5 & _).
  pose proof (cleanupOldLogs_NoDup p w4 (f l0) Hl4 Hnd4) as Hnd5.
  unfold ino. rewrite <- Hi1. simpl. split_all.
  - rewrite lookup_name_listing. by apply find_entry_unique.
  - transitivity (active_sink p w3).
    + apply active_sink_eq; simpl; [by rewrite Hh5|by rewrite Hf5|by rewrite Hi5].
    + unfold active_sink. rewrite Hl3. simpl.
      rewrite Hf3, Hfiles. rewrite lookup_app_r by (simpl; lia).
      rewrite Nat.sub_diag. simpl.
      change (w_inodes w3) with (w_inodes w4). by rewrite Hino4.
  - exists i5. split; [done|]. by rewrite Hdir5.
  - rewrite Htk5. simpl. rewrite Htk3, Htk2. simpl. rewrite Htk1.
    unfold nextMidnight. by rewrite He3, He2, Hn3, Hn2, <- He1, <- Hn1.
Qed.

Lemma X9_witness :
  globalLogger empty_dir_world = None
  /\ lookup_name "/tmp/logs" "cleantest_2023-07-04.log" empty_dir_world = None
  /\ lookup_name "/tmp/logs" "cleantest_2023-07-04.log"
       (snd (InitGlobalLogger file_config empty_dir_world)) = Some 0%nat
  /\ active_sink 0 (snd (InitGlobalLogger file_config empty_dir_world))
     = Some (SinkFile 0).
Proof.
  assert (globalLogger empty_dir_world = None) as Hg by reflexivity.
  assert (NoDup (listing (LogDir file_config) empty_dir_world).*1) as Hnd
    by compute_done.
  assert (lookup_name (LogDir file_config)
            (log_filename (FilePrefix file_config) empty_dir_world) empty_dir_world
          = None) as Hfresh by (vm_compute; reflexivity).
  destruct (InitGlobalLogger file_config empty_dir_world) as [[p|e] w'] eqn:Hinit;
    [|vm_compute in Hinit; discriminate Hinit].
  assert (p = 0%nat) as -> by (vm_compute in Hinit; congruence).
  pose proof (X9_construction_creates_todays_file file_config empty_dir_world 0 w'
                Hg eq_refl Hnd Hfresh Hinit) as (H1 & H2 & _).
  exact (conj Hg (conj Hfresh (conj H1 H2))).
Defined.

(* ===================================================================== *)
(** ** The nightly task when the rotation fails *)
(* ===================================================================== *)

(** A logger whose writer is a handle that cannot be written to. *)
Lemma log_no_sink p tag msg w l h :
  w_heap w !! p = Some l -> logger l = Some (FileW h) ->
  active_sink p w = None -> log p tag msg w = w.
Proof.
  intros Hl Hw Hnone. unfold log, Output, File_Write. rewrite Hl, Hw.
  unfold active_sink in Hnone. rewrite Hl, Hw in Hnone.
  destruct (w_files w !! h) as [f|]; [|done].
  destruct (of_closed f); [done|].
  by destruct (w_inodes w !! of_ino f).
Qed.

Lemma delete_old_no_sink p dir names w l h :
  w_heap w !! p = Some l -> logger l = Some (FileW h) ->
  active_sink p w = None ->
  let w' := delete_old p dir names w in
  w_inodes w' = w_inodes w /\ w_stdout w' = w_stdout w
  /\ w_files w' = w_files w /\ w_heap w' = w_heap w.
Proof.
  revert w. induction names as [|name rest IH]; intros w Hl Hw Hnone; simpl; [done|].
  pose proof (Remove_frame dir name w) as HF.
  destruct (Remove dir name w) as [[[]|e] w1] eqn:HR; simpl in HF;
    destruct HF as (_ & Hi1 & Hf1 & Ho1 & _ & Hh1).
  - assert (w_heap w1 !! p = Some l) as Hl1 by congruence.
    assert (active_sink p w1 = None) as Hn1
      by (rewrite (active_sink_eq p w w1); congruence).
    rewrite (log_no_sink p _ _ w1 l h Hl1 Hw Hn1).
    destruct (IH w1 Hl1 Hw Hn1) as (-> & -> & -> & ->). done.
  - set (w2 := log_Printf _ w1).
    assert (w_heap w2 !! p = Some l) as Hl2 by (simpl; congruence).
    assert (active_sink p w2 = None) as Hn2.
    { rewrite (active_sink_eq p w w2); simpl; congruence. }
    destruct (IH w2 Hl2 Hw Hn2) as (-> & -> & -> & ->). done.
Qed.

(** The standard error stream is only appended to. *)
Lemma collect_old_stderr dir prefix suffix cutoffTime files acc w :
  w_stderr w `prefix_of`
    w_stderr (snd (collect_old dir prefix suffix cutoffTime files acc w)).
Proof.
  revert acc w. induction files as [|file rest IH]; intros acc w; simpl; [done|].
  repeat case_match; try apply IH.
  etrans; [|apply IH]. simpl. by apply prefix_app_r.
Qed.

Lemma delete_old_stderr p dir names w :
  w_stderr w `prefix_of` w_stderr (delete_old p dir names w).
Proof.
  revert w. induction names as [|name rest IH]; intros w; simpl; [done|].
  pose proof (Remove_frame dir name w) as HF.
  destruct (Remove dir name w) as [[[]|e] w1]; simpl in HF;
    destruct HF as (_ & _ & _ & _ & He1 & _).
  - etrans; [|apply IH].
    pose proof (log_frame p "INFO" ("Deleted old log file: " +:+ Join dir name) w1)
      as (_ & _ & _ & _ & He2 & _).
    by rewrite He2, He1.
  - etrans; [|apply IH]. simpl. rewrite He1. by apply prefix_app_r.
Qed.

Lemma cleanupOldLogs_stderr p w :
  w_stderr w `prefix_of` w_stderr (snd (cleanupOldLogs p w)).
Proof.
  unfold cleanupOldLogs.
  destruct (w_heap w !! p) as [l|]; [|done].
  destruct (ReadDir (logDir l) w) as [files|e]; [|done].
  match goal with |- context [collect_old ?a ?b ?c ?d ?e ?f ?g] =>
    pose proof (collect_old_stderr a b c d e f g) as HC;
    destruct (collect_old a b c d e f g) as [oldFiles w1] end.
  simpl in *. etrans; [exact HC|]. apply delete_old_stderr.
Qed.

(** What the first loop of the cleanup looks at. *)
Lemma expired_ext l l' w w' e :
  logDir l' = logDir l -> filePrefix l' = filePrefix l ->
  retentionDays l' = retentionDays l ->
  w_env w' = w_env w -> w_now w' = w_now w -> w_inodes w' = w_inodes w ->
  expired l' w' e = expired l w e.
Proof.
  intros Hd Hp Hr He Hn Hi.
  unfold expired, candidate, cutoff, IsDir, Info_ModTime.
  by rewrite Hd, Hp, Hr, He, Hn, Hi.
Qed.

Lemma filter_ext_eq {A} (f g : A -> bool) (l : list A) :
  (forall x, f x = g x) -> List.filter f l = List.filter g l.
Proof. intros H. induction l as [|x r IH]; simpl; [done|]. by rewrite H, IH. Qed.

(** The run as the two loops around the sort, with everything the first
    loop leaves alone. *)
Lemma cleanupOldLogs_run_all p w l files :
  w_heap w !! p = Some l ->
  ReadDir (logDir l) w = Ok files ->
  exists names w1,
    snd (cleanupOldLogs p w) = delete_old p (logDir l) names w1
    /\ names ≡ₚ (List.filter (expired l w) files).*1
    /\ w_env w1 = w_env w /\ w_dirs w1 = w_dirs w /\ w_inodes w1 = w_inodes w
    /\ w_files w1 = w_files w /\ w_unlinked w1 = w_unlinked w
    /\ w_stdout w1 = w_stdout w /\ w_heap w1 = w_heap w.
Proof.
  intros Hl Hr. unfold cleanupOldLogs. rewrite Hl, Hr.
  pose proof (collect_old_names (logDir l) (filePrefix l +:+ "_") ".log" (cutoff l w)
                files [] w) as Hn.
  pose proof (collect_old_frame (logDir l) (filePrefix l +:+ "_") ".log" (cutoff l w)
                files [] w) as HC.
  unfold cutoff in Hn, HC at 1.
  destruct (collect_old _ _ _ _ files [] w) as [oldFiles w1].
  simpl in *. destruct HC as ((He & _) & Hd & Hi & Hf & Hu & Ho & Hh).
  eexists _, w1. subst oldFiles. split; [reflexivity|].
  split_all; try done. apply sort_slice_perm.
Qed.

(** A day later than [cleanup_world], on a system that refuses to create
    the log file of the new day. *)
Definition refused_open_world : World :=
  set_now (t_0704 + nsPerDay)
    (snd (InitGlobalLogger file_config
            {| w_env := {| env_zone := 0; env_sort := insertion_sorter;
                           mkdir_err := fun _ => false;
                           open_err := fun path =>
                             String.eqb path "/tmp/logs/cleantest_2023-07-05.log";
                           close_err := fun _ => false;
                           readdir_err := fun _ => false;
                           info_err := fun _ => false;
                           remove_err := fun _ => false |};
               w_now := t_0704;
               w_dirs := w_dirs (cleanup_world insertion_sorter);
               w_inodes := w_inodes (cleanup_world insertion_sorter);
               w_files := []; w_unlinked := []; w_stdout := []; w_stderr := [];
               w_heap := []; w_tasks := []; globalLogger := None |})).

(** X11.  A failed rotation does not stop the nightly task:
    [rotateAndCleanup] reports the failure on the standard logger and
    goes on to the cleanup.  The expired files are removed as usual, but
    the logger's writer is the closed handle of the previous day, so not
    one line about the removals is written anywhere: no file content and
    no standard output changes. *)
Theorem X11_failed_rotation_still_cleans_up_unrecorded :
  forall (w : World) (p : nat) (l : Logger) (h : nat) (e : string) (w1 : World),
    w_heap w !! p = Some l ->
    logger l = Some (FileW h) ->
    currentFile l = Some h ->
    setupFileLogger p w = (Err e, w1) ->
    let w' := rotateAndCleanup p w in
    (exists removed,
        w_unlinked w' = w_unlinked w ++ (Join (logDir l) <$> removed)
        /\ (NoDup (listing (logDir l) w).*1 ->
            readdir_err (w_env w) (logDir l) = false ->
            (forall n, n ∈ expired_names l w ->
                       remove_err (w_env w) (Join (logDir l) n) = false) ->
            removed ≡ₚ expired_names l w))
    /\ w_inodes w' = w_inodes w
    /\ w_stdout w' = w_stdout w
    /\ active_sink p w' = None
    /\ ("Error rotating log file: " +:+ e) ∈ w_stderr w'.
Proof.
  intros w p l h e w1 Hl Hw Hc Hsetup w'.
  subst w'. unfold rotateAndCleanup. rewrite Hsetup.
  rewrite (setupFileLogger_unfold p w l Hl) in Hsetup.
  destruct (OpenFile _ _ (close_current p w)) as [[file|e'] w2] eqn:HO; [done|].
  apply OpenFile_err in HO as ->. injection Hsetup as <- <-.
  pose proof (close_current_lookup p w l Hl) as Hl1.
  pose proof (close_current_files p w l Hl) as Hfiles. rewrite Hc in Hfiles.
  pose proof (close_current_frame p w) as ((He1 & Hn1 & _) & Hd1 & Hi1 & Hu1 & Ho1 & _).
  set (l1 := set_currentFile None l) in *.
  assert (active_sink p (close_current p w) = None) as Hnone.
  { unfold active_sink. rewrite Hl1. simpl. rewrite Hw, Hfiles.
    destruct (w_files w !! h) as [f|] eqn:Hf.
    - destruct (of_closed f) eqn:Hcl.
      + by rewrite Hf, Hcl.
      + rewrite list_lookup_insert_eq by (by eapply lookup_lt_Some). done.
    - by rewrite Hf. }
  set (msg := "Error rotating log file: " +:+ ("failed to open log file: " +:+ e')).
  set (w2 := log_Printf msg (close_current p w)).
  assert (w_heap w2 !! p = Some l1) as Hl2 by done.
  assert (active_sink p w2 = None) as Hnone2.
  { by rewrite (active_sink_eq p (close_current p w) w2). }
  assert (msg ∈ w_stderr w2) as Hmsg.
  { simpl. apply elem_of_app. right. apply elem_of_cons. by left. }
  pose proof (cleanupOldLogs_stderr p w2) as Herr.
  assert (exists removed,
            w_unlinked (snd (cleanupOldLogs p w2))
            = w_unlinked w ++ (Join (logDir l) <$> removed)
            /\ (NoDup (listing (logDir l) w).*1 ->
                readdir_err (w_env w) (logDir l) = false ->
                (forall n, n ∈ expired_names l w ->
                           remove_err (w_env w) (Join (logDir l) n) = false) ->
                removed ≡ₚ expired_names l w)
            /\ w_inodes (snd (cleanupOldLogs p w2)) = w_inodes w
            /\ w_stdout (snd (cleanupOldLogs p w2)) = w_stdout w
            /\ w_files (snd (cleanupOldLogs p w2)) = w_files w2
            /\ w_heap (snd (cleanupOldLogs p w2)) = w_heap w2) as Hmain.
  { destruct (ReadDir (logDir l1) w2) as [files|err] eqn:Hr.
    - destruct (cleanupOldLogs_run_all p w2 l1 files Hl2 Hr)
        as (names & w3 & Hrun & Hperm & He3 & Hd3 & Hi3 & Hf3 & Hu3 & Ho3 & Hh3).
      apply ReadDir_Ok in Hr as (<- & _).
      assert (w_heap w3 !! p = Some l1) as Hl3 by congruence.
      assert (active_sink p w3 = None) as Hnone3.
      { rewrite (active_sink_eq p w2 w3); congruence. }
      destruct (delete_old_no_sink p (logDir l1) names w3 l1 h Hl3 Hw Hnone3)
        as (Hi4 & Ho4 & Hf4 & Hh4).
      destruct (delete_old_unlinked p (logDir l1) names w3)
        as (removed & Hun & _ & Hall).
      assert ((List.filter (expired l1 w2) (listing (logDir l1) w2)).*1
              = expired_names l w) as Hexp.
      { unfold expired_names. change (logDir l1) with (logDir l).
        rewrite (listing_ext (logDir l) w w2) by done.
        f_equal. apply filter_ext_eq. intros x. by apply expired_ext. }
      exists removed. rewrite Hrun. split_all.
      + rewrite Hun, Hu3. simpl. by rewrite Hu1.
      + intros Hnd Hrd Hrm. rewrite Hall; [by rewrite Hperm, Hexp| |].
        * rewrite Hperm, Hexp. unfold expired_names. by apply filter_names_NoDup.
        * intros n Hn. rewrite Hperm, Hexp in Hn. split.
          -- rewrite He3. simpl. rewrite He1. by apply Hrm.
          -- unfold expired_names in Hn.
             apply expired_names_elem in Hn as (ino & Hin & _).
             rewrite lookup_name_listing, (listing_ext _ w2 w3 Hd3).
             change (logDir l1) with (logDir l).
             rewrite (listing_ext (logDir l) w w2) by done.
             by eapply find_entry_is_Some.
      + rewrite Hi4, Hi3. simpl. done.
      + rewrite Ho4, Ho3. simpl. done.
      + by rewrite Hf4, Hf3.
      + by rewrite Hh4, Hh3.
    - exists []. unfold cleanupOldLogs. rewrite Hl2, Hr. simpl. split_all; try done.
      + by rewrite app_nil_r.
      + intros _ Hrd _. unfold ReadDir in Hr. simpl in Hr.
        rewrite He1 in Hr. change (logDir l1) with (logDir l) in Hr.
        rewrite Hrd, Hd1 in Hr. unfold expired_names, listing.
        by destruct (w_dirs w !! logDir l). }
  destruct Hmain as (removed & Hun & Hperm & Hi & Ho & Hf & Hh).
  assert (active_sink p (snd (cleanupOldLogs p w2)) = None) as Hnone5.
  { rewrite <- Hnone2. apply active_sink_eq; [by rewrite Hh|done|].
    rewrite Hi. simpl. by rewrite Hi1. }
  assert (msg ∈ w_stderr (snd (cleanupOldLogs p w2))) as Hmsg5.
  { destruct Herr as [k ->]. apply elem_of_app. by left. }
  destruct (cleanupOldLogs p w2) as [[[]|e2] w5]; simpl in *.
  - split_all; eauto.
  - split_all; eauto. apply elem_of_app. by left.
Qed.

Lemma X11_witness :
  is_err (fst (setupFileLogger 0 refused_open_world)) = true
  /\ (exists removed,
         w_unlinked (rotateAndCleanup 0 refused_open_world)
         = w_unlinked refused_open_world ++ (Join "/tmp/logs" <$> removed)
         /\ removed ≡ₚ ["cleantest_2023-07-03.log"])
  /\ w_inodes (rotateAndCleanup 0 refused_open_world) = w_inodes refused_open_world
  /\ active_sink 0 (rotateAndCleanup 0 refused_open_world) = None.
Proof.
  assert (w_heap refused_open_world !! 0%nat = Some file_logger) as Hl
    by (vm_compute; reflexivity).
  assert (NoDup (listing (logDir file_logger) refused_open_world).*1) as Hnd
    by compute_done.
  assert (expired_names file_logger refused_open_world
          = ["cleantest_2023-07-03.log"]) as Hexp by (vm_compute; reflexivity).
  destruct (setupFileLogger 0 refused_open_world) as [[[]|e] w1] eqn:Hs;
    [vm_compute in Hs; discriminate Hs|].
  pose proof (X11_failed_rotation_still_cleans_up_unrecorded
                refused_open_world 0 file_logger 0 e w1 Hl eq_refl eq_refl Hs)
    as ((removed & Hun & Hperm) & Hi & _ & Hn & _).
  specialize (Hperm Hnd eq_refl (fun _ _ => eq_refl)).
  rewrite Hexp in Hperm.
  refine (conj eq_refl (conj _ (conj Hi Hn))).
  exists removed. exact (conj Hun Hperm).
Defined.

(* ===================================================================== *)
(** ** A construction that fails after the file was opened *)
(* ===================================================================== *)

Lemma update_logger_last f hp l0 w :
  w_heap w = hp ++ [l0] ->
  w_heap (update_logger (length hp) f w) = hp ++ [f l0].
Proof.
  intros H. unfold update_logger. rewrite H.
  rewrite lookup_app_r by lia. rewrite Nat.sub_diag. simpl.
  rewrite insert_app_r_alt by lia. by rewrite Nat.sub_diag.
Qed.

(** A log directory that exists and can be written to but not listed. *)
Definition unlistable_world : World :=
  {| w_env := {| env_zone := 0; env_sort := insertion_sorter;
                 mkdir_err := fun _ => false; open_err := fun _ => false;
                 close_err := fun _ => false;
                 readdir_err := fun dir => String.eqb dir "/tmp/logs";
                 info_err := fun _ => false; remove_err := fun _ => false |};
     w_now := t_0704; w_dirs := {[ "/tmp/logs" := [] ]};
     w_inodes := []; w_files := []; w_unlinked := []; w_stdout := [];
     w_stderr := []; w_heap := []; w_tasks := []; globalLogger := None |}.

(** X12.  When the construction of a file logger gets as far as the
    first cleanup and the log directory cannot be listed,
    [InitGlobalLogger] returns the error and registers no singleton, but
    what it did before stays: the log file of the day exists, the handle
    opened on it is never closed, and the goroutine of the daily task
    has been started, on a logger whose context is cancelled.  Nothing
    is removed. *)
Theorem X12_failed_first_cleanup_leaves_file_open :
  forall (config : LoggerConfig) (w : World),
    globalLogger w = None ->
    effective_type config = "file" ->
    LogDir config <> "" ->
    FilePrefix config <> "" ->
    mkdir_fails config w = false ->
    open_fails config w = false ->
    readdir_err (w_env w) (LogDir config) = true ->
    let w' := snd (InitGlobalLogger config w) in
    fst (InitGlobalLogger config w)
    = Err ("failed to clean up old logs: failed to read log directory: open "
           +:+ LogDir config)
    /\ globalLogger w' = None
    /\ (exists ino,
          w_files w' = w_files w ++ [{| of_ino := ino; of_closed := false |}]
          /\ lookup_name (LogDir config) (log_filename (FilePrefix config) w) w'
             = Some ino)
    /\ (exists l',
          w_heap w' = w_heap w ++ [l']
          /\ ctx_done l' = true
          /\ currentFile l' = Some (length (w_files w)))
    /\ w_tasks w' = w_tasks w ++ [{| task_logger := length (w_heap w);
                                      task_next := nextMidnight w |}]
    /\ w_unlinked w' = w_unlinked w.
Proof.
  intros config w Hg Ht Hdir Hpre Hmk Hop Hrd w'. subst w'.
  unfold InitGlobalLogger. rewrite Hg.
  fold (effective_type config). fold (effective_retention config).
  rewrite Ht. simpl. unfold validate_file_config.
  destruct (String.eqb_spec (LogDir config) "") as [|_]; [done|].
  destruct (String.eqb_spec (FilePrefix config) "") as [|_]; [done|].
  unfold mkdir_fails in Hmk. unfold open_fails in Hop.
  pose proof (MkdirAll_frame (LogDir config) w) as HM.
  destruct (MkdirAll (LogDir config) w) as [[[]|e] w1]; [|done].
  simpl in HM, Hop. destruct HM as ((He1 & Hn1 & Hg1 & Ht1) & Hi1 & Hf1 & Hu1 & _ & _ & Hh1).
  set (l0 := {| level := Level config |}).
  set (w2 := set_heap (w_heap w1 ++ [l0]) w1).
  set (p := length (w_heap w1)).
  assert (w_heap w2 !! p = Some l0) as Hl0.
  { subst w2 p. simpl. rewrite lookup_app_r by lia. by rewrite Nat.sub_diag. }
  rewrite (setupFileLogger_fresh p w2 l0 Hl0 eq_refl).
  assert (log_filename (filePrefix l0) w2 = log_filename (FilePrefix config) w) as ->.
  { unfold log_filename. simpl. by rewrite He1, Hn1. }
  set (name := log_filename (FilePrefix config) w) in *.
  destruct (OpenFile_ext (LogDir config) name w2 w1) as (HE1 & _); try done.
  change (logDir l0) with (LogDir config).
  rewrite <- HE1 in Hop.
  pose proof (OpenFile_frame (LogDir config) name w2) as HO.
  destruct (OpenFile (LogDir config) name w2) as [[file|e] w3] eqn:HOpen; [|done].
  simpl in HO. destruct HO as ((He3 & Hn3 & Hg3 & Ht3) & Hu3 & _ & _ & Hh3).
  apply OpenFile_ok in HOpen as (-> & ino & Hfiles & Hcase).
  assert (lookup_name (LogDir config) name w3 = Some ino) as Hlk3.
  { unfold lookup_name in *.
    destruct Hcase as [(Hn & _ & -> & _) | (Hn & _ & _ & ents & Hents & ->)]; [done|].
    rewrite lookup_insert_eq. apply find_entry_insert_entry.
    by rewrite Hents in Hn. }
  set (f := fun l' => set_logger _ (set_currentFile _ l')) in *.
  pose proof (update_logger_frame p f w3) as HU. simpl in HU.
  destruct HU as ((He4 & Hn4 & Hg4 & Ht4) & Hd4 & Hi4 & Hfl4 & Hu4 & _).
  assert (w_heap (update_logger p f w3) = w_heap w1 ++ [f l0]) as Hh4.
  { apply update_logger_last. by rewrite Hh3. }
  set (w4 := update_logger p f w3) in *.
  set (w5 := scheduleDailyTasks p w4).
  assert (w_heap w5 !! p = Some (f l0)) as Hl5.
  { subst w5 p. simpl. rewrite Hh4, lookup_app_r by lia. by rewrite Nat.sub_diag. }
  unfold cleanupOldLogs. rewrite Hl5.
  assert (ReadDir (logDir (f l0)) w5 = Err ("open " +:+ LogDir config)) as ->.
  { unfold ReadDir. simpl. rewrite He4, He3. simpl. by rewrite He1, Hrd. }
  simpl.
  pose proof (update_logger_frame p (set_ctx_done true) w5) as HU. simpl in HU.
  destruct HU as ((He6 & Hn6 & Hg6 & Ht6) & Hd6 & Hi6 & Hfl6 & Hu6 & _).
  assert (w_heap (update_logger p (set_ctx_done true) w5)
          = w_heap w1 ++ [set_ctx_done true (f l0)]) as Hh6.
  { apply update_logger_last. exact Hh4. }
  split_all.
  - done.
  - rewrite Hg6. simpl. rewrite Hg4, Hg3. simpl. by rewrite Hg1.
  - exists ino. split.
    + rewrite Hfl6. simpl. rewrite Hfl4, Hfiles. simpl. by rewrite Hf1.
    + unfold lookup_name in *. rewrite Hd6. simpl. by rewrite Hd4.
  - eexists. split; [|split].
    + rewrite Hh6. by rewrite Hh1.
    + done.
    + simpl. by rewrite Hf1.
  - rewrite Ht6. simpl. rewrite Ht4, Ht3. simpl. rewrite Ht1. unfold p, nextMidnight.
    rewrite Hh1, He4, He3, Hn4, Hn3. simpl. by rewrite He1, Hn1.
  - rewrite Hu6. simpl. rewrite Hu4, Hu3. done.
Qed.

Lemma X12_witness :
  is_err (fst (InitGlobalLogger file_config unlistable_world)) = true
  /\ globalLogger (snd (InitGlobalLogger file_config unlistable_world)) = None
  /\ w_files (snd (InitGlobalLogger file_config unlistable_world))
     = [{| of_ino := 0; of_closed := false |}].
Proof.
  assert (LogDir file_config <> "") as Hd by (vm_compute; discriminate).
  assert (FilePrefix file_config <> "") as Hp by (vm_compute; discriminate).
  pose proof (X12_failed_first_cleanup_leaves_file_open file_config unlistable_world
                eq_refl eq_refl Hd Hp eq_refl eq_refl eq_refl)
    as (He & Hg & (ino & Hf & Hlk) & _).
  split; [by rewrite He|]. split; [exact Hg|].
  assert (ino = 0%nat) as Hino.
  { vm_compute in Hlk. by injection Hlk as <-. }
  rewrite Hf, Hino. reflexivity.
Defined.

(* ===================================================================== *)
(** ** A removal the system refuses *)
(* ===================================================================== *)

Lemma delete_old_refused p dir names w n i :
  remove_err (w_env w) (Join dir n) = true ->
  (n, i) ∈ listing dir w ->
  (n, i) ∈ listing dir (delete_old p dir names w).
Proof.
  revert w. induction names as [|name rest IH]; intros w Hrm Hin; simpl; [done|].
  pose proof (Remove_frame dir name w) as HF.
  destruct (Remove dir name w) as [[[]|e] w1] eqn:HR; simpl in HF;
    destruct HF as ((He1 & _) & _).
  - assert (n <> name) as Hne.
    { intros ->. unfold Remove in HR. by rewrite Hrm in HR. }
    apply Remove_ok in HR as (_ & Hl1 & _ & _).
    pose proof (log_frame p "INFO" ("Deleted old log file: " +:+ Join dir name) w1) as HL.
    set (w2 := log p "INFO" _ w1) in *. simpl in HL.
    destruct HL as ((He2 & _) & Hd2 & _).
    apply IH; [by rewrite He2, He1|].
    rewrite (listing_ext dir w1 w2 Hd2), Hl1. by apply remove_entry_keeps.
  - apply Remove_err in HR as ->. by apply IH.
Qed.

Lemma delete_old_warns p dir names w n :
  n ∈ names ->
  remove_err (w_env w) (Join dir n) = true ->
  ("Warning: failed to delete old log file " +:+ Join dir n +:+ ": "
   +:+ ("remove " +:+ Join dir n)) ∈ w_stderr (delete_old p dir names w).
Proof.
  revert w. induction names as [|name rest IH]; intros w Hn Hrm; simpl.
  - by apply elem_of_nil in Hn.
  - pose proof (Remove_frame dir name w) as HF.
    destruct (decide (n = name)) as [->|Hne].
    + unfold Remove in *. rewrite Hrm in *. simpl.
      match goal with |- _ ∈ w_stderr (delete_old _ _ _ ?w2) =>
        destruct (delete_old_stderr p dir rest w2) as [k ->] end.
      simpl. rewrite <- app_assoc. apply elem_of_app. right.
      apply elem_of_cons. by left.
    + apply elem_of_cons in Hn as [?|Hn]; [done|].
      destruct (Remove dir name w) as [[[]|e] w1] eqn:HR; simpl in HF;
        destruct HF as ((He1 & _) & _).
      * pose proof (log_frame p "INFO" ("Deleted old log file: " +:+ Join dir name) w1)
          as ((He2 & _) & _).
        apply IH; [done|]. by rewrite He2, He1.
      * apply IH; [done|]. simpl. by rewrite He1.
Qed.

Lemma delete_old_unlinked_allowed p dir names w :
  exists paths,
    w_unlinked (delete_old p dir names w) = w_unlinked w ++ paths
    /\ forall path, path ∈ paths -> remove_err (w_env w) path = false.
Proof.
  revert w. induction names as [|name rest IH]; intros w; simpl.
  - exists []. split; [by rewrite app_nil_r|]. intros path H. by apply elem_of_nil in H.
  - pose proof (Remove_frame dir name w) as HF.
    destruct (Remove dir name w) as [[[]|e] w1] eqn:HR; simpl in HF;
      destruct HF as ((He1 & _) & _).
    + assert (remove_err (w_env w) (Join dir name) = false) as Hok.
      { unfold Remove in HR. by destruct (remove_err (w_env w) (Join dir name)). }
      apply Remove_ok in HR as (_ & _ & Hu1 & _).
      pose proof (log_frame p "INFO" ("Deleted old log file: " +:+ Join dir name) w1) as HL.
      set (w2 := log p "INFO" _ w1) in *. simpl in HL.
      destruct HL as ((He2 & _) & _ & _ & Hu2 & _).
      destruct (IH w2) as (paths & Hun & Hall).
      exists (Join dir name :: paths). split.
      * rewrite Hun, Hu2, Hu1. by rewrite <- app_assoc.
      * intros path [->|Hp]%elem_of_cons; [done|].
        rewrite <- He1, <- He2. by apply Hall.
    + apply Remove_err in HR as ->.
      destruct (IH (log_Printf ("Warning: failed to delete old log file "
                                +:+ Join dir name +:+ ": " +:+ e) w))
        as (paths & Hun & Hall).
      exists paths. split; [exact Hun|exact Hall].
Qed.

(** The directory of [tie_world] on a system that refuses to remove one
    of the old files. *)
Definition refused_remove_world : World :=
  {| w_env := {| env_zone := 0; env_sort := legacy_sorter;
                 mkdir_err := fun _ => false; open_err := fun _ => false;
                 close_err := fun _ => false; readdir_err := fun _ => false;
                 info_err := fun _ => false;
                 remove_err := fun path =>
                   String.eqb path "/tmp/logs/cleantest_c.log" |};
     w_now := w_now tie_world; w_dirs := w_dirs tie_world;
     w_inodes := w_inodes tie_world; w_files := w_files tie_world;
     w_unlinked := w_unlinked tie_world; w_stdout := w_stdout tie_world;
     w_stderr := w_stderr tie_world; w_heap := w_heap tie_world;
     w_tasks := w_tasks tie_world; globalLogger := globalLogger tie_world |}.

(** X13.  A removal that [os.Remove] refuses is not fatal.  The cleanup
    still returns no error; the refused file stays in the directory and a
    warning that names its path goes to the standard logger; every other
    expired file whose removal is not refused is removed all the same. *)
Theorem X13_refused_removal_is_skipped :
  forall (w : World) (p : nat) (l : Logger) (name : string) (ino : nat),
    w_heap w !! p = Some l ->
    readdir_err (w_env w) (logDir l) = false ->
    NoDup (listing (logDir l) w).*1 ->
    (name, ino) ∈ listing (logDir l) w ->
    expired l w (name, ino) = true ->
    remove_err (w_env w) (Join (logDir l) name) = true ->
    let w' := snd (cleanupOldLogs p w) in
    fst (cleanupOldLogs p w) = Ok tt
    /\ (name, ino) ∈ listing (logDir l) w'
    /\ (exists paths, w_unlinked w' = w_unlinked w ++ paths
                      /\ Join (logDir l) name ∉ paths)
    /\ ("Warning: failed to delete old log file " +:+ Join (logDir l) name
        +:+ ": remove " +:+ Join (logDir l) name) ∈ w_stderr w'
    /\ (forall n i, (n, i) ∈ listing (logDir l) w ->
                    expired l w (n, i) = true ->
                    remove_err (w_env w) (Join (logDir l) n) = false ->
                    lookup_name (logDir l) n w' = None).
Proof.
  intros w p l name ino Hl Hrd Hnd Hin Hx Hrm w'.
  pose proof (ReadDir_listing _ _ _ Hrd Hin) as Hr.
  destruct (cleanupOldLogs_run_all p w l _ Hl Hr)
    as (names & w1 & Hrun & Hperm & He & Hd & Hi & Hf & Hu & Ho & Hh).
  assert (name ∈ names) as Hn.
  { rewrite Hperm. apply expired_names_elem. eauto. }
  split_all.
  - unfold cleanupOldLogs. rewrite Hl, Hr. by destruct (collect_old _ _ _ _ _ _ _).
  - subst w'. rewrite Hrun. apply delete_old_refused; [by rewrite He|].
    by rewrite (listing_ext _ w w1 Hd).
  - destruct (delete_old_unlinked_allowed p (logDir l) names w1) as (paths & Hun & Hall).
    exists paths. subst w'. rewrite Hrun, Hun, Hu. split; [done|].
    intros Hp. apply Hall in Hp. rewrite He in Hp. congruence.
  - subst w'. rewrite Hrun. apply delete_old_warns; [done|by rewrite He].
  - intros n i Hin' Hx' Hrm'.
    destruct (cleanupOldLogs_entry p w l n i Hl Hrd Hnd Hin') as (_ & Hgone).
    by apply Hgone.
Qed.

Lemma X13_witness :
  ("cleantest_c.log", 3%nat) ∈ listing "/tmp/logs" (snd (cleanupOldLogs 0 refused_remove_world))
  /\ lookup_name "/tmp/logs" "cleantest_d.log" (snd (cleanupOldLogs 0 refused_remove_world))
     = None.
Proof.
  assert (w_heap refused_remove_world !! 0%nat = Some file_logger) as Hl
    by (vm_compute; reflexivity).
  assert (NoDup (listing (logDir file_logger) refused_remove_world).*1) as Hnd
    by compute_done.
  assert (("cleantest_c.log", 3%nat) ∈ listing (logDir file_logger) refused_remove_world)
    as Hin by compute_done.
  assert (("cleantest_d.log", 4%nat) ∈ listing (logDir file_logger) refused_remove_world)
    as Hin' by compute_done.
  assert (expired file_logger refused_remove_world ("cleantest_c.log", 3%nat) = true)
    as Hx by (vm_compute; reflexivity).
  assert (expired file_logger refused_remove_world ("cleantest_d.log", 4%nat) = true)
    as Hx' by (vm_compute; reflexivity).
  pose proof (X13_refused_removal_is_skipped refused_remove_world 0 file_logger
                "cleantest_c.log" 3 Hl eq_refl Hnd Hin Hx eq_refl)
    as (_ & Hstay & _ & _ & Hothers).
  exact (conj Hstay (Hothers "cleantest_d.log" 4%nat Hin' Hx' eq_refl)).
Defined.

(* ===================================================================== *)
(** ** Progress of the goroutines *)
(* ===================================================================== *)

Module ConcProgress.
Import Conc ConcFacts.

(** The mutex is held by a goroutine of the pool. *)
Definition holder_known (st : State) : Prop :=
  forall t, st_mu st = Some t -> is_Some (st_threads st !! t).

Lemma holder_known_step t st st' :
  holder_known st -> step t st = Some st' -> holder_known st'.
Proof.
  intros HK Hstep t' Hmu. unfold step in Hstep.
  destruct (st_threads st !! t) as [[m [|ins rest]]|] eqn:Ht; try done.
  assert (forall r, is_Some (<[t := (m, r)]> (st_threads st) !! t)) as Hself.
  { intros r. rewrite list_lookup_insert_eq by (by eapply lookup_lt_Some). eauto. }
  assert (forall r, st_mu st = Some t' ->
                    is_Some (<[t := (m, r)]> (st_threads st) !! t')) as Hother.
  { intros r Hm. destruct (decide (t' = t)) as [->|Hne]; [apply Hself|].
    rewrite list_lookup_insert_ne by done. by apply HK. }
  destruct ins; simpl in Hstep.
  - destruct (st_level st >? sev_level s); simplify_eq; simpl in *; by apply Hother.
  - destruct (st_mu st); simplify_eq. simpl in *. simplify_eq. apply Hself.
  - destruct (holds t st); simplify_eq.
  - simplify_eq. simpl in *. by apply Hother.
  - simplify_eq. simpl in *. by apply Hother.
  - simplify_eq. simpl in *. by apply Hother.
  - simplify_eq. simpl in *. by apply Hother.
  - simplify_eq. simpl in *. by apply Hother.
Qed.

Lemma holder_known_run schedule st st' :
  holder_known st -> run schedule st = Some st' -> holder_known st'.
Proof.
  revert st. induction schedule as [|t sch IH]; intros st HK; simpl.
  - by intros [= <-].
  - destruct (step t st) as [st1|] eqn:Hs; [|done].
    apply IH. by eapply holder_known_step.
Qed.

(** When a goroutine can make its next access. *)
Lemma step_enabled t st m ins rest :
  st_threads st !! t = Some (m, ins :: rest) ->
  (ins = Lock -> st_mu st = None) ->
  (ins = Unlock -> holds t st = true) ->
  is_Some (step t st).
Proof.
  intros Ht HL HU. unfold step. rewrite Ht.
  destruct ins; simpl; eauto.
  - destruct (st_level st >? sev_level s); eauto.
  - rewrite HL by done. eauto.
  - rewrite HU by done. eauto.
Qed.

(** X10.  The methods cannot block one another for ever on [l.mu].  In
    every state their interleavings reach: the mutex is held only by a
    goroutine that still has accesses to make; as long as some goroutine
    is unfinished, some goroutine can make its next access; and when all
    have returned the mutex is free. *)
Theorem X10_no_deadlock_on_instance_mutex :
  forall (lvl : LogLevel) (ms : list Method) (schedule : list nat) (st : State),
    run schedule (init lvl ms) = Some st ->
    (forall t, st_mu st = Some t ->
               exists m ins rest, st_threads st !! t = Some (m, ins :: rest))
    /\ ((exists t m ins rest, st_threads st !! t = Some (m, ins :: rest)) ->
        exists t', is_Some (step t' st))
    /\ ((forall t m rest, st_threads st !! t = Some (m, rest) -> rest = []) ->
        st_mu st = None).
Proof.
  intros lvl ms schedule st Hrun.
  pose proof (Inv_run ms schedule _ st (Inv_init lvl ms) Hrun) as (_ & Hd & _).
  assert (holder_known st) as HK.
  { eapply holder_known_run; [|exact Hrun]. intros t Ht. done. }
  assert (forall t, st_mu st = Some t ->
            exists m ins rest, st_threads st !! t = Some (m, ins :: rest)
                               /\ ins <> Lock /\ holds t st = true) as Hholder.
  { intros t Hmu. destruct (HK t Hmu) as ([m rest] & Ht).
    specialize (Hd t m rest Ht).
    assert (holds t st = true) as Hh by (unfold holds; by rewrite Hmu, Nat.eqb_refl).
    rewrite Hh in Hd. destruct rest as [|ins rest]; [done|].
    exists m, ins, rest. split_all; [done| |done].
    intros ->. done. }
  split_all.
  - intros t Hmu. destruct (Hholder t Hmu) as (m & ins & rest & Ht & _). eauto.
  - intros (t & m & ins & rest & Ht).
    destruct (st_mu st) as [t0|] eqn:Hmu.
    + destruct (Hholder t0 eq_refl) as (m0 & ins0 & rest0 & Ht0 & Hnl & Hh).
      exists t0. eapply step_enabled; [exact Ht0|done|done].
    + exists t. eapply step_enabled; [exact Ht|done|].
      intros ->. specialize (Hd t m _ Ht). simpl in Hd.
      by apply andb_true_iff in Hd as [Hh _].
  - intros Hall. destruct (st_mu st) as [t|] eqn:Hmu; [|done].
    destruct (Hholder t eq_refl) as (m & ins & rest & Ht & _).
    by specialize (Hall t m _ Ht).
Qed.

Lemma X10_witness :
  exists st,
    run [0; 0]%nat (init DebugLevel race_methods) = Some st
    /\ st_mu st = Some 0%nat
    /\ exists t', is_Some (step t' st).
Proof.
  destruct (run [0; 0]%nat (init DebugLevel race_methods)) as [st|] eqn:Hrun;
    [|vm_compute in Hrun; discriminate Hrun].
  pose proof (X10_no_deadlock_on_instance_mutex DebugLevel race_methods _ st Hrun)
    as (_ & Hprog & _).
  vm_compute in Hrun. injection Hrun as <-.
  eexists. split; [reflexivity|]. split; [reflexivity|].
  apply Hprog. exists 1%nat. do 3 eexists. reflexivity.
Defined.
End ConcProgress.
